(** * Gift buyer: acquisition pipeline

  A shallow embedding of the acquisition pipeline of the gift buyer
  (budget counter, validator, cache persistence, monitor, purchase
  dispatcher, purchase reporting, invoices, rate limiter) together with
  the properties stated about it.

  Conventions.
  - Go's [int64] is a [Z] kept in the signed 64-bit range; arithmetic that
    can leave the range is written with [Int64.wrap].
  - Go's [error] is its message ([string]); [nil] is [None].
  - Calls to collaborators behind interfaces (catalog, payment API,
    context, notifier) are answered by explicit oracles and recorded in
    event traces, so that "is called" and "is not called" are statements
    about a trace. *)

From Stdlib Require Import ZArith Lia Bool.

From stdpp Require Import gmap strings list fin_maps pretty sorting.

(** * Part I: the program *)

(** ** Machine integers *)

Module Int64.
Local Open Scope Z_scope.

Definition min_int : Z := - 2 ^ 63.

Definition max_int : Z := 2 ^ 63 - 1.

Definition in_range (z : Z) : Prop := min_int <= z <= max_int.

(** Two's complement wrap-around of a mathematical integer. *)
Definition wrap (z : Z) : Z := (z + 2 ^ 63) mod 2 ^ 64 - 2 ^ 63.

Definition add (a b : Z) : Z := wrap (a + b).

Definition mul (a b : Z) : Z := wrap (a * b).

End Int64.

(** ** Errors (pkg/errors) *)

Module Errors.

Definition error : Type := string.

Definition New (text : string) : error := text.

(** [Wrap err context] of a non-nil error: [fmt.Errorf("%s: %w", context, err)]. *)
Definition Wrap (err : error) (context : string) : error :=
  (context ++ ": " ++ err)%string.

End Errors.

(** ** Budget counter (atomicCounter) *)

Module AtomicCounter.
Local Open Scope Z_scope.

Record atomicCounter : Type := mkCounter { count : Z; max : Z }.

Definition NewAtomicCounter (max : Z) : atomicCounter :=
  {| count := 0; max := max |}.

(** The [sync/atomic] primitives the counter is built from. *)
Definition LoadInt64 (ac : atomicCounter) : Z := count ac.

Definition CompareAndSwapInt64 (ac : atomicCounter) (old new : Z)
  : bool * atomicCounter :=
  if count ac =? old then (true, {| count := new; max := max ac |})
  else (false, ac).

Definition AddInt64 (ac : atomicCounter) (delta : Z) : atomicCounter :=
  {| count := Int64.add (count ac) delta; max := max ac |}.

(** One pass through the body of the [for] loop of [TryIncrement]:
    [Some b] when the pass returns [b], [None] when the compare-and-swap
    lost and the loop goes round again. *)
Definition TryIncrement_body (ac : atomicCounter)
  : option bool * atomicCounter :=
  let current := LoadInt64 ac in
  if current >=? max ac then (Some false, ac)
  else
    let '(swapped, ac') :=
      CompareAndSwapInt64 ac current (Int64.add current 1) in
    if swapped then (Some true, ac') else (None, ac').

Fixpoint TryIncrement_loop (fuel : nat) (ac : atomicCounter)
  : option (bool * atomicCounter) :=
  match fuel with
  | O => None
  | S fuel' =>
      match TryIncrement_body ac with
      | (Some b, ac') => Some (b, ac')
      | (None, ac') => TryIncrement_loop fuel' ac'
      end
  end.

(** Without interference between the load and the swap the first pass
    decides, so one unit of fuel is the whole call. *)
Definition TryIncrement (ac : atomicCounter) : bool * atomicCounter :=
  match TryIncrement_loop 1 ac with
  | Some r => r
  | None => (false, ac)
  end.

Definition Decrement (ac : atomicCounter) : atomicCounter :=
  AddInt64 ac (-1).

Definition Get (ac : atomicCounter) : Z := LoadInt64 ac.

Definition GetMax (ac : atomicCounter) : Z := max ac.

(** Sequences of calls on one counter. *)
Inductive op : Type := OpTryIncrement | OpDecrement.

#[global] Instance op_eq_dec : EqDecision op.
Proof. solve_decision. Defined.

(** [run ops ac] performs the calls in order and collects the results of
    the [TryIncrement] calls. *)
Fixpoint run (ops : list op) (ac : atomicCounter)
  : list bool * atomicCounter :=
  match ops with
  | [] => ([], ac)
  | OpTryIncrement :: ops' =>
      let '(b, ac') := TryIncrement ac in
      let '(bs, ac'') := run ops' ac' in
      (b :: bs, ac'')
  | OpDecrement :: ops' => run ops' (Decrement ac)
  end.

(** How many of the collected results are [true]. *)
Definition successes (bs : list bool) : nat :=
  length (filter (fun b => b = true) bs).

(** How many [Decrement] calls a sequence holds. *)
Definition decrements (ops : list op) : nat :=
  length (filter (fun o => o = OpDecrement) ops).

(** The counter's own invariant: the value is an [int64], the ceiling is a
    non-negative [int64], and the value is at most the ceiling. *)
Definition bounded (ac : atomicCounter) : Prop :=
  Int64.in_range (count ac) /\ count ac <= max ac <= Int64.max_int.

(** *** Interleavings of the atomic steps

    Concurrent callers interleave at the [sync/atomic] operations: a
    [TryIncrement] is a load followed, later, by a compare-and-swap that
    fails when another caller moved the value in between, in which case the
    loop starts over; a [Decrement] is one atomic add. *)

(** Where a caller stands: its call not begun, between the load and the
    swap of a [TryIncrement] with the value it loaded, or returned (with the
    result of a [TryIncrement]; a [Decrement] returns nothing). *)
Inductive thread : Type :=
| Ready (o : op)
| Loaded (current : Z)
| Finished (r : option bool).

(** The next atomic step of a caller on the shared counter. *)
Definition threadStep (t : thread) (ac : atomicCounter)
  : thread * atomicCounter :=
  match t with
  | Ready OpTryIncrement =>
      let current := LoadInt64 ac in
      if current >=? max ac then (Finished (Some false), ac)
      else (Loaded current, ac)
  | Loaded current =>
      let '(swapped, ac') :=
        CompareAndSwapInt64 ac current (Int64.add current 1) in
      if swapped then (Finished (Some true), ac')
      else (Ready OpTryIncrement, ac')
  | Ready OpDecrement => (Finished None, Decrement ac)
  | Finished r => (Finished r, ac)
  end.

(** The scheduler lets thread [i] take its next atomic step. *)
Definition poolStep (st : list thread * atomicCounter) (i : nat)
  : list thread * atomicCounter :=
  match st.1 !! i with
  | Some t =>
      let '(t', ac') := threadStep t st.2 in (<[i := t']> st.1, ac')
  | None => st
  end.

(** The callers run under a schedule: the list of the threads that step. *)
Definition interleave (schedule : list nat) (st : list thread * atomicCounter)
  : list thread * atomicCounter :=
  foldl poolStep st schedule.

(** Counting callers: a [Decrement] still to come, a [TryIncrement] that
    returned [b]. *)
Definition pendingDecrement (t : thread) : nat :=
  match t with
  | Ready OpDecrement => 1
  | _ => 0
  end.

Definition returned (b : bool) (t : thread) : nat :=
  match t with
  | Finished (Some b') => if Bool.eqb b b' then 1 else 0
  | _ => 0
  end.

(** The caller is a [TryIncrement] caller. *)
Definition incrementing (t : thread) : Prop :=
  match t with
  | Ready OpDecrement => False
  | Finished None => False
  | _ => True
  end.

(** The caller has returned. *)
Definition finished (t : thread) : Prop :=
  match t with
  | Finished _ => True
  | _ => False
  end.

(** What every interleaving keeps true of a counter of ceiling [C]. *)
Definition safe (C : Z) (st : list thread * atomicCounter) : Prop :=
  max st.2 = C
  /\ count st.2 <= C
  /\ Int64.min_int + Z.of_nat (sum_list_with pendingDecrement st.1) <= count st.2
  /\ Forall (fun t => match t with
                      | Loaded current => Int64.min_int <= current < C
                      | _ => True
                      end) st.1.

(** What every interleaving of [TryIncrement] callers alone keeps true: the
    value counts the calls that returned [true], and once a call has
    returned [false] the value is the ceiling. *)
Definition tallied (C : Z) (st : list thread * atomicCounter) : Prop :=
  max st.2 = C
  /\ count st.2 = Z.of_nat (sum_list_with (returned true) st.1)
  /\ count st.2 <= C
  /\ (0 < sum_list_with (returned false) st.1 -> count st.2 = C)%nat
  /\ Forall (fun t => incrementing t
                      /\ match t with
                         | Loaded current => current < C
                         | _ => True
                         end) st.1.

End AtomicCounter.

(** ** Catalog entries (gotd's [tg.StarGift]) and configuration *)

Module Tg.
Local Open Scope Z_scope.

(** Modelled from the spec: [tg.StarGift] and its getters belong to the gotd
    library, which is not among the sources. These are the attributes of an
    item the pipeline reads (identifier, price, limited and sold-out flags,
    premium requirement, remaining and total supply, releaser). An attribute
    that may be missing is an [option]; its getter returns the value and
    [true], or the zero value and [false] when the attribute is absent. *)
Record StarGift : Type := mkStarGift {
  ID : Z;
  Stars : Z;
  Limited : bool;
  SoldOut : bool;
  RequirePremium : bool;
  AvailabilityRemains : option Z;
  AvailabilityTotal : option Z;
  ReleasedBy : option Z
}.

Definition GetStars (g : StarGift) : Z := Stars g.

Definition GetRequirePremium (g : StarGift) : bool := RequirePremium g.

Definition getOptional (field : option Z) : Z * bool :=
  match field with
  | Some v => (v, true)
  | None => (0, false)
  end.

Definition GetAvailabilityRemains (g : StarGift) : Z * bool :=
  getOptional (AvailabilityRemains g).

Definition GetAvailabilityTotal (g : StarGift) : Z * bool :=
  getOptional (AvailabilityTotal g).

Definition GetReleasedBy (g : StarGift) : Z * bool :=
  getOptional (ReleasedBy g).

End Tg.

Module Config.

Record Criterias : Type := mkCriterias {
  MinPrice : Z;
  MaxPrice : Z;
  TotalSupply : Z;
  Count : Z;
  ReceiverType : list Z;
  Hide : bool
}.

Record GiftParam : Type := mkGiftParam {
  LimitedStatus : bool;
  TestMode : bool;
  OnlyPremium : bool;
  TotalStarCap : Z;
  ReleaseBy : bool
}.

End Config.

Module GiftTypes.

Record GiftRequire : Type := mkGiftRequire {
  Gift : Tg.StarGift;
  ReceiverType : list Z;
  CountForBuy : Z;
  Hide : bool
}.

Record GiftResult : Type := mkGiftResult {
  GiftID : Z;
  Success : bool;
  Err : option Errors.error
}.

End GiftTypes.

(** ** Validator *)

Module GiftValidator.
Local Open Scope Z_scope.

Record giftValidatorImpl : Type := mkValidator {
  limitedStatus : bool;
  releaseBy : bool;
  premium : bool;
  criteria : list Config.Criterias;
  totalStarCap : Z;
  testMode : bool
}.

Definition NewGiftValidator (criterias : list Config.Criterias)
  (giftParam : Config.GiftParam) : giftValidatorImpl :=
  {| criteria := criterias;
     totalStarCap := Config.TotalStarCap giftParam;
     premium := Config.OnlyPremium giftParam;
     testMode := Config.TestMode giftParam;
     limitedStatus := Config.LimitedStatus giftParam;
     releaseBy := Config.ReleaseBy giftParam |}.

Definition priceValid (c : Config.Criterias) (gift : Tg.StarGift) : bool :=
  let giftPrice := Tg.GetStars gift in
  if (giftPrice >=? Config.MinPrice c) && (giftPrice <=? Config.MaxPrice c)
  then true else false.

Definition supplyValid (gv : giftValidatorImpl) (c : Config.Criterias)
  (gift : Tg.StarGift) : bool :=
  if testMode gv then true
  else if Tg.Limited gift then
    let '(remains, hasRemains) := Tg.GetAvailabilityRemains gift in
    if negb hasRemains || (remains <=? 0) then false
    else
      let '(totalSupply, hasTotalSupply) := Tg.GetAvailabilityTotal gift in
      if negb hasTotalSupply then false
      else if totalSupply <=? Config.TotalSupply c then true else false
  else true.

Definition starCapValidation (gv : giftValidatorImpl) (gift : Tg.StarGift)
  : bool :=
  if testMode gv then true
  else
    let price := Tg.GetStars gift in
    let '(giftSupply, _) := Tg.GetAvailabilityTotal gift in
    Int64.mul price giftSupply <=? totalStarCap gv.

Definition releaseByValidation (gv : giftValidatorImpl) (gift : Tg.StarGift)
  : bool :=
  let '(_, hasReleasedBy) := Tg.GetReleasedBy gift in
  if hasReleasedBy && negb (releaseBy gv) then false else true.

Definition premiumValidation (gv : giftValidatorImpl) (gift : Tg.StarGift)
  : bool :=
  let premium_required := Tg.GetRequirePremium gift in
  if premium gv && negb premium_required then false else true.

(** The [for ... range gv.criteria] loop of [IsEligible]. *)
Fixpoint firstCriteria (gv : giftValidatorImpl) (cs : list Config.Criterias)
  (gift : Tg.StarGift) : option GiftTypes.GiftRequire :=
  match cs with
  | [] => None
  | c :: cs' =>
      if priceValid c gift && supplyValid gv c gift && starCapValidation gv gift
      then Some {| GiftTypes.Gift := gift;
                   GiftTypes.ReceiverType := Config.ReceiverType c;
                   GiftTypes.CountForBuy := Config.Count c;
                   GiftTypes.Hide := Config.Hide c |}
      else firstCriteria gv cs' gift
  end.

(** [IsEligible]: [Some r] stands for [(r, true)], [None] for [(nil, false)]. *)
Definition IsEligible (gv : giftValidatorImpl) (gift : Tg.StarGift)
  : option GiftTypes.GiftRequire :=
  if Tg.SoldOut gift then None
  else if negb (eqb (Tg.Limited gift) (limitedStatus gv)) then None
  else if negb (releaseByValidation gv gift) then None
  else if negb (premiumValidation gv gift) then None
  else firstCriteria gv (criteria gv) gift.

(** What the claims call the three per-criterion checks. *)
Definition criterion_holds (gv : giftValidatorImpl) (c : Config.Criterias)
  (gift : Tg.StarGift) : Prop :=
  (Config.MinPrice c <= Tg.Stars gift <= Config.MaxPrice c)
  /\ supplyValid gv c gift = true
  /\ starCapValidation gv gift = true.

(** The match [IsEligible] builds from a criterion. *)
Definition requireOf (c : Config.Criterias) (gift : Tg.StarGift)
  : GiftTypes.GiftRequire :=
  {| GiftTypes.Gift := gift;
     GiftTypes.ReceiverType := Config.ReceiverType c;
     GiftTypes.CountForBuy := Config.Count c;
     GiftTypes.Hide := Config.Hide c |}.

(** Example inputs. A limited item: price 50, 10 left of 80. *)
Definition scenario_gift : Tg.StarGift :=
  {| Tg.ID := 1; Tg.Stars := 50; Tg.Limited := true; Tg.SoldOut := false;
     Tg.RequirePremium := false; Tg.AvailabilityRemains := Some 10;
     Tg.AvailabilityTotal := Some 80; Tg.ReleasedBy := None |}.

(** Three criteria: the item above is too cheap for the first and satisfies
    the second and the third. *)
Definition scenario_validator : giftValidatorImpl :=
  NewGiftValidator
    [ {| Config.MinPrice := 60; Config.MaxPrice := 100;
         Config.TotalSupply := 100; Config.Count := 9;
         Config.ReceiverType := [2]; Config.Hide := false |};
      {| Config.MinPrice := 10; Config.MaxPrice := 100;
         Config.TotalSupply := 100; Config.Count := 3;
         Config.ReceiverType := [0; 1]; Config.Hide := true |};
      {| Config.MinPrice := 0; Config.MaxPrice := 1000;
         Config.TotalSupply := 1000; Config.Count := 7;
         Config.ReceiverType := [1]; Config.Hide := false |} ]
    {| Config.LimitedStatus := true; Config.TestMode := false;
       Config.OnlyPremium := false; Config.TotalStarCap := 10000;
       Config.ReleaseBy := false |}.

(** An unlimited item: it carries no supply attributes. *)
Definition unlimited_gift : Tg.StarGift :=
  {| Tg.ID := 7; Tg.Stars := 500; Tg.Limited := false; Tg.SoldOut := false;
     Tg.RequirePremium := false; Tg.AvailabilityRemains := None;
     Tg.AvailabilityTotal := None; Tg.ReleasedBy := None |}.

End GiftValidator.

(** ** Discovery cache and its durable snapshot *)

Module GiftCache.
Local Open Scope Z_scope.

(** [CachedGift]: what the snapshot keeps of a gift. *)
Record CachedGift : Type := mkCachedGift { ID : Z; Stars : Z }.

(** The in-memory map of the cache; the mutex and the save goroutine are
    left out: operations are taken one at a time. *)
Record GiftCacheImpl : Type := mkCache { cache : gmap Z Tg.StarGift }.

Definition emptyCache : GiftCacheImpl := {| cache := ∅ |}.

Definition SetGift (gc : GiftCacheImpl) (id : Z) (gift : Tg.StarGift)
  : GiftCacheImpl :=
  {| cache := <[id := gift]> (cache gc) |}.

Definition GetGift (gc : GiftCacheImpl) (id : Z) : option Tg.StarGift :=
  cache gc !! id.

Definition HasGift (gc : GiftCacheImpl) (id : Z) : bool :=
  match cache gc !! id with
  | Some _ => true
  | None => false
  end.

Definition DeleteGift (gc : GiftCacheImpl) (id : Z) : GiftCacheImpl :=
  {| cache := delete id (cache gc) |}.

Definition Clear (gc : GiftCacheImpl) : GiftCacheImpl := emptyCache.

(** [strconv.FormatInt(id, 10)]. *)
Definition FormatInt (id : Z) : string := pretty id.

(** The file [cache.json], by what [os.ReadFile] and [json.Unmarshal] make
    of it when it is decoded into a nil [map[string]CachedGift]:
    - [NotDecoded]: the file is missing or unreadable, or its text is not
      valid JSON or not a JSON object; the map is left nil;
    - [Decoded m]: the text decodes to [m] and [json.Unmarshal] returns nil
      ([null] decodes to no entry);
    - [Mistyped m]: the text is a JSON object in which some value has the
      wrong type; [json.Unmarshal] decodes past it, leaves [m] in the map,
      the mistyped parts at their zero value, and returns the type error. *)
Inductive snapshot : Type :=
| NotDecoded
| Decoded (m : gmap string CachedGift)
| Mistyped (m : gmap string CachedGift).

(** [existingCache] once [saveToFile] has read the file: what
    [json.Unmarshal] left in the map, whether or not it returned an error
    (the error is only logged), and the map [make] gives when the map is
    still nil. *)
Definition entries (disk : snapshot) : gmap string CachedGift :=
  match disk with
  | NotDecoded => ∅
  | Decoded m => m
  | Mistyped m => m
  end.

(** The files [json.Unmarshal] rejects after having filled the map. *)
Definition mistyped (disk : snapshot) : bool :=
  match disk with
  | Mistyped _ => true
  | _ => false
  end.

(** How [os.WriteFile] ends: a failed write may leave anything behind. *)
Inductive write_outcome : Type :=
| WriteDone
| WriteFailed (left_behind : snapshot).

(** The calls on [cache.json]: [os.ReadFile], and [os.WriteFile] with the
    map whose JSON text it is given. *)
Inductive io_event : Type :=
| EvReadFile
| EvWriteFile (data : gmap string CachedGift).

(** The body of the [for id, gift := range gc.cache] loop: the running
    [existingCache] and [newGifts]. *)
Definition mergeEntry (acc : gmap string CachedGift * Z)
  (entry : Z * Tg.StarGift) : gmap string CachedGift * Z :=
  let '(existingCache, newGifts) := acc in
  let '(id, gift) := entry in
  let key := FormatInt id in
  match existingCache !! key with
  | Some _ => (existingCache, newGifts)
  | None =>
      (<[key := {| ID := Tg.ID gift; Stars := Tg.Stars gift |}]> existingCache,
       newGifts + 1)
  end.

(** Go ranges over a map in an unspecified order: [order] is the order this
    run of the loop happens to visit the entries in. *)
Definition mergeLoop (existingCache : gmap string CachedGift)
  (order : list (Z * Tg.StarGift)) : gmap string CachedGift * Z :=
  foldl mergeEntry (existingCache, 0) order.

(** [saveToFile]: the calls it makes on the file, in order, and the file
    afterwards. Marshalling a map of [CachedGift] cannot fail and is left
    out; the text it gives decodes to the map again. *)
Definition saveToFile (disk : snapshot) (order : list (Z * Tg.StarGift))
  (w : write_outcome) : list io_event * snapshot :=
  let existingCache := entries disk in
  let '(merged, newGifts) := mergeLoop existingCache order in
  if newGifts =? 0 then ([EvReadFile], disk)
  else
    ([EvReadFile; EvWriteFile merged],
     match w with
     | WriteDone => Decoded merged
     | WriteFailed left_behind => left_behind
     end).

(** *** Loading the snapshot and saving it periodically *)

(** The gift [loadFromFile] rebuilds from an entry of the snapshot: the
    identifier and the price, every other field at its zero value. *)
Definition restored (cached : CachedGift) : Tg.StarGift :=
  {| Tg.ID := ID cached; Tg.Stars := Stars cached; Tg.Limited := false;
     Tg.SoldOut := false; Tg.RequirePremium := false;
     Tg.AvailabilityRemains := None; Tg.AvailabilityTotal := None;
     Tg.ReleasedBy := None |}.

(** [loadFromFile]: a file that cannot be read, or for which
    [json.Unmarshal] returns an error of either kind, leaves the cache as it
    is; otherwise every entry, in the order [order] the decoded map is
    ranged over, is put in the cache under the identifier it carries. *)
Definition loadFromFile (disk : snapshot) (order : list (string * CachedGift))
  (gc : GiftCacheImpl) : GiftCacheImpl :=
  match disk with
  | NotDecoded => gc
  | Mistyped _ => gc
  | Decoded _ =>
      {| cache :=
           foldl (fun cache entry => <[ID entry.2 := restored entry.2]> cache)
             (cache gc) order |}
  end.

(** [NewGiftCache], the save goroutine apart. *)
Definition NewGiftCache (disk : snapshot) (order : list (string * CachedGift))
  : GiftCacheImpl :=
  loadFromFile disk order emptyCache.

(** What happens to a cache and its file, one operation at a time under the
    mutex: the callers' operations, and the saves of [startPeriodicSave]
    (one at each tick and one when it is stopped), each with the order it
    ranges over the cache in and the way its write ends. *)
Inductive cacheStep : Type :=
| StepSetGift (id : Z) (gift : Tg.StarGift)
| StepDeleteGift (id : Z)
| StepClear
| StepSave (order : list (Z * Tg.StarGift)) (w : write_outcome).

Definition cacheStepOn (state : GiftCacheImpl * snapshot) (step : cacheStep)
  : GiftCacheImpl * snapshot :=
  let '(gc, disk) := state in
  match step with
  | StepSetGift id gift => (SetGift gc id gift, disk)
  | StepDeleteGift id => (DeleteGift gc id, disk)
  | StepClear => (Clear gc, disk)
  | StepSave order w => (gc, (saveToFile disk order w).2)
  end.

Definition runCache (steps : list cacheStep)
  (state : GiftCacheImpl * snapshot) : GiftCacheImpl * snapshot :=
  foldl cacheStepOn state steps.

(** No write of the run fails. *)
Definition writesDone (steps : list cacheStep) : Prop :=
  Forall (fun step => match step with
                      | StepSave _ (WriteFailed _) => False
                      | _ => True
                      end) steps.

(** Every gift of the cache is stored under its own identifier, as the
    monitor stores them. *)
Definition keyedCache (gc : GiftCacheImpl) : Prop :=
  forall id gift, cache gc !! id = Some gift -> Tg.ID gift = id.

(** Every entry of a snapshot is stored under the decimal text of the
    identifier it carries, as [saveToFile] stores them. *)
Definition keyedSnapshot (m : gmap string CachedGift) : Prop :=
  forall key cached, m !! key = Some cached -> key = FormatInt (ID cached).

(** [order] is one way of ranging over the in-memory map. *)
Definition ranges_over (order : list (Z * Tg.StarGift)) (gc : GiftCacheImpl)
  : Prop :=
  order ≡ₚ map_to_list (cache gc).

(** What [saveToFile] stores of an in-memory gift. *)
Definition project (gift : Tg.StarGift) : CachedGift :=
  {| ID := Tg.ID gift; Stars := Tg.Stars gift |}.

(** Example inputs: a cache holding one gift, a snapshot that already has it
    next to an older entry, a snapshot that has the older entry only, and a
    file whose older entry has a string where its [id] should be. *)
Definition seen_gift : Tg.StarGift :=
  {| Tg.ID := 1; Tg.Stars := 50; Tg.Limited := true; Tg.SoldOut := false;
     Tg.RequirePremium := false; Tg.AvailabilityRemains := Some 10;
     Tg.AvailabilityTotal := Some 80; Tg.ReleasedBy := None |}.

Definition seen_cache : GiftCacheImpl := SetGift emptyCache 1 seen_gift.

Definition old_snapshot : snapshot :=
  Decoded {[ "1"%string := {| ID := 1; Stars := 50 |};
          "9"%string := {| ID := 9; Stars := 20 |} ]}.

Definition stale_snapshot : snapshot :=
  Decoded {[ "9"%string := {| ID := 9; Stars := 20 |} ]}.

Definition mistyped_snapshot : snapshot :=
  Mistyped {[ "9"%string := {| ID := 0; Stars := 20 |} ]}.

End GiftCache.

(** ** Monitor *)

Module GiftMonitor.

(** The validator is held through its interface: the monitor only calls
    [IsEligible]. *)
Record giftMonitorImpl : Type := mkMonitor {
  cache : GiftCache.GiftCacheImpl;
  validator : Tg.StarGift -> option GiftTypes.GiftRequire;
  paused : bool;
  firstRun : bool;
  testMode : bool
}.

Definition NewGiftMonitor (cache : GiftCache.GiftCacheImpl)
  (validator : Tg.StarGift -> option GiftTypes.GiftRequire)
  (testMode : bool) : giftMonitorImpl :=
  {| cache := cache; validator := validator; paused := false;
     firstRun := true; testMode := testMode |}.

Definition setCache (gm : giftMonitorImpl) (c : GiftCache.GiftCacheImpl)
  : giftMonitorImpl :=
  {| cache := c; validator := validator gm; paused := paused gm;
     firstRun := firstRun gm; testMode := testMode gm |}.

Definition setFirstRun (gm : giftMonitorImpl) (b : bool) : giftMonitorImpl :=
  {| cache := cache gm; validator := validator gm; paused := paused gm;
     firstRun := b; testMode := testMode gm |}.


Definition setPaused (gm : giftMonitorImpl) (b : bool) : giftMonitorImpl :=
  {| cache := cache gm; validator := validator gm; paused := b;
     firstRun := firstRun gm; testMode := testMode gm |}.

Definition withGift (r : GiftTypes.GiftRequire) (gift : Tg.StarGift)
  : GiftTypes.GiftRequire :=
  {| GiftTypes.Gift := gift;
     GiftTypes.ReceiverType := GiftTypes.ReceiverType r;
     GiftTypes.CountForBuy := GiftTypes.CountForBuy r;
     GiftTypes.Hide := GiftTypes.Hide r |}.

(** The warm-up signal: [errors.Wrap(errors.New("first run"), "touch grass")]. *)
Definition firstRunError : Errors.error :=
  Errors.Wrap (Errors.New "first run") "touch grass".

(** What [manager.GetAvailableGifts] answered. *)
Inductive catalog : Type :=
| Available (currentGifts : list Tg.StarGift)
| Unavailable (err : Errors.error).

(** What [checkForNewGifts] returns: gifts with a nil error, or nil gifts
    with an error. *)
Inductive poll : Type :=
| NewGifts (newValidGifts : list GiftTypes.GiftRequire)
| PollError (err : Errors.error).

(** The [for _, gift := range currentGifts] loop: the matches appended to
    [newValidGifts], the cache after the loop, and the gifts handed to the
    validator, in order. *)
Fixpoint scanGifts (validator : Tg.StarGift -> option GiftTypes.GiftRequire)
  (currentGifts : list Tg.StarGift) (c : GiftCache.GiftCacheImpl)
  : list GiftTypes.GiftRequire * GiftCache.GiftCacheImpl * list Tg.StarGift :=
  match currentGifts with
  | [] => ([], c, [])
  | gift :: rest =>
      if GiftCache.HasGift c (Tg.ID gift) then scanGifts validator rest c
      else
        let found :=
          match validator gift with
          | Some giftRequire => [withGift giftRequire gift]
          | None => []
          end in
        let '(more, c', validated) :=
          scanGifts validator rest (GiftCache.SetGift c (Tg.ID gift) gift) in
        (found ++ more, c', gift :: validated)
  end.

(** [checkForNewGifts]: the result, the monitor afterwards, and the gifts the
    validator was called on. *)
Definition checkForNewGifts (gm : giftMonitorImpl) (answer : catalog)
  : poll * giftMonitorImpl * list Tg.StarGift :=
  match answer with
  | Unavailable err => (PollError err, gm, [])
  | Available currentGifts =>
      let '(newValidGifts, c', validated) :=
        scanGifts (validator gm) currentGifts (cache gm) in
      let gm' := setCache gm c' in
      if firstRun gm' && negb (testMode gm')
      then (PollError firstRunError, setFirstRun gm' false, validated)
      else (NewGifts newValidGifts, gm', validated)
  end.

Definition Pause (gm : giftMonitorImpl) : giftMonitorImpl :=
  if negb (paused gm) then setPaused gm true else gm.

Definition Resume (gm : giftMonitorImpl) : giftMonitorImpl :=
  if paused gm then setPaused gm false else gm.

Definition IsPaused (gm : giftMonitorImpl) : bool := paused gm.



(** Example inputs: a fresh monitor with test mode off, and a first catalog
    of two items, the first of which the validator would accept. *)
Definition warmup_monitor : giftMonitorImpl :=
  NewGiftMonitor GiftCache.emptyCache
    (GiftValidator.IsEligible GiftValidator.scenario_validator) false.

Definition warmup_catalog : list Tg.StarGift :=
  [GiftValidator.scenario_gift; GiftValidator.unlimited_gift].


(** The match the loop appends for a gift the validator accepts. *)
Definition matchOf (validator : Tg.StarGift -> option GiftTypes.GiftRequire)
  (gift : Tg.StarGift) : option GiftTypes.GiftRequire :=
  match validator gift with
  | Some giftRequire => Some (withGift giftRequire gift)
  | None => None
  end.

(** *** The poll loop of [Start]

    One iteration of the [for { select { ... } }] loop is a function of the
    case the [select] takes. The goroutine started on a tick is run to its
    channel send at the tick, so that polls do not overlap; the two channels
    are queues. The trace keeps the calls of
    [notification.SendErrorNotification] and of [errorLogsWriter.LogError];
    informational logging is left out. *)

Record startState : Type := mkStart {
  monitor : giftMonitorImpl;
  resultCh : list (list GiftTypes.GiftRequire);
  errCh : list Errors.error;
  sentErrors : list Errors.error;
  errorLog : list string
}.

Definition startOf (gm : giftMonitorImpl) : startState :=
  {| monitor := gm; resultCh := []; errCh := []; sentErrors := [];
     errorLog := [] |}.

Inductive selectCase : Type :=
| CaseDone (ctxErr : Errors.error)
| CaseTick (answer : catalog)
| CaseResult
| CaseErr (notifErr : option Errors.error).

Inductive iteration : Type :=
| Returned (newGifts : list GiftTypes.GiftRequire) (err : option Errors.error)
| Continues (st : startState)
| NotReady.

Definition iterate (st : startState) (c : selectCase) : iteration :=
  match c with
  | CaseDone ctxErr => Returned [] (Some ctxErr)
  | CaseTick answer =>
      if IsPaused (monitor st) then Continues st
      else
        let '(res, gm', _) := checkForNewGifts (monitor st) answer in
        match res with
        | PollError err =>
            Continues {| monitor := gm'; resultCh := resultCh st;
                         errCh := errCh st ++ [err];
                         sentErrors := sentErrors st;
                         errorLog := errorLog st |}
        | NewGifts newGifts =>
            if (length newGifts =? 0)%nat
            then Continues {| monitor := gm'; resultCh := resultCh st;
                              errCh := errCh st;
                              sentErrors := sentErrors st;
                              errorLog := errorLog st |}
            else Continues {| monitor := gm';
                              resultCh := resultCh st ++ [newGifts];
                              errCh := errCh st;
                              sentErrors := sentErrors st;
                              errorLog := errorLog st |}
        end
  | CaseResult =>
      match resultCh st with
      | [] => NotReady
      | newGifts :: _ => Returned newGifts None
      end
  | CaseErr notifErr =>
      match errCh st with
      | [] => NotReady
      | err :: rest =>
          if negb (IsPaused (monitor st))
          then Continues {| monitor := monitor st; resultCh := resultCh st;
                            errCh := rest;
                            sentErrors := sentErrors st ++ [err];
                            errorLog :=
                              errorLog st
                              ++ match notifErr with
                                 | Some e => [e]
                                 | None => []
                                 end ++ [err] |}
          else Continues {| monitor := monitor st; resultCh := resultCh st;
                            errCh := rest; sentErrors := sentErrors st;
                            errorLog := errorLog st |}
      end
  end.

(** [Start] along a schedule of select cases, until it returns. *)
Fixpoint Start (st : startState) (schedule : list selectCase) : iteration :=
  match schedule with
  | [] => Continues st
  | c :: rest =>
      match iterate st c with
      | Continues st' => Start st' rest
      | stopped => stopped
      end
  end.

(** Example input: the loop of the fresh monitor above with the warm-up
    error waiting in the error queue. *)
Definition warmup_received : startState :=
  {| monitor := warmup_monitor; resultCh := []; errCh := [firstRunError];
     sentErrors := []; errorLog := [] |}.


(** The fresh monitor above, paused before its first poll. *)
Definition paused_monitor : giftMonitorImpl := Pause warmup_monitor.

Definition notifications (it : iteration) : option (list Errors.error) :=
  match it with
  | Continues st => Some (sentErrors st)
  | Returned _ _ => None
  | NotReady => None
  end.

End GiftMonitor.

(** ** Purchase pipeline: [PurchaseGift] *)

Module PurchaseProcessor.
Local Open Scope Z_scope.

(** The concrete kinds of [tg.PaymentsPaymentFormClass] the type switch
    tells apart; [OtherForm] is any other dynamic type, with its [%T] name. *)
Inductive paymentForm : Type :=
| PaymentsPaymentFormStars (FormID : Z)
| PaymentsPaymentFormStarGift (FormID : Z)
| PaymentsPaymentForm
| OtherForm (typeName : string).

(** What the remote calls of one [PurchaseGift] answer. *)
Record remote : Type := mkRemote {
  apiPresent : bool;
  starsStatus : option Z;
  paymentFormAnswer : Errors.error + paymentForm;
  sendStarsAnswer : option Errors.error
}.

Definition validatePurchase (r : remote) (gift : Tg.StarGift) : bool :=
  if negb (apiPresent r) then false
  else
    match starsStatus r with
    | None => false
    | Some balance => balance >=? Tg.Stars gift
    end.

Definition sendStarsForm (r : remote) : option Errors.error :=
  match sendStarsAnswer r with
  | Some err => Some (Errors.Wrap err "failed to send payment")
  | None => None
  end.

Definition insufficientBalance : Errors.error :=
  Errors.New "insufficient balance to buy gift".

Definition regularFormUnsupported : Errors.error :=
  Errors.New "regular payment form not supported for star gifts".

Definition unexpectedForm (typeName : string) : Errors.error :=
  Errors.Wrap (Errors.New "unexpected payment form type")
    ("unexpected payment form type: " ++ typeName)%string.

Definition PurchaseGift (r : remote) (gift : GiftTypes.GiftRequire)
  : option Errors.error :=
  if negb (validatePurchase r (GiftTypes.Gift gift))
  then Some insufficientBalance
  else
    match paymentFormAnswer r with
    | inl err => Some (Errors.Wrap err "failed to send stars form")
    | inr form =>
        match form with
        | PaymentsPaymentFormStars _ => sendStarsForm r
        | PaymentsPaymentFormStarGift _ => sendStarsForm r
        | PaymentsPaymentForm => Some regularFormUnsupported
        | OtherForm typeName => Some (unexpectedForm typeName)
        end
    end.

(** The errors the specification calls validation errors of the pipeline. *)
Definition validationError (err : Errors.error) : Prop :=
  err = insufficientBalance
  \/ err = regularFormUnsupported
  \/ exists typeName, err = unexpectedForm typeName.

(** The remote answers under which [PurchaseGift] ends in one of them: the
    balance check fails, or it passes and the payment form is of a kind
    that is not supported. *)
Definition rejects (r : remote) (gift : GiftTypes.GiftRequire) : Prop :=
  validatePurchase r (GiftTypes.Gift gift) = false
  \/ (validatePurchase r (GiftTypes.Gift gift) = true
      /\ (paymentFormAnswer r = inr PaymentsPaymentForm
          \/ exists typeName, paymentFormAnswer r = inr (OtherForm typeName))).

End PurchaseProcessor.

(** ** Buyer: one purchase unit with retries *)

Module GiftBuyer.
Local Open Scope Z_scope.

(** What the collaborators answer during attempt [j] of the loop: whether
    the context is already done (with [ctx.Err()]), what
    [counter.TryIncrement] returns, and what
    [purchaseProcessor.PurchaseGift] returns. *)
Record attempt : Type := mkAttempt {
  ctxDone : option Errors.error;
  tryIncrement : bool;
  purchase : option Errors.error
}.

(** What a unit does that others can see: its calls on the counter and the
    pipeline, its sleeps, and its sends on the result channel. *)
Inductive event : Type :=
| EvTryIncrement (ok : bool)
| EvPurchaseGift
| EvDecrement
| EvSleep
| EvSend (result : GiftTypes.GiftResult).

(** The two shapes of [GiftResult] the unit sends. *)
Definition failed (giftID : Z) (err : option Errors.error)
  : GiftTypes.GiftResult :=
  {| GiftTypes.GiftID := giftID; GiftTypes.Success := false;
     GiftTypes.Err := err |}.

Definition succeeded (giftID : Z) : GiftTypes.GiftResult :=
  {| GiftTypes.GiftID := giftID; GiftTypes.Success := true;
     GiftTypes.Err := None |}.

Definition maxBuyCountReached : Errors.error :=
  Errors.New "max buy count reached".

(** The [for j := 0; j < gm.retryCount; j++] loop with [remaining] passes to
    go, followed by the send after the loop. *)
Fixpoint retryLoop (answers : nat -> attempt) (giftID : Z) (retryCount : Z)
  (remaining : nat) (j : nat) (lastErr : option Errors.error) : list event :=
  match remaining with
  | O => [EvSend (failed giftID lastErr)]
  | S remaining' =>
      match ctxDone (answers j) with
      | Some ctxErr => [EvSend (failed giftID (Some ctxErr))]
      | None =>
          if negb (tryIncrement (answers j))
          then [EvTryIncrement false;
                EvSend (failed giftID (Some maxBuyCountReached))]
          else
            EvTryIncrement true :: EvPurchaseGift ::
            match purchase (answers j) with
            | Some err =>
                EvDecrement :: EvSend (failed giftID (Some err)) ::
                (if Z.of_nat j <? retryCount - 1 then [EvSleep] else [])
                ++ retryLoop answers giftID retryCount remaining' (S j)
                     (Some err)
            | None => [EvSend (succeeded giftID)]
            end
      end
  end.

Definition buyGiftWithRetry (answers : nat -> attempt)
  (gift : GiftTypes.GiftRequire) (retryCount : Z) : list event :=
  retryLoop answers (Tg.ID (GiftTypes.Gift gift)) retryCount
    (Z.to_nat retryCount) 0 None.

(** The outcomes sent on the result channel, in order. *)
Definition outcomes (trace : list event) : list GiftTypes.GiftResult :=
  omap (fun e => match e with EvSend r => Some r | _ => None end) trace.

Definition isPurchaseGift (e : event) : bool :=
  match e with
  | EvPurchaseGift => true
  | _ => false
  end.

(** How often the purchase pipeline was called. *)
Definition purchaseCalls (trace : list event) : nat :=
  length (List.filter isPurchaseGift trace).

(** The events of an attempt [j] whose purchase failed with [err]. *)
Definition failedAttempt (giftID : Z) (retryCount : Z) (j : nat)
  (err : Errors.error) : list event :=
  [EvTryIncrement true; EvPurchaseGift; EvDecrement;
   EvSend (failed giftID (Some err))]
  ++ (if Z.of_nat j <? retryCount - 1 then [EvSleep] else []).

(** Attempt [j] runs the pipeline and the pipeline fails with [errs j]. *)
Definition fails (answers : nat -> attempt) (errs : nat -> Errors.error)
  (j : nat) : Prop :=
  ctxDone (answers j) = None
  /\ tryIncrement (answers j) = true
  /\ purchase (answers j) = Some (errs j).

(** [lastErr] after [j] failed attempts. *)
Definition lastOf (errs : nat -> Errors.error) (j : nat)
  (lastErr : option Errors.error) : option Errors.error :=
  match j with
  | O => lastErr
  | S j' => Some (errs j')
  end.

(** A unit whose first attempt fails in the pipeline and whose second
    attempt finds the budget used up by other units. *)
Definition budget_runs_out (j : nat) : attempt :=
  {| ctxDone := None;
     tryIncrement := (j <? 1)%nat;
     purchase := Some "failed to send stars form: timeout"%string |}.

(** The request the example units work on. *)
Definition request : GiftTypes.GiftRequire :=
  {| GiftTypes.Gift := GiftValidator.scenario_gift;
     GiftTypes.ReceiverType := [0; 1];
     GiftTypes.CountForBuy := 3;
     GiftTypes.Hide := true |}.

(** A unit that is never cancelled and never refused, with a pipeline that
    fails every time. *)
Definition pipeline_always_fails (j : nat) : attempt :=
  {| ctxDone := None;
     tryIncrement := true;
     purchase := Some "failed to send stars form: timeout"%string |}.

(** An account that holds 10 stars, against a gift that costs 50. *)
Definition poor_account : PurchaseProcessor.remote :=
  {| PurchaseProcessor.apiPresent := true;
     PurchaseProcessor.starsStatus := Some 10;
     PurchaseProcessor.paymentFormAnswer :=
       inr (PurchaseProcessor.PaymentsPaymentFormStars 1);
     PurchaseProcessor.sendStarsAnswer := None |}.

(** A unit whose every attempt reaches the pipeline with that account. *)
Definition balance_never_suffices (j : nat) : attempt :=
  {| ctxDone := None;
     tryIncrement := true;
     purchase := PurchaseProcessor.PurchaseGift poor_account request |}.

(** *** A unit against the atomic counter

    The same loop with [gm.counter] the atomic counter of the process, when
    no other unit runs in between (the units of the prioritized mode run one
    after the other). *)

Fixpoint retryLoopOn (ctx purchases : nat -> option Errors.error)
  (giftID : Z) (retryCount : Z) (remaining : nat) (j : nat)
  (lastErr : option Errors.error) (ac : AtomicCounter.atomicCounter)
  : list event * AtomicCounter.atomicCounter :=
  match remaining with
  | O => ([EvSend (failed giftID lastErr)], ac)
  | S remaining' =>
      match ctx j with
      | Some ctxErr => ([EvSend (failed giftID (Some ctxErr))], ac)
      | None =>
          let '(ok, ac1) := AtomicCounter.TryIncrement ac in
          if negb ok
          then ([EvTryIncrement false;
                 EvSend (failed giftID (Some maxBuyCountReached))], ac1)
          else
            match purchases j with
            | Some err =>
                let '(rest, ac2) :=
                  retryLoopOn ctx purchases giftID retryCount remaining' (S j)
                    (Some err) (AtomicCounter.Decrement ac1) in
                (EvTryIncrement true :: EvPurchaseGift ::
                 EvDecrement :: EvSend (failed giftID (Some err)) ::
                 (if Z.of_nat j <? retryCount - 1 then [EvSleep] else [])
                 ++ rest, ac2)
            | None =>
                ([EvTryIncrement true; EvPurchaseGift;
                  EvSend (succeeded giftID)], ac1)
            end
      end
  end.

Definition buyGiftWithRetryOn (ctx purchases : nat -> option Errors.error)
  (gift : GiftTypes.GiftRequire) (retryCount : Z)
  (ac : AtomicCounter.atomicCounter)
  : list event * AtomicCounter.atomicCounter :=
  retryLoopOn ctx purchases (Tg.ID (GiftTypes.Gift gift)) retryCount
    (Z.to_nat retryCount) 0 None ac.

(** How many gifts a trace bought: its successful outcomes. *)
Definition purchased (trace : list event) : Z :=
  Z.of_nat (length (List.filter GiftTypes.Success (outcomes trace))).

(** Units run one after the other on the same counter, as
    [prioritizationBuy] runs them: each unit has its own context and
    pipeline answers. *)
Record unit_run : Type := mkUnit {
  unitCtx : nat -> option Errors.error;
  unitPurchases : nat -> option Errors.error;
  unitGift : GiftTypes.GiftRequire
}.

Fixpoint runUnits (units : list unit_run) (retryCount : Z)
  (ac : AtomicCounter.atomicCounter)
  : list (list event) * AtomicCounter.atomicCounter :=
  match units with
  | [] => ([], ac)
  | u :: rest =>
      let '(trace, ac1) :=
        buyGiftWithRetryOn (unitCtx u) (unitPurchases u) (unitGift u)
          retryCount ac in
      let '(traces, ac2) := runUnits rest retryCount ac1 in
      (trace :: traces, ac2)
  end.

(** The gifts bought by all the units together. *)
Definition totalPurchased (traces : list (list event)) : Z :=
  foldr (fun trace total => purchased trace + total) 0 traces.

(** *** What a unit does to the budget

    The reservations a unit takes ([TryIncrement] answered [true]) and the
    ones it gives back ([Decrement]). *)

Definition isReservation (e : event) : bool :=
  match e with
  | EvTryIncrement true => true
  | _ => false
  end.

Definition isRelease (e : event) : bool :=
  match e with
  | EvDecrement => true
  | _ => false
  end.

Definition reservations (trace : list event) : nat :=
  length (List.filter isReservation trace).

Definition releases (trace : list event) : nat :=
  length (List.filter isRelease trace).

(** *** Buying by priority *)

(** The order [sort.Slice] is asked for, with
    [gifts[i].Gift.Stars > gifts[j].Gift.Stars] as its [less]: no request
    stands before a more expensive one. *)
Definition byStars (a b : GiftTypes.GiftRequire) : Prop :=
  Tg.Stars (GiftTypes.Gift b) <= Tg.Stars (GiftTypes.Gift a).

(** [sort.Slice] rearranges the slice in place and is not stable: all that
    is known of the slice [sorted] it leaves is that it holds the same
    requests in the order asked for. *)
Definition sortSliceResult (gifts sorted : list GiftTypes.GiftRequire)
  : Prop :=
  sorted ≡ₚ gifts /\ StronglySorted byStars sorted.

(** The units of the two nested loops in the order they run:
    [for _, gift := range gifts { for i := int64(0); i < gift.CountForBuy; i++ }]. *)
Definition unitsOf (gifts : list GiftTypes.GiftRequire)
  : list GiftTypes.GiftRequire :=
  flat_map
    (fun gift => replicate (Z.to_nat (GiftTypes.CountForBuy gift)) gift)
    gifts.

Section Prioritization.

(** What [sort.Slice] leaves in the slice. *)
Variable sortSlice : list GiftTypes.GiftRequire -> list GiftTypes.GiftRequire.

(** [prioritizationBuy]: the units run one after the other on the counter;
    unit [k] finds the context answering [ctx k] and the pipeline answering
    [purchases k] at its attempts. *)
Definition prioritizationBuy (ctx purchases : nat -> nat -> option Errors.error)
  (gifts : list GiftTypes.GiftRequire) (retryCount : Z)
  (ac : AtomicCounter.atomicCounter)
  : list (list event) * AtomicCounter.atomicCounter :=
  runUnits
    (imap (fun k gift => mkUnit (ctx k) (purchases k) gift)
       (unitsOf (sortSlice gifts)))
    retryCount ac.

End Prioritization.

(** A unit whose pipeline fails and whose context is cancelled while it
    sleeps after its first attempt. *)
Definition cancelled_after_one (j : nat) : attempt :=
  {| ctxDone := if (j <? 1)%nat then None else Some "context canceled"%string;
     tryIncrement := true;
     purchase := Some "failed to send stars form: timeout"%string |}.

(** A second request, for a gift ten times as expensive, the slice the two
    come in, and a sort that [sort.Slice] may be: merge sort by price. *)
Definition dear_request : GiftTypes.GiftRequire :=
  {| GiftTypes.Gift := GiftValidator.unlimited_gift;
     GiftTypes.ReceiverType := [0];
     GiftTypes.CountForBuy := 2;
     GiftTypes.Hide := false |}.

Definition two_requests : list GiftTypes.GiftRequire :=
  [request; dear_request].

#[global] Instance byStars_dec a b : Decision (byStars a b).
Proof. unfold byStars. apply _. Defined.

Definition dearest_first (gifts : list GiftTypes.GiftRequire)
  : list GiftTypes.GiftRequire :=
  merge_sort byStars gifts.

End GiftBuyer.

(** ** Purchase reporting (giftBuyerMonitoring) *)

Module GiftBuyerMonitoring.
Local Open Scope Z_scope.

(** [giftTypes.GiftSummary]. *)
Record GiftSummary : Type := mkGiftSummary {
  GiftID : Z;
  Requested : Z;
  Success : Z
}.

(** What the aggregator does that others can see: the lines it logs and the
    status it hands to the notification service. *)
Inductive effect : Type :=
| LogInfo (message : string)
| LogError (message : string)
| SendBuyStatus (status : string) (err : option Errors.error).

(** [%d] of [fmt.Sprintf] on an [int64]. *)
Definition formatInt (z : Z) : string := pretty z.

(** The summaries [MonitorProcess] starts from: one per gift identifier, a
    later request for the same gift replacing the earlier one. *)
Definition newSummaries (gifts : list GiftTypes.GiftRequire)
  : gmap Z GiftSummary :=
  foldl
    (fun summaries require =>
       <[Tg.ID (GiftTypes.Gift require) :=
           {| GiftID := Tg.ID (GiftTypes.Gift require);
              Requested := GiftTypes.CountForBuy require;
              Success := 0 |}]> summaries)
    ∅ gifts.

(** [summaries[result.GiftID].Success++] on the summary found. *)
Definition incrementSuccess (summary : GiftSummary) : GiftSummary :=
  {| GiftID := GiftID summary;
     Requested := Requested summary;
     Success := Int64.add (Success summary) 1 |}.

(** [errorCounts[msg]++]: a missing key reads as zero. *)
Definition incrementError (msg : string) (errorCounts : gmap string Z)
  : gmap string Z :=
  <[msg := Int64.add (default 0 (errorCounts !! msg)) 1]> errorCounts.

(** The texts of the three statuses. *)
Definition boughtAll (totalSuccess : Z) : string :=
  "✅ Успешно куплено " ++ formatInt totalSuccess ++ " подарков".

Definition boughtSome (totalSuccess totalRequested : Z) : string :=
  "⚠️ Частично выполнено: " ++ formatInt totalSuccess ++ "/"
  ++ formatInt totalRequested ++ " подарков куплено".

Definition boughtNone (totalRequested : Z) : string :=
  "❌ Не удалось купить ни одного подарка из " ++ formatInt totalRequested.

Definition allPurchasesFailed : Errors.error :=
  Errors.New "все покупки неудачны".

(** The line logged for one summary when no bot is set. *)
Definition summaryLine (summary : GiftSummary) : effect :=
  if 0 <? Success summary
  then LogInfo ("Successfully bought " ++ formatInt (Success summary) ++ "/"
                ++ formatInt (Requested summary) ++ " x gift "
                ++ formatInt (GiftID summary))
  else LogError ("Failed to buy " ++ formatInt (Success summary) ++ "/"
                 ++ formatInt (Requested summary) ++ " x gift "
                 ++ formatInt (GiftID summary)).

Section Ranges.

(** Go fixes no order for ranging over a map: each of the three [range]
    loops gets the entries in an order of its own. *)
Variable rangeErrors : gmap string Z -> list (string * Z).
Variable rangeTotals rangeReport
  : gmap Z GiftSummary -> list (Z * GiftSummary).

(** The loop of [getMostFrequentError]: the pair
    [(mostFrequentError, maxCount)] after one more entry. *)
Definition moreFrequent (best entry : string * Z) : string * Z :=
  if best.2 <? entry.2 then entry else best.

Definition getMostFrequentError (errorCounts : gmap string Z)
  : option Errors.error :=
  if decide (size errorCounts = 0%nat) then None
  else Some (Errors.New
               (foldl moreFrequent (EmptyString, 0)
                  (rangeErrors errorCounts)).1).

(** The first loop of [sendNotify]: [(totalSuccess, totalRequested)]. *)
Definition totals (summaries : gmap Z GiftSummary) : Z * Z :=
  foldl
    (fun total entry =>
       (Int64.add total.1 (Success entry.2),
        Int64.add total.2 (Requested entry.2)))
    (0, 0) (rangeTotals summaries).

Definition sendNotify (setBot : bool) (summaries : gmap Z GiftSummary)
  (mostFrequentError : option Errors.error) : list effect :=
  let totalSuccess := (totals summaries).1 in
  let totalRequested := (totals summaries).2 in
  if setBot then
    if totalSuccess =? totalRequested
    then [SendBuyStatus (boughtAll totalSuccess) None]
    else if 0 <? totalSuccess
    then [SendBuyStatus (boughtSome totalSuccess totalRequested) None]
    else [SendBuyStatus (boughtNone totalRequested)
            (Some match mostFrequentError with
                  | Some errorToSend => errorToSend
                  | None => allPurchasesFailed
                  end)]
  else
    (if totalSuccess =? totalRequested
     then [LogInfo ("✅ Successfully bought all " ++ formatInt totalSuccess
                    ++ " gifts")]
     else if 0 <? totalSuccess
     then [LogInfo ("⚠️ Partially completed: " ++ formatInt totalSuccess
                    ++ "/" ++ formatInt totalRequested ++ " gifts bought")]
     else [LogError ("❌ Failed to buy any gifts out of "
                     ++ formatInt totalRequested ++ " requested")])
    ++ map (fun entry => summaryLine entry.2) (rangeReport summaries)
    ++ match mostFrequentError with
       | Some err => [LogError ("Most frequent error during purchase: " ++ err)]
       | None => []
       end.

(** What the [select] of [MonitorProcess] takes next. *)
Inductive selected : Type :=
| CtxDone
| DoneChan
| Result (result : GiftTypes.GiftResult)
| ResultsClosed.

(** How a run of [MonitorProcess] stands after the selections it was given:
    it has returned, it has panicked on the nil summary of a gift that was
    not requested, or it is back at the [select] with its two maps. *)
Inductive exit : Type :=
| Returned
| Panicked
| Waiting (summaries : gmap Z GiftSummary) (errorCounts : gmap string Z).

Fixpoint monitorLoop (setBot : bool) (selections : list selected)
  (summaries : gmap Z GiftSummary) (errorCounts : gmap string Z)
  : list effect * exit :=
  match selections with
  | [] => ([], Waiting summaries errorCounts)
  | CtxDone :: _ => ([], Returned)
  | DoneChan :: _ =>
      (sendNotify setBot summaries (getMostFrequentError errorCounts),
       Returned)
  | ResultsClosed :: _ => ([], Returned)
  | Result result :: rest =>
      if GiftTypes.Success result then
        match summaries !! GiftTypes.GiftID result with
        | None => ([], Panicked)
        | Some summary =>
            let '(effects, e) :=
              monitorLoop setBot rest
                (<[GiftTypes.GiftID result := incrementSuccess summary]>
                   summaries)
                errorCounts in
            (LogInfo ("Successfully purchased gift "
                      ++ formatInt (GiftTypes.GiftID result)) :: effects, e)
        end
      else
        match GiftTypes.Err result with
        | Some err =>
            let '(effects, e) :=
              monitorLoop setBot rest summaries
                (incrementError err errorCounts) in
            (LogError ("Failed to purchase gift "
                       ++ formatInt (GiftTypes.GiftID result) ++ ": " ++ err)
             :: effects, e)
        | None => monitorLoop setBot rest summaries errorCounts
        end
  end.

Definition MonitorProcess (setBot : bool) (selections : list selected)
  (gifts : list GiftTypes.GiftRequire) : list effect * exit :=
  monitorLoop setBot selections (newSummaries gifts) ∅.

End Ranges.

(** How many of the results are successes for the gift [id], and how many
    are failures with the error text [msg]. *)
Definition successesOf (id : Z) (results : list GiftTypes.GiftResult) : Z :=
  Z.of_nat
    (length
       (List.filter
          (fun r => GiftTypes.Success r && (GiftTypes.GiftID r =? id))
          results)).

Definition failuresWith (msg : string) (results : list GiftTypes.GiftResult)
  : Z :=
  Z.of_nat
    (length
       (List.filter
          (fun r =>
             negb (GiftTypes.Success r)
             && bool_decide (GiftTypes.Err r = Some msg))
          results)).

(** All the successes among the results. *)
Definition successCount (results : list GiftTypes.GiftResult) : Z :=
  Z.of_nat (length (List.filter GiftTypes.Success results)).

(** The copies asked for by a list of requests. *)
Definition requestedCount (gifts : list GiftTypes.GiftRequire) : Z :=
  foldr (fun require total => GiftTypes.CountForBuy require + total) 0 gifts.

(** The status [sendNotify] hands to a bot for the totals [s] and [r]. *)
Definition statusFor (s r : Z) (mostFrequentError : option Errors.error)
  : effect :=
  if s =? r then SendBuyStatus (boughtAll s) None
  else if 0 <? s then SendBuyStatus (boughtSome s r) None
  else SendBuyStatus (boughtNone r)
         (Some (default allPurchasesFailed mostFrequentError)).

(** The gift identifiers of a list of requests. *)
Definition giftIDs (gifts : list GiftTypes.GiftRequire) : list Z :=
  map (fun require => Tg.ID (GiftTypes.Gift require)) gifts.

(** The sum of one field over the entries of a range. *)
Definition sumOf (f : GiftSummary -> Z) (l : list (Z * GiftSummary)) : Z :=
  foldr (fun entry total => f entry.2 + total) 0 l.

(** No status is handed to the notification service. *)
Definition logsOnly (effects : list effect) : Prop :=
  Forall (fun eff => match eff with
                     | SendBuyStatus _ _ => False
                     | _ => True
                     end) effects.

(** A summary with [n] more successes. *)
Definition withSuccesses (n : Z) (summary : GiftSummary) : GiftSummary :=
  {| GiftID := GiftID summary;
     Requested := Requested summary;
     Success := Int64.wrap (Success summary + n) |}.

(** The results of a purchase of the two example requests: two successes,
    two failures by timeout and one failure without an error. *)
Definition mixed_results : list GiftTypes.GiftResult :=
  [GiftBuyer.failed 1 (Some "timeout"%string);
   GiftBuyer.succeeded 7;
   GiftBuyer.succeeded 1;
   GiftBuyer.failed 7 None;
   GiftBuyer.failed 1 (Some "timeout"%string)].

(** Three units, for the dear gift, the other gift and the dear gift again,
    with a pipeline that answers at once. *)
Definition three_units : list GiftBuyer.unit_run :=
  [GiftBuyer.mkUnit (fun _ => None) (fun _ => None) GiftBuyer.dear_request;
   GiftBuyer.mkUnit (fun _ => None) (fun _ => None) GiftBuyer.request;
   GiftBuyer.mkUnit (fun _ => None) (fun _ => None) GiftBuyer.dear_request].

(** The orders in which the map implementation of this development lists
    its entries. *)
Definition listedErrors (errorCounts : gmap string Z) : list (string * Z) :=
  map_to_list errorCounts.

Definition listedSummaries (summaries : gmap Z GiftSummary)
  : list (Z * GiftSummary) :=
  map_to_list summaries.

End GiftBuyerMonitoring.

(** ** Invoices (invoiceCreator, idCache, utils) *)

Module InvoiceCreator.
Local Open Scope Z_scope.

(** Modelled from the spec: [tg.User], [tg.Channel], [tg.InputPeerClass] and
    [tg.InputInvoiceStarGift] belong to the gotd library, which is not among
    the sources. These are the fields the invoice creator reads and
    writes. *)
Record User : Type := mkUser { UserID : Z; UserAccessHash : Z }.

Record Channel : Type := mkChannel { ChannelID : Z; ChannelAccessHash : Z }.

Inductive InputPeer : Type :=
| InputPeerSelf
| InputPeerUser (userID accessHash : Z)
| InputPeerChannel (channelID accessHash : Z).

Record InputInvoiceStarGift : Type := mkInvoice {
  Peer : InputPeer;
  GiftID : Z;
  HideName : bool;
  Message : string
}.

(** [idCacheImpl]: the two maps; the mutex is left out. *)
Record idCacheImpl : Type := mkIDCache {
  users : gmap string User;
  channels : gmap string Channel
}.

Definition NewIDCache : idCacheImpl := {| users := ∅; channels := ∅ |}.

(** [SetUser] and [SetChannel] ignore a nil pointer. *)
Definition SetUser (c : idCacheImpl) (key : string) (user : option User)
  : idCacheImpl :=
  match user with
  | None => c
  | Some u => {| users := <[key := u]> (users c); channels := channels c |}
  end.

Definition GetUser (c : idCacheImpl) (key : string) : Errors.error + User :=
  match users c !! key with
  | Some user => inr user
  | None => inl (Errors.New "user not found")
  end.

Definition SetChannel (c : idCacheImpl) (key : string)
  (channel : option Channel) : idCacheImpl :=
  match channel with
  | None => c
  | Some ch => {| users := users c; channels := <[key := ch]> (channels c) |}
  end.

Definition GetChannel (c : idCacheImpl) (key : string)
  : Errors.error + Channel :=
  match channels c !! key with
  | Some channel => inr channel
  | None => inl (Errors.New "channel not found")
  end.

(** [utils.SelectRandomElementFast]: the zero value of an empty slice,
    otherwise the element at [fastRand.Intn(len(slice))]; [rand] is what the
    generator draws, brought into range. *)
Definition SelectRandomElementFast {A : Type} (zero : A) (slice : list A)
  (rand : nat) : A :=
  match slice with
  | [] => zero
  | _ => default zero (slice !! (rand mod length slice)%nat)
  end.

Record InvoiceCreatorImpl : Type := mkInvoiceCreator {
  userReceiver : list string;
  channelReceiver : list string;
  idCache : idCacheImpl
}.

(** What one call draws: the index of the receiver type, the index of the
    receiver, and the text of the message (a random string, the clock and
    a UUID). *)
Record draws : Type := mkDraws {
  typeDraw : nat;
  receiverDraw : nat;
  messageText : string
}.

Definition convertChannelID (channelID : Z) : Z :=
  if channelID <? -1000000000000
  then Int64.wrap (Int64.wrap (- channelID) - 1000000000000)
  else channelID.

Definition getChannelInfo (ic : InvoiceCreatorImpl) (channelID : string)
  : Errors.error + Channel :=
  match GetChannel (idCache ic) channelID with
  | inr channel => inr channel
  | inl _ => inl (Errors.New "channel not found")
  end.

Definition getUserInfo (ic : InvoiceCreatorImpl) (userID : string)
  : Errors.error + User :=
  match GetUser (idCache ic) userID with
  | inr user => inr user
  | inl _ =>
      inl (Errors.New
             ("user " ++ userID
              ++ " not accessible: session hasn't met this user. See logs for solutions."))
  end.

Definition selfPurchase (gift : GiftTypes.GiftRequire) (d : draws)
  : Errors.error + InputInvoiceStarGift :=
  inr {| Peer := InputPeerSelf;
         GiftID := Tg.ID (GiftTypes.Gift gift);
         HideName := GiftTypes.Hide gift;
         Message := messageText d |}.

Definition userPurchase (ic : InvoiceCreatorImpl)
  (gift : GiftTypes.GiftRequire) (d : draws)
  : Errors.error + InputInvoiceStarGift :=
  match getUserInfo ic
          (SelectRandomElementFast EmptyString (userReceiver ic)
             (receiverDraw d)) with
  | inl err =>
      inl (Errors.Wrap err "cannot create invoice without user access hash")
  | inr userInfo =>
      inr {| Peer := InputPeerUser (UserID userInfo) (UserAccessHash userInfo);
             GiftID := Tg.ID (GiftTypes.Gift gift);
             HideName := GiftTypes.Hide gift;
             Message := messageText d |}
  end.

Definition channelPurchase (ic : InvoiceCreatorImpl)
  (gift : GiftTypes.GiftRequire) (d : draws)
  : Errors.error + InputInvoiceStarGift :=
  match getChannelInfo ic
          (SelectRandomElementFast EmptyString (channelReceiver ic)
             (receiverDraw d)) with
  | inl err =>
      inl (Errors.Wrap err "cannot create invoice without channel access hash")
  | inr channelInfo =>
      inr {| Peer := InputPeerChannel (convertChannelID (ChannelID channelInfo))
                       (ChannelAccessHash channelInfo);
             GiftID := Tg.ID (GiftTypes.Gift gift);
             HideName := GiftTypes.Hide gift;
             Message := messageText d |}
  end.

Definition CreateInvoice (ic : InvoiceCreatorImpl)
  (gift : GiftTypes.GiftRequire) (d : draws)
  : Errors.error + InputInvoiceStarGift :=
  let randReceiverType :=
    SelectRandomElementFast 0 (GiftTypes.ReceiverType gift) (typeDraw d) in
  if randReceiverType =? 0 then selfPurchase gift d
  else if randReceiverType =? 1 then userPurchase ic gift d
  else if randReceiverType =? 2 then channelPurchase ic gift d
  else inl (Errors.Wrap (Errors.New "unexpected receiver type")
              ("unexpected receiver type: " ++ pretty randReceiverType)).

(** The receivers a creator may draw from a list: its elements, or the empty
    string when the list is empty. *)
Definition drawable (receivers : list string) (key : string) : Prop :=
  key ∈ receivers \/ (receivers = [] /\ key = EmptyString).

(** Example input: a creator that knows one user and one channel, the
    channel under its marked identifier. *)
Definition known_receivers : InvoiceCreatorImpl :=
  {| userReceiver := ["alice"%string];
     channelReceiver := ["news"%string];
     idCache :=
       SetChannel
         (SetUser NewIDCache "alice" (Some {| UserID := 42; UserAccessHash := 7 |}))
         "news"
         (Some {| ChannelID := -1001234567890; ChannelAccessHash := 9 |}) |}.

End InvoiceCreator.

(** ** Rate limiter *)

Module RateLimiter.
Local Open Scope Z_scope.

(** A Go call either returns or panics with a runtime message. *)
Inductive result (A : Type) : Type :=
| Returns (a : A)
| Panics (msg : string).

Arguments Returns {A} a.

Arguments Panics {A} msg.

(** A panic cuts the rest of the function short. *)
#[global] Instance result_bind : MBind result :=
  fun A B (k : A -> result B) (r : result A) =>
    match r with
    | Returns a => k a
    | Panics msg => Panics msg
    end.

(** [time.Duration] in nanoseconds. *)
Definition Second : Z := 1000000000.

Definition Hour : Z := 3600 * Second.

(** [time.NewTicker(d)]: the ticker's period; it panics unless [d > 0]. *)
Definition NewTicker (d : Z) : result Z :=
  if d <=? 0 then Panics "non-positive interval for NewTicker"
  else Returns d.

(** [make(chan struct{}, size)]: the capacity of the new, empty channel; the
    runtime panics on a negative size. *)
Definition makeChan (size : Z) : result Z :=
  if size <? 0 then Panics "makechan: size out of range"
  else Returns size.

(** The limiter: [tokens] counts the permits buffered in the channel, whose
    capacity is [capacity]; [refilling] records that the [refillTokens]
    goroutine was started. *)
Record rateLimiterImpl : Type := mkLimiter {
  tokens : Z;
  capacity : Z;
  period : Z;
  maxTokens : Z;
  closed : bool;
  refilling : bool
}.

(** The [for i := 0; i < rps; i++ { rl.tokens <- struct{}{} }] loop on a
    channel that holds [held] tokens: [fuel] bounds the passes. A send on a
    full channel would block for ever; the loop never meets one because the
    capacity is [rps]. *)
Fixpoint fillTokens (fuel : nat) (i rps held : Z) : Z :=
  match fuel with
  | O => held
  | S fuel' => if i <? rps then fillTokens fuel' (i + 1) rps (held + 1) else held
  end.

Definition NewRateLimiter (rps : Z) : result rateLimiterImpl :=
  ticker ← (if rps >? 0 then NewTicker (Second ÷ rps) else NewTicker Hour);
  chanCap ← makeChan rps;
  Returns {| tokens := fillTokens (Z.to_nat rps) 0 rps 0;
             capacity := chanCap;
             period := ticker;
             maxTokens := rps;
             closed := false;
             refilling := rps >? 0 |}.

(** One pass of the [for range rl.ticker.C] loop of [refillTokens]; it only
    runs when the goroutine was started. *)
Definition refillTick (rl : rateLimiterImpl) : rateLimiterImpl :=
  if negb (refilling rl) then rl
  else if closed rl then
    {| tokens := tokens rl; capacity := capacity rl; period := period rl;
       maxTokens := maxTokens rl; closed := closed rl; refilling := false |}
  else if tokens rl <? capacity rl then
    {| tokens := tokens rl + 1; capacity := capacity rl; period := period rl;
       maxTokens := maxTokens rl; closed := closed rl;
       refilling := refilling rl |}
  else rl.

Definition Close (rl : rateLimiterImpl) : rateLimiterImpl :=
  if negb (closed rl) then
    {| tokens := tokens rl; capacity := capacity rl; period := period rl;
       maxTokens := maxTokens rl; closed := true; refilling := refilling rl |}
  else rl.

(** [Acquire]'s [select]: what it can do in a state of the limiter and of
    the context ([Some err] when [ctx.Done()] is closed, [err] being
    [ctx.Err()]). *)
Inductive acquired : Type :=
| Permit (rl' : rateLimiterImpl)
| ContextError (err : Errors.error)
| Blocked.

Definition takeToken (rl : rateLimiterImpl) : rateLimiterImpl :=
  {| tokens := tokens rl - 1; capacity := capacity rl; period := period rl;
     maxTokens := maxTokens rl; closed := closed rl;
     refilling := refilling rl |}.

Inductive Acquire (rl : rateLimiterImpl) (ctx : option Errors.error)
  : acquired -> Prop :=
| Acquire_token : 0 < tokens rl -> Acquire rl ctx (Permit (takeToken rl))
| Acquire_done err : ctx = Some err -> Acquire rl ctx (ContextError err)
| Acquire_blocked : tokens rl <= 0 -> ctx = None -> Acquire rl ctx Blocked.

(** The limiter after the environment has let time pass and called [Close]:
    [true] is a tick of the ticker, [false] a call of [Close]. *)
Fixpoint elapse (rl : rateLimiterImpl) (steps : list bool) : rateLimiterImpl :=
  match steps with
  | [] => rl
  | true :: rest => elapse (refillTick rl) rest
  | false :: rest => elapse (Close rl) rest
  end.

(** *** A limiter over time *)

(** What happens to a limiter: a tick received by [refillTokens], a call of
    [Close], and a call of [Acquire] with what its [select] did. *)
Inductive limiterEvent : Type :=
| Ticked
| Closed
| Acquired (ctx : option Errors.error) (out : acquired).

Definition afterAcquire (rl : rateLimiterImpl) (out : acquired)
  : rateLimiterImpl :=
  match out with
  | Permit rl' => rl'
  | ContextError _ => rl
  | Blocked => rl
  end.

Inductive runs : rateLimiterImpl -> list limiterEvent -> rateLimiterImpl -> Prop :=
| runs_nil rl : runs rl [] rl
| runs_tick rl events rl' :
    runs (refillTick rl) events rl' -> runs rl (Ticked :: events) rl'
| runs_close rl events rl' :
    runs (Close rl) events rl' -> runs rl (Closed :: events) rl'
| runs_acquire rl ctx out events rl' :
    Acquire rl ctx out ->
    runs (afterAcquire rl out) events rl' ->
    runs rl (Acquired ctx out :: events) rl'.

(** The permits granted and the ticks received during a run. *)
Fixpoint permits (events : list limiterEvent) : Z :=
  match events with
  | [] => 0
  | Acquired _ (Permit _) :: rest => 1 + permits rest
  | _ :: rest => permits rest
  end.

Fixpoint ticks (events : list limiterEvent) : Z :=
  match events with
  | [] => 0
  | Ticked :: rest => 1 + ticks rest
  | _ :: rest => ticks rest
  end.

(** A limiter of two requests per second, as [NewRateLimiter 2] builds it. *)
Definition two_per_second : rateLimiterImpl :=
  {| tokens := 2; capacity := 2; period := Second ÷ 2; maxTokens := 2;
     closed := false; refilling := true |}.

End RateLimiter.

(** * Part II: its properties *)

(** ** Properties: Machine integers *)

Module Int64Facts.
Import Int64.
Local Open Scope Z_scope.

Lemma wrap_in_range z : in_range (wrap z).
Proof.
  unfold in_range, wrap, min_int, max_int.
  pose proof (Z.mod_pos_bound (z + 2 ^ 63) (2 ^ 64) ltac:(lia)). lia.
Qed.

Lemma wrap_id z : in_range z -> wrap z = z.
Proof.
  unfold in_range, wrap, min_int, max_int. intros H.
  rewrite Z.mod_small; lia.
Qed.

Lemma wrap_below z : - 2 ^ 64 <= z - min_int < 0 -> wrap z = z + 2 ^ 64.
Proof.
  unfold wrap, min_int. intros H.
  replace (z + 2 ^ 63) with ((z + 2 ^ 63 + 2 ^ 64) + (-1) * 2 ^ 64) by lia.
  rewrite Z.mod_add by lia. rewrite Z.mod_small; lia.
Qed.

Lemma wrap_wrap_add a b : wrap (wrap a + b) = wrap (a + b).
Proof.
  unfold wrap. f_equal.
  replace ((a + 2 ^ 63) mod 2 ^ 64 - 2 ^ 63 + b + 2 ^ 63)
    with ((a + 2 ^ 63) mod 2 ^ 64 + b) by lia.
  rewrite Zplus_mod_idemp_l. f_equal. lia.
Qed.

End Int64Facts.

(** ** Properties: Budget counter (atomicCounter) *)

Module AtomicCounterFacts.
Import AtomicCounter.
Local Open Scope Z_scope.

(** *** Single calls *)

Lemma TryIncrement_below ac :
  max ac <= Int64.max_int -> Int64.min_int <= count ac < max ac ->
  TryIncrement ac = (true, {| count := count ac + 1; max := max ac |}).
Proof.
  intros Hmax Hlt.
  unfold TryIncrement, TryIncrement_loop, TryIncrement_body,
    CompareAndSwapInt64, LoadInt64.
  destruct (Z.geb_spec (count ac) (max ac)) as [Hge|_]; [lia|].
  rewrite Z.eqb_refl. unfold Int64.add.
  rewrite Int64Facts.wrap_id; [reflexivity|].
  unfold Int64.in_range. lia.
Qed.

Lemma TryIncrement_at_ceiling ac :
  max ac <= count ac -> TryIncrement ac = (false, ac).
Proof.
  intros Hge.
  unfold TryIncrement, TryIncrement_loop, TryIncrement_body, LoadInt64.
  destruct (Z.geb_spec (count ac) (max ac)) as [_|Hlt]; [reflexivity|lia].
Qed.

(** The loop of the source, run without interference, returns on its first
    pass whatever fuel it is given. *)
Lemma TryIncrement_loop_returns fuel ac :
  TryIncrement_loop (S fuel) ac = Some (TryIncrement ac).
Proof.
  unfold TryIncrement. simpl. unfold TryIncrement_body, CompareAndSwapInt64, LoadInt64.
  destruct (count ac >=? max ac); [reflexivity|].
  rewrite Z.eqb_refl. reflexivity.
Qed.

Lemma Decrement_count ac :
  Int64.min_int < count ac -> Int64.in_range (count ac) ->
  Decrement ac = {| count := count ac - 1; max := max ac |}.
Proof.
  intros Hlo Hr. unfold Decrement, AddInt64, Int64.add.
  rewrite Int64Facts.wrap_id; [f_equal|]. unfold Int64.in_range in *. lia.
Qed.

(** *** Sequences of calls *)

Lemma successes_cons b bs :
  successes (b :: bs) = ((if b then 1 else 0) + successes bs)%nat.
Proof. destruct b; reflexivity. Qed.

Lemma run_replicate_TryIncrement n ac :
  max ac <= Int64.max_int -> Int64.min_int <= count ac <= max ac ->
  successes (run (replicate n OpTryIncrement) ac).1
    = Nat.min n (Z.to_nat (max ac - count ac)).
Proof.
  revert ac. induction n as [|n IH]; intros ac Hmax Hc; [reflexivity|].
  cbn [replicate run].
  destruct (Z_lt_ge_dec (count ac) (max ac)) as [Hlt|Hge].
  - rewrite TryIncrement_below by lia.
    specialize (IH {| count := count ac + 1; max := max ac |}).
    cbn [count max] in IH.
    destruct (run (replicate n OpTryIncrement) _) as [bs ac''].
    cbn [fst] in *. rewrite successes_cons, IH by lia. lia.
  - rewrite TryIncrement_at_ceiling by lia.
    specialize (IH ac Hmax Hc).
    destruct (run (replicate n OpTryIncrement) ac) as [bs ac''].
    cbn [fst] in *. rewrite successes_cons, IH. lia.
Qed.

Lemma run_ceiling ops ac :
  max ac <= Int64.max_int -> Int64.min_int <= count ac <= max ac ->
  Z.of_nat (decrements ops) <= count ac - Int64.min_int ->
  count (run ops ac).2 <= max (run ops ac).2 /\ max (run ops ac).2 = max ac.
Proof.
  revert ac. induction ops as [|[|] ops IH]; intros ac Hmax Hc Hd.
  - simpl. lia.
  - assert (Hd' : decrements (OpTryIncrement :: ops) = decrements ops).
    { unfold decrements. rewrite filter_cons. case_decide; [congruence|reflexivity]. }
    rewrite Hd' in Hd. simpl.
    destruct (Z_lt_ge_dec (count ac) (max ac)) as [Hlt|Hge].
    + rewrite TryIncrement_below by lia.
      specialize (IH {| count := count ac + 1; max := max ac |}). simpl in IH.
      destruct (run ops _) as [bs ac'']. simpl in *. apply IH; lia.
    + rewrite TryIncrement_at_ceiling by lia.
      specialize (IH ac Hmax Hc Hd).
      destruct (run ops ac) as [bs ac'']. simpl in *. exact IH.
  - assert (Hd' : decrements (OpDecrement :: ops) = S (decrements ops)).
    { unfold decrements. rewrite filter_cons. case_decide; [reflexivity|congruence]. }
    rewrite Hd' in Hd. simpl.
    rewrite Decrement_count; [| lia | unfold Int64.in_range; lia].
    specialize (IH {| count := count ac - 1; max := max ac |}). simpl in IH.
    apply IH; lia.
Qed.

Lemma run_replicate_Decrement n ac :
  Int64.in_range (count ac) ->
  run (replicate n OpDecrement) ac
  = ([], {| count := Int64.wrap (count ac - Z.of_nat n); max := max ac |}).
Proof.
  revert ac. induction n as [|n IH]; intros ac Hr.
  - cbn [replicate run]. rewrite Z.sub_0_r, Int64Facts.wrap_id by exact Hr.
    destruct ac; reflexivity.
  - cbn [replicate run]. rewrite IH.
    + unfold Decrement, AddInt64, Int64.add. cbn [count max]. do 2 f_equal.
      replace (count ac - Z.of_nat (S n)) with (count ac + -1 + - Z.of_nat n) by lia.
      apply Int64Facts.wrap_wrap_add.
    + apply Int64Facts.wrap_in_range.
Qed.

(** C1 (as the code has it). For a counter built with ceiling [C], [0 <= C]:
    [TryIncrement] returns [true] and adds one exactly when the value is
    strictly below [C], and otherwise returns [false] and leaves the counter
    as it is; [N] calls in a row on the fresh counter succeed exactly
    [min N C] times; and after any sequence of calls that holds at most
    [2^63] [Decrement]s the value is at most [C]. *)
Theorem C1_counter_respects_ceiling (C : Z) :
  0 <= C <= Int64.max_int ->
  (forall ac, max ac = C -> Int64.in_range (count ac) ->
     TryIncrement ac =
       if count ac <? C
       then (true, {| count := count ac + 1; max := C |})
       else (false, ac))
  /\ (forall N : nat,
        successes (run (replicate N OpTryIncrement) (NewAtomicCounter C)).1
        = Nat.min N (Z.to_nat C))
  /\ (forall ops : list op,
        Z.of_nat (decrements ops) <= 2 ^ 63 ->
        Get (run ops (NewAtomicCounter C)).2 <= C).
Proof.
  intros HC. split; [|split].
  - intros ac Hm [Hlo Hhi].
    destruct (Z.ltb_spec (count ac) C) as [Hlt|Hge].
    + rewrite TryIncrement_below by lia. rewrite Hm. reflexivity.
    + apply TryIncrement_at_ceiling. lia.
  - intros N. rewrite run_replicate_TryIncrement.
    + cbn [NewAtomicCounter count max]. rewrite Z.sub_0_r. reflexivity.
    + cbn [NewAtomicCounter max]. lia.
    + cbn [NewAtomicCounter count max]. unfold Int64.min_int. lia.
  - intros ops Hd. unfold Get, LoadInt64.
    destruct (run_ceiling ops (NewAtomicCounter C)) as [Hle Hmax].
    + cbn [NewAtomicCounter max]. lia.
    + cbn [NewAtomicCounter count max]. unfold Int64.min_int. lia.
    + cbn [NewAtomicCounter count]. unfold Int64.min_int. lia.
    + rewrite Hmax in Hle. exact Hle.
Qed.

Lemma C1_counter_respects_ceiling_witness :
  TryIncrement {| count := 1; max := 2 |} = (true, {| count := 2; max := 2 |})
  /\ TryIncrement {| count := 2; max := 2 |} = (false, {| count := 2; max := 2 |})
  /\ successes (run (replicate 5 OpTryIncrement) (NewAtomicCounter 2)).1 = 2%nat
  /\ Get (run [OpTryIncrement; OpDecrement; OpDecrement; OpTryIncrement]
            (NewAtomicCounter 2)).2 <= 2.
Proof.
  assert (H2 : 0 <= 2 <= Int64.max_int) by (unfold Int64.max_int; lia).
  destruct (C1_counter_respects_ceiling 2 H2) as (Hone & Hmany & Hany).
  split; [|split; [|split]].
  - apply (Hone {| count := 1; max := 2 |}); [reflexivity|].
    unfold Int64.in_range, Int64.min_int, Int64.max_int. simpl. lia.
  - apply (Hone {| count := 2; max := 2 |}); [reflexivity|].
    unfold Int64.in_range, Int64.min_int, Int64.max_int. simpl. lia.
  - apply (Hmany 5%nat).
  - apply Hany. vm_compute. discriminate.
Defined.

(** C1, the part that fails as stated: the value is an [int64], so
    [2^63 + 1] calls of [Decrement] on a fresh counter of ceiling [0] wrap it
    round to the largest [int64], far above the ceiling. *)
Lemma C1_counterexample_decrement_wraps :
  Get (run (replicate (Z.to_nat (2 ^ 63 + 1)) OpDecrement)
         (NewAtomicCounter 0)).2 = 9223372036854775807
  /\ ~ Get (run (replicate (Z.to_nat (2 ^ 63 + 1)) OpDecrement)
             (NewAtomicCounter 0)).2 <= 0.
Proof.
  assert (E : Get (run (replicate (Z.to_nat (2 ^ 63 + 1)) OpDecrement)
                     (NewAtomicCounter 0)).2 = 9223372036854775807).
  { rewrite run_replicate_Decrement.
    - unfold Get, LoadInt64. cbn [snd count NewAtomicCounter].
      rewrite Z2Nat.id by lia. reflexivity.
    - cbn [NewAtomicCounter count].
      unfold Int64.in_range, Int64.min_int, Int64.max_int. lia. }
  split; [exact E|]. rewrite E. lia.
Qed.

Lemma sum_list_with_insert {A} (f : A -> nat) (l : list A) i x y :
  l !! i = Some x ->
  (sum_list_with f (<[i := y]> l) + f x = sum_list_with f l + f y)%nat.
Proof.
  revert i. induction l as [|a l IH]; intros [|i] Hi; try discriminate.
  - injection Hi as ->. simpl. lia.
  - simpl in Hi |- *. specialize (IH i Hi). lia.
Qed.

Lemma poolStep_safe C st i :
  0 <= C <= Int64.max_int -> safe C st -> safe C (poolStep st i).
Proof.
  intros HC. destruct st as [pool ac]. unfold safe, poolStep. cbn [fst snd].
  intros (Hmax & Hle & Hlo & Hall).
  destruct (pool !! i) as [t|] eqn:Hi; [|cbn [fst snd]; auto].
  pose proof (sum_list_with_insert pendingDecrement pool i t) as Hsum.
  assert (Ht : match t with
               | Loaded current => Int64.min_int <= current < C
               | _ => True
               end).
  { rewrite Forall_forall in Hall. apply Hall.
    apply list_elem_of_lookup. exists i. exact Hi. }
  destruct t as [[|]|current|r]; cbn [threadStep].
  - unfold LoadInt64. destruct (Z.geb_spec (count ac) (max ac)) as [Hge|Hlt];
      cbn [fst snd].
    + specialize (Hsum (Finished (Some false)) Hi).
      cbn [pendingDecrement] in Hsum.
      split; [exact Hmax|]. split; [exact Hle|]. split; [lia|].
      apply Forall_insert; [exact Hall|exact I].
    + specialize (Hsum (Loaded (count ac)) Hi).
      cbn [pendingDecrement] in Hsum.
      split; [exact Hmax|]. split; [exact Hle|]. split; [lia|].
      apply Forall_insert; [exact Hall|lia].
  - specialize (Hsum (Finished None) Hi). cbn [pendingDecrement] in Hsum.
    rewrite Decrement_count by (unfold Int64.in_range; lia).
    cbn [fst snd count max]. split; [exact Hmax|]. split; [lia|].
    split; [lia|]. apply Forall_insert; [exact Hall|exact I].
  - unfold CompareAndSwapInt64.
    destruct (Z.eqb_spec (count ac) current) as [Heq|Hne]; cbn [fst snd].
    + specialize (Hsum (Finished (Some true)) Hi).
      cbn [pendingDecrement] in Hsum. cbn [count max]. unfold Int64.add.
      rewrite Int64Facts.wrap_id by (unfold Int64.in_range; lia).
      split; [exact Hmax|]. split; [lia|]. split; [lia|].
      apply Forall_insert; [exact Hall|exact I].
    + specialize (Hsum (Ready OpTryIncrement) Hi).
      cbn [pendingDecrement] in Hsum.
      split; [exact Hmax|]. split; [exact Hle|]. split; [lia|].
      apply Forall_insert; [exact Hall|exact I].
  - cbn [fst snd]. rewrite list_insert_id by exact Hi. auto.
Qed.

Lemma interleave_safe C schedule st :
  0 <= C <= Int64.max_int -> safe C st -> safe C (interleave schedule st).
Proof.
  intros HC. revert st. unfold interleave.
  induction schedule as [|i schedule IH]; intros st Hsafe; [exact Hsafe|].
  cbn [foldl]. apply IH, poolStep_safe; assumption.
Qed.

Lemma sum_pendingDecrement_calls calls :
  sum_list_with pendingDecrement (Ready <$> calls) = decrements calls.
Proof.
  induction calls as [|[|] calls IH]; [reflexivity| |].
  - change (sum_list_with pendingDecrement (Ready <$> calls) = decrements calls).
    exact IH.
  - change (S (sum_list_with pendingDecrement (Ready <$> calls))
            = S (decrements calls)).
    rewrite IH. reflexivity.
Qed.

(** X1. Under every interleaving of concurrent calls that hold at most
    [2^63] [Decrement]s, the value of a fresh counter stays at or below its
    ceiling. *)
Theorem interleaved_calls_respect_ceiling C calls schedule :
  0 <= C <= Int64.max_int ->
  Z.of_nat (decrements calls) <= 2 ^ 63 ->
  Get (interleave schedule (Ready <$> calls, NewAtomicCounter C)).2 <= C.
Proof.
  intros HC Hd.
  destruct (interleave_safe C schedule (Ready <$> calls, NewAtomicCounter C) HC)
    as (_ & Hle & _).
  - unfold safe. cbn [fst snd NewAtomicCounter count max].
    rewrite sum_pendingDecrement_calls. unfold Int64.min_int.
    split; [reflexivity|]. split; [lia|]. split; [lia|].
    apply Forall_fmap, Forall_true. intros o. exact I.
  - exact Hle.
Qed.

Lemma poolStep_tallied C st i :
  0 <= C <= Int64.max_int -> tallied C st -> tallied C (poolStep st i).
Proof.
  intros HC. destruct st as [pool ac]. unfold tallied, poolStep. cbn [fst snd].
  intros (Hmax & Hcount & Hle & Hfalse & Hall).
  destruct (pool !! i) as [t|] eqn:Hi; [|cbn [fst snd]; auto].
  pose proof (sum_list_with_insert (returned true) pool i t) as Htrue.
  pose proof (sum_list_with_insert (returned false) pool i t) as Hfls.
  assert (Ht : incrementing t
               /\ match t with
                  | Loaded current => current < C
                  | _ => True
                  end).
  { rewrite Forall_forall in Hall. apply Hall.
    apply list_elem_of_lookup. exists i. exact Hi. }
  destruct t as [[|]|current|r]; cbn [threadStep].
  - unfold LoadInt64. destruct (Z.geb_spec (count ac) (max ac)) as [Hge|Hlt];
      cbn [fst snd].
    + specialize (Htrue (Finished (Some false)) Hi).
      specialize (Hfls (Finished (Some false)) Hi).
      cbn in Htrue, Hfls.
      split; [exact Hmax|]. split; [lia|]. split; [exact Hle|].
      split; [lia|]. apply Forall_insert; [exact Hall|split; exact I].
    + specialize (Htrue (Loaded (count ac)) Hi).
      specialize (Hfls (Loaded (count ac)) Hi).
      cbn in Htrue, Hfls.
      split; [exact Hmax|]. split; [lia|]. split; [exact Hle|].
      split; [intros Hpos; apply Hfalse; lia|].
      apply Forall_insert; [exact Hall|split; [exact I|lia]].
  - destruct Ht as [[] _].
  - unfold CompareAndSwapInt64.
    destruct (Z.eqb_spec (count ac) current) as [Heq|Hne]; cbn [fst snd].
    + specialize (Htrue (Finished (Some true)) Hi).
      specialize (Hfls (Finished (Some true)) Hi).
      cbn in Htrue, Hfls. cbn [count max]. unfold Int64.add.
      rewrite Int64Facts.wrap_id
        by (unfold Int64.in_range, Int64.min_int, Int64.max_int in *; lia).
      split; [exact Hmax|]. split; [lia|]. split; [lia|].
      split; [intros Hpos; assert (count ac = C) by (apply Hfalse; lia); lia|].
      apply Forall_insert; [exact Hall|split; exact I].
    + specialize (Htrue (Ready OpTryIncrement) Hi).
      specialize (Hfls (Ready OpTryIncrement) Hi).
      cbn in Htrue, Hfls.
      split; [exact Hmax|]. split; [lia|]. split; [exact Hle|].
      split; [intros Hpos; apply Hfalse; lia|].
      apply Forall_insert; [exact Hall|split; exact I].
  - cbn [fst snd]. rewrite list_insert_id by exact Hi. auto 6.
Qed.

Lemma interleave_tallied C schedule st :
  0 <= C <= Int64.max_int -> tallied C st -> tallied C (interleave schedule st).
Proof.
  intros HC. revert st. unfold interleave.
  induction schedule as [|i schedule IH]; intros st Htal; [exact Htal|].
  cbn [foldl]. apply IH, poolStep_tallied; assumption.
Qed.

Lemma interleave_length schedule st :
  length (interleave schedule st).1 = length st.1.
Proof.
  revert st. unfold interleave.
  induction schedule as [|i schedule IH]; intros st; [reflexivity|].
  cbn [foldl]. rewrite IH. unfold poolStep.
  destruct (st.1 !! i) as [t|]; [|reflexivity].
  destruct (threadStep t st.2) as [t' ac']. cbn [fst]. apply length_insert.
Qed.

Lemma finished_incrementers_split pool :
  Forall finished pool -> Forall incrementing pool ->
  (sum_list_with (returned true) pool + sum_list_with (returned false) pool
   = length pool)%nat.
Proof.
  induction pool as [|t pool IH]; intros Hfin Hinc; [reflexivity|].
  inversion Hfin as [|? ? Ht Hfin']; inversion Hinc as [|? ? Hi Hinc']; subst.
  specialize (IH Hfin' Hinc').
  destruct t as [o|current|[[|]|]]; cbn in Ht, Hi |- *; try contradiction; lia.
Qed.

(** Three callers against ceiling 2: the first two load 0, the first swaps,
    the second loses its swap, loads again and swaps, the third is refused. *)
Example interleaving_with_lost_swap :
  interleave [0; 1; 0; 1; 1; 1; 2]%nat
    (replicate 3 (Ready OpTryIncrement), NewAtomicCounter 2)
  = ([Finished (Some true); Finished (Some true); Finished (Some false)],
     {| count := 2; max := 2 |}).
Proof. vm_compute. reflexivity. Qed.

Lemma returned_none_yet b N o :
  sum_list_with (returned b) (replicate N (Ready o)) = 0%nat.
Proof. induction N as [|N IH]; [reflexivity|]. simpl. exact IH. Qed.

(** X2. [N] concurrent [TryIncrement] callers on a fresh counter of ceiling
    [C]: once all of them have returned, whatever the interleaving was,
    exactly [min N C] of them have returned [true]. *)
Theorem concurrent_incrementers_succeed_min C N schedule :
  0 <= C <= Int64.max_int ->
  Forall finished
    (interleave schedule
       (replicate N (Ready OpTryIncrement), NewAtomicCounter C)).1 ->
  sum_list_with (returned true)
    (interleave schedule
       (replicate N (Ready OpTryIncrement), NewAtomicCounter C)).1
  = Nat.min N (Z.to_nat C).
Proof.
  intros HC Hfin.
  pose proof (interleave_length schedule
                (replicate N (Ready OpTryIncrement), NewAtomicCounter C)) as Hlen.
  cbn [fst] in Hlen. rewrite length_replicate in Hlen.
  destruct (interleave_tallied C schedule
              (replicate N (Ready OpTryIncrement), NewAtomicCounter C) HC)
    as (_ & Hcount & Hle & Hfalse & Hall).
  { unfold tallied. cbn [fst snd NewAtomicCounter count max].
    rewrite !returned_none_yet. split; [reflexivity|]. split; [reflexivity|].
    split; [lia|]. split; [lia|].
    apply Forall_replicate. split; exact I. }
  destruct (interleave schedule _) as [pool ac]. cbn [fst snd] in *.
  pose proof (finished_incrementers_split pool Hfin) as Hsplit.
  rewrite Hlen in Hsplit.
  assert (Hinc : Forall incrementing pool).
  { eapply Forall_impl; [exact Hall|]. intros t [Ht _]. exact Ht. }
  specialize (Hsplit Hinc).
  destruct (sum_list_with (returned false) pool) as [|k] eqn:Hk.
  - lia.
  - assert (count ac = C) by (apply Hfalse; lia). lia.
Qed.

Lemma interleaved_calls_respect_ceiling_witness :
  Get (interleave [1; 0; 2; 0; 3; 2; 3; 3; 3]%nat
         (Ready <$> [OpTryIncrement; OpDecrement; OpTryIncrement;
                     OpTryIncrement],
          NewAtomicCounter 1)).2 <= 1.
Proof.
  apply (interleaved_calls_respect_ceiling 1
           [OpTryIncrement; OpDecrement; OpTryIncrement; OpTryIncrement]).
  - unfold Int64.max_int. lia.
  - vm_compute. discriminate.
Defined.

Lemma concurrent_incrementers_succeed_min_witness :
  sum_list_with (returned true)
    (interleave [0; 1; 0; 1; 1; 1; 2]%nat
       (replicate 3 (Ready OpTryIncrement), NewAtomicCounter 2)).1
  = 2%nat.
Proof.
  apply (concurrent_incrementers_succeed_min 2 3 [0; 1; 0; 1; 1; 1; 2]%nat).
  - unfold Int64.max_int. lia.
  - vm_compute. repeat constructor.
Defined.

(** *** Reservations and releases *)

Lemma run_app ops1 ops2 ac :
  run (ops1 ++ ops2) ac
  = ((run ops1 ac).1 ++ (run ops2 (run ops1 ac).2).1,
     (run ops2 (run ops1 ac).2).2).
Proof.
  revert ac. induction ops1 as [|[|] ops1 IH]; intros ac.
  - cbn [app run fst snd]. destruct (run ops2 ac); reflexivity.
  - cbn [app run]. destruct (TryIncrement ac) as [b ac1]. rewrite IH.
    destruct (run ops1 ac1) as [bs1 ac2]. cbn [fst snd].
    destruct (run ops2 ac2); reflexivity.
  - cbn [app run]. apply IH.
Qed.

(** X3. A reservation that is released leaves the counter as it was: after a
    [TryIncrement] that returned [true], [Decrement] restores the very
    counter the call started from; a [TryIncrement] that returned [false]
    found the value at the ceiling and changed nothing. *)
Theorem released_reservation_restores_counter ac :
  bounded ac ->
  (TryIncrement ac).1 = true /\ count ac < max ac
  /\ count (TryIncrement ac).2 = count ac + 1
  /\ Decrement (TryIncrement ac).2 = ac
  \/ (TryIncrement ac).1 = false /\ count ac = max ac
     /\ (TryIncrement ac).2 = ac.
Proof.
  intros [[Hlo Hhi] [Hle Hmax]].
  destruct (Z_lt_ge_dec (count ac) (max ac)) as [Hlt|Hge].
  - left. rewrite TryIncrement_below by lia. cbn [fst snd count].
    split; [reflexivity|]. split; [exact Hlt|]. split; [reflexivity|].
    rewrite Decrement_count; cbn [count max].
    + destruct ac as [c m]. cbn [count max]. f_equal. lia.
    + lia.
    + unfold Int64.in_range. lia.
  - right. rewrite TryIncrement_at_ceiling by lia. cbn [fst snd].
    split; [reflexivity|]. split; [lia|reflexivity].
Qed.

Lemma released_reservation_restores_counter_witness :
  Decrement (TryIncrement {| count := 1; max := 2 |}).2
  = {| count := 1; max := 2 |}.
Proof.
  destruct (released_reservation_restores_counter {| count := 1; max := 2 |})
    as [(_ & _ & _ & Hback)|(Hno & _)].
  - unfold bounded, Int64.in_range, Int64.min_int, Int64.max_int. simpl. lia.
  - exact Hback.
  - vm_compute in Hno. discriminate Hno.
Defined.

(** X4. [Decrement] is not guarded: [k] releases that no reservation
    preceded take a fresh counter to [-k], and the [N] calls of
    [TryIncrement] that follow then succeed [min N (C + k)] times, [k] more
    than the ceiling allows. *)
Theorem unmatched_decrements_widen_budget C k N :
  0 <= C <= Int64.max_int ->
  Z.of_nat k <= 2 ^ 63 ->
  Get (run (replicate k OpDecrement) (NewAtomicCounter C)).2 = - Z.of_nat k
  /\ successes
       (run (replicate k OpDecrement ++ replicate N OpTryIncrement)
          (NewAtomicCounter C)).1
     = Nat.min N (Z.to_nat (C + Z.of_nat k)).
Proof.
  intros HC Hk.
  assert (Hr : Int64.in_range (count (NewAtomicCounter C))).
  { cbn. unfold Int64.in_range, Int64.min_int, Int64.max_int. lia. }
  assert (Hw : Int64.wrap (0 - Z.of_nat k) = - Z.of_nat k).
  { apply Int64Facts.wrap_id.
    unfold Int64.in_range, Int64.min_int, Int64.max_int. lia. }
  split.
  - rewrite run_replicate_Decrement by exact Hr.
    unfold Get, LoadInt64. cbn [snd count NewAtomicCounter]. exact Hw.
  - rewrite run_app, run_replicate_Decrement by exact Hr.
    cbn [fst snd app NewAtomicCounter count max]. rewrite Hw.
    rewrite run_replicate_TryIncrement; cbn [count max].
    + f_equal. lia.
    + lia.
    + unfold Int64.min_int. lia.
Qed.

Lemma unmatched_decrements_widen_budget_witness :
  Get (run (replicate 2 OpDecrement) (NewAtomicCounter 1)).2 = -2
  /\ successes
       (run (replicate 2 OpDecrement ++ replicate 5 OpTryIncrement)
          (NewAtomicCounter 1)).1 = 3%nat.
Proof.
  apply (unmatched_decrements_widen_budget 1 2 5).
  - unfold Int64.max_int. lia.
  - simpl. lia.
Defined.

End AtomicCounterFacts.

(** ** Properties: Validator *)

Module GiftValidatorFacts.
Import GiftValidator.
Local Open Scope Z_scope.

Lemma priceValid_spec c gift :
  priceValid c gift = true
  <-> Config.MinPrice c <= Tg.Stars gift <= Config.MaxPrice c.
Proof.
  unfold priceValid, Tg.GetStars.
  destruct (Z.geb_spec (Tg.Stars gift) (Config.MinPrice c));
    destruct (Z.leb_spec (Tg.Stars gift) (Config.MaxPrice c));
    simpl; split; intros; try lia; try discriminate; reflexivity.
Qed.

Lemma criterion_holds_checks gv c gift :
  criterion_holds gv c gift
  <-> priceValid c gift && supplyValid gv c gift && starCapValidation gv gift
      = true.
Proof.
  unfold criterion_holds. rewrite !andb_true_iff, priceValid_spec. tauto.
Qed.

Lemma firstCriteria_first gv pre c post gift :
  (forall c', c' ∈ pre -> ~ criterion_holds gv c' gift) ->
  criterion_holds gv c gift ->
  firstCriteria gv (pre ++ c :: post) gift = Some (requireOf c gift).
Proof.
  intros Hpre Hc. induction pre as [|p pre IH]; simpl.
  - apply criterion_holds_checks in Hc. rewrite Hc. reflexivity.
  - destruct (priceValid p gift && supplyValid gv p gift
              && starCapValidation gv gift) eqn:E.
    + exfalso. apply (Hpre p); [left|]. apply criterion_holds_checks, E.
    + apply IH. intros c' Hin. apply Hpre. right. exact Hin.
Qed.

Lemma firstCriteria_none gv cs gift :
  (forall c, c ∈ cs -> ~ criterion_holds gv c gift) ->
  firstCriteria gv cs gift = None.
Proof.
  intros Hall. induction cs as [|p cs IH]; simpl; [reflexivity|].
  destruct (priceValid p gift && supplyValid gv p gift
            && starCapValidation gv gift) eqn:E.
  - exfalso. apply (Hall p); [left|]. apply criterion_holds_checks, E.
  - apply IH. intros c Hin. apply Hall. right. exact Hin.
Qed.

(** C3. A gift that is not sold out, has the configured limited status and
    passes the releaser and premium checks is matched with the first
    criterion, in configured order, whose price range (both ends included),
    supply check and spend-cap check hold; the match carries that
    criterion's count, receiver types and hide flag, whatever the later
    criteria are. When no criterion holds the result is [(nil, false)]. *)
Theorem C3_first_matching_criterion_wins gv gift :
  Tg.SoldOut gift = false ->
  Tg.Limited gift = limitedStatus gv ->
  releaseByValidation gv gift = true ->
  premiumValidation gv gift = true ->
  (forall pre c post,
      criteria gv = pre ++ c :: post ->
      (forall c', c' ∈ pre -> ~ criterion_holds gv c' gift) ->
      criterion_holds gv c gift ->
      IsEligible gv gift
      = Some {| GiftTypes.Gift := gift;
                GiftTypes.ReceiverType := Config.ReceiverType c;
                GiftTypes.CountForBuy := Config.Count c;
                GiftTypes.Hide := Config.Hide c |})
  /\ ((forall c, c ∈ criteria gv -> ~ criterion_holds gv c gift) ->
      IsEligible gv gift = None).
Proof.
  intros Hsold Hlim Hrel Hprem.
  assert (Hgate : IsEligible gv gift = firstCriteria gv (criteria gv) gift).
  { unfold IsEligible. rewrite Hsold, Hlim, Hrel, Hprem.
    rewrite eqb_reflx. reflexivity. }
  rewrite Hgate. split.
  - intros pre c post Hcs Hpre Hc. rewrite Hcs.
    apply (firstCriteria_first gv pre c post gift Hpre Hc).
  - apply firstCriteria_none.
Qed.

Lemma C3_first_matching_criterion_wins_witness :
  IsEligible scenario_validator scenario_gift
  = Some {| GiftTypes.Gift := scenario_gift;
            GiftTypes.ReceiverType := [0; 1];
            GiftTypes.CountForBuy := 3;
            GiftTypes.Hide := true |}.
Proof.
  refine (proj1 (C3_first_matching_criterion_wins scenario_validator
                   scenario_gift eq_refl eq_refl eq_refl eq_refl)
            [ {| Config.MinPrice := 60; Config.MaxPrice := 100;
                 Config.TotalSupply := 100; Config.Count := 9;
                 Config.ReceiverType := [2]; Config.Hide := false |} ]
            {| Config.MinPrice := 10; Config.MaxPrice := 100;
               Config.TotalSupply := 100; Config.Count := 3;
               Config.ReceiverType := [0; 1]; Config.Hide := true |}
            [ {| Config.MinPrice := 0; Config.MaxPrice := 1000;
                 Config.TotalSupply := 1000; Config.Count := 7;
                 Config.ReceiverType := [1]; Config.Hide := false |} ]
            eq_refl _ _).
  - intros c' Hin [[Hmin _] _].
    apply list_elem_of_singleton in Hin. subst c'. simpl in Hmin. lia.
  - split; [simpl; lia|]. split; reflexivity.
Defined.

(** C10. With test mode off, a gift that carries no total supply passes the
    spend-cap check under every non-negative cap: the absent supply reads
    as 0 and [price * 0 <= totalStarCap], however small the cap is next to
    the price. *)
Theorem C10_spend_cap_passes_without_total_supply gv gift :
  testMode gv = false ->
  Tg.AvailabilityTotal gift = None ->
  0 <= totalStarCap gv ->
  Tg.GetAvailabilityTotal gift = (0, false)
  /\ Int64.mul (Tg.GetStars gift) 0 = 0
  /\ starCapValidation gv gift = true.
Proof.
  intros Htest Habs Hcap.
  assert (Hget : Tg.GetAvailabilityTotal gift = (0, false)).
  { unfold Tg.GetAvailabilityTotal. rewrite Habs. reflexivity. }
  assert (Hmul : Int64.mul (Tg.GetStars gift) 0 = 0).
  { unfold Int64.mul. rewrite Z.mul_0_r. reflexivity. }
  split; [exact Hget|]. split; [exact Hmul|].
  unfold starCapValidation. rewrite Htest, Hget, Hmul.
  apply Z.leb_le. exact Hcap.
Qed.

Lemma C10_spend_cap_passes_without_total_supply_witness :
  starCapValidation
    {| limitedStatus := false; releaseBy := false; premium := false;
       criteria := []; totalStarCap := 10; testMode := false |}
    unlimited_gift = true.
Proof.
  refine (proj2 (proj2 (C10_spend_cap_passes_without_total_supply
    {| limitedStatus := false; releaseBy := false; premium := false;
       criteria := []; totalStarCap := 10; testMode := false |}
    unlimited_gift eq_refl eq_refl _))).
  simpl. lia.
Defined.

(** *** What a match implies *)

Lemma firstCriteria_Some gv cs gift r :
  firstCriteria gv cs gift = Some r ->
  exists pre c post,
    cs = pre ++ c :: post
    /\ (forall c', c' ∈ pre -> ~ criterion_holds gv c' gift)
    /\ criterion_holds gv c gift
    /\ r = requireOf c gift.
Proof.
  induction cs as [|c cs IH]; intros Hr; [discriminate Hr|].
  cbn [firstCriteria] in Hr.
  destruct (priceValid c gift && supplyValid gv c gift
            && starCapValidation gv gift) eqn:E.
  - injection Hr as <-. exists [], c, cs. split; [reflexivity|].
    split; [intros c' Hin; inversion Hin|].
    split; [apply criterion_holds_checks, E|reflexivity].
  - destruct (IH Hr) as (pre & c0 & post & -> & Hpre & Hc0 & ->).
    exists (c :: pre), c0, post. split; [reflexivity|].
    split; [|split; [exact Hc0|reflexivity]].
    intros c' Hin. apply elem_of_cons in Hin as [->|Hin]; [|apply Hpre, Hin].
    intros Hc. apply criterion_holds_checks in Hc. congruence.
Qed.

(** X19. [IsEligible] never accepts a gift it should not: a match means
    that the gift is not sold out, has the configured limited status, has a
    releaser only if gifts with a releaser are allowed, requires premium if
    only premium gifts are wanted, and that the match was built from the
    first criterion, in configured order, whose three checks hold: it
    carries the gift itself and that criterion's count, receiver types and
    hide flag. *)
Theorem match_implies_gates_and_first_criterion gv gift r :
  IsEligible gv gift = Some r ->
  Tg.SoldOut gift = false
  /\ Tg.Limited gift = limitedStatus gv
  /\ (Tg.ReleasedBy gift <> None -> releaseBy gv = true)
  /\ (premium gv = true -> Tg.RequirePremium gift = true)
  /\ exists pre c post,
       criteria gv = pre ++ c :: post
       /\ (forall c', c' ∈ pre -> ~ criterion_holds gv c' gift)
       /\ criterion_holds gv c gift
       /\ r = {| GiftTypes.Gift := gift;
                 GiftTypes.ReceiverType := Config.ReceiverType c;
                 GiftTypes.CountForBuy := Config.Count c;
                 GiftTypes.Hide := Config.Hide c |}.
Proof.
  unfold IsEligible. intros Hr.
  destruct (Tg.SoldOut gift) eqn:Hsold; [discriminate Hr|].
  destruct (eqb (Tg.Limited gift) (limitedStatus gv)) eqn:Hlim;
    [|discriminate Hr].
  destruct (releaseByValidation gv gift) eqn:Hrel; [|discriminate Hr].
  destruct (premiumValidation gv gift) eqn:Hprem; [|discriminate Hr].
  cbn [negb] in Hr.
  split; [reflexivity|]. split; [apply eqb_prop, Hlim|]. split; [|split].
  - intros Hby. unfold releaseByValidation, Tg.GetReleasedBy, Tg.getOptional in Hrel.
    destruct (Tg.ReleasedBy gift); [|contradiction].
    destruct (releaseBy gv); [reflexivity|discriminate Hrel].
  - intros Hp. unfold premiumValidation, Tg.GetRequirePremium in Hprem.
    rewrite Hp in Hprem.
    destruct (Tg.RequirePremium gift); [reflexivity|discriminate Hprem].
  - exact (firstCriteria_Some gv (criteria gv) gift r Hr).
Qed.

Lemma match_implies_gates_and_first_criterion_witness :
  Tg.SoldOut scenario_gift = false
  /\ Tg.Limited scenario_gift = limitedStatus scenario_validator
  /\ (Tg.ReleasedBy scenario_gift <> None ->
      releaseBy scenario_validator = true)
  /\ (premium scenario_validator = true ->
      Tg.RequirePremium scenario_gift = true)
  /\ exists pre c post,
       criteria scenario_validator = pre ++ c :: post
       /\ (forall c', c' ∈ pre -> ~ criterion_holds scenario_validator c'
                                      scenario_gift)
       /\ criterion_holds scenario_validator c scenario_gift
       /\ {| GiftTypes.Gift := scenario_gift;
             GiftTypes.ReceiverType := [0; 1];
             GiftTypes.CountForBuy := 3;
             GiftTypes.Hide := true |}
          = {| GiftTypes.Gift := scenario_gift;
               GiftTypes.ReceiverType := Config.ReceiverType c;
               GiftTypes.CountForBuy := Config.Count c;
               GiftTypes.Hide := Config.Hide c |}.
Proof.
  apply (match_implies_gates_and_first_criterion scenario_validator
           scenario_gift). reflexivity.
Defined.

(** X20. The spend cap is checked on a 64-bit product. With test mode off,
    when the price times the total supply (0 when the gift carries none)
    fits in an [int64], the check holds exactly when that product is at
    most the cap; when the product is between [2^63] and [2^64] it wraps to a
    negative number and the check holds under every non-negative cap. *)
Theorem spend_cap_is_exact_unless_product_overflows gv gift :
  testMode gv = false ->
  (Int64.in_range (Tg.Stars gift * default 0 (Tg.AvailabilityTotal gift)) ->
   (starCapValidation gv gift = true
    <-> Tg.Stars gift * default 0 (Tg.AvailabilityTotal gift)
        <= totalStarCap gv))
  /\ (2 ^ 63 <= Tg.Stars gift * default 0 (Tg.AvailabilityTotal gift) < 2 ^ 64 ->
      0 <= totalStarCap gv ->
      starCapValidation gv gift = true).
Proof.
  intros Htest.
  assert (Hcheck : starCapValidation gv gift
                   = (Int64.wrap (Tg.Stars gift
                                  * default 0 (Tg.AvailabilityTotal gift))
                      <=? totalStarCap gv)).
  { unfold starCapValidation, Tg.GetAvailabilityTotal, Tg.getOptional,
      Tg.GetStars, Int64.mul. rewrite Htest.
    destruct (Tg.AvailabilityTotal gift); reflexivity. }
  split.
  - intros Hrange. rewrite Hcheck, (Int64Facts.wrap_id _ Hrange).
    apply Z.leb_le.
  - intros Hover Hcap. rewrite Hcheck. apply Z.leb_le.
    assert (Hwrap : Int64.wrap (Tg.Stars gift
                                * default 0 (Tg.AvailabilityTotal gift))
                    = Tg.Stars gift * default 0 (Tg.AvailabilityTotal gift)
                      - 2 ^ 64).
    { unfold Int64.wrap.
      replace (Tg.Stars gift * default 0 (Tg.AvailabilityTotal gift) + 2 ^ 63)
        with (Tg.Stars gift * default 0 (Tg.AvailabilityTotal gift) - 2 ^ 63
              + 1 * 2 ^ 64) by lia.
      rewrite Z.mod_add by lia. rewrite Z.mod_small by lia. lia. }
    rewrite Hwrap. lia.
Qed.

Lemma spend_cap_is_exact_unless_product_overflows_witness :
  starCapValidation
    {| limitedStatus := true; releaseBy := false; premium := false;
       criteria := []; totalStarCap := 1000; testMode := false |}
    {| Tg.ID := 3; Tg.Stars := 2 ^ 32; Tg.Limited := true;
       Tg.SoldOut := false; Tg.RequirePremium := false;
       Tg.AvailabilityRemains := Some 1;
       Tg.AvailabilityTotal := Some (2 ^ 31); Tg.ReleasedBy := None |}
  = true.
Proof.
  refine (proj2 (spend_cap_is_exact_unless_product_overflows
    {| limitedStatus := true; releaseBy := false; premium := false;
       criteria := []; totalStarCap := 1000; testMode := false |}
    {| Tg.ID := 3; Tg.Stars := 2 ^ 32; Tg.Limited := true;
       Tg.SoldOut := false; Tg.RequirePremium := false;
       Tg.AvailabilityRemains := Some 1;
       Tg.AvailabilityTotal := Some (2 ^ 31); Tg.ReleasedBy := None |}
    eq_refl) _ _).
  - cbn. lia.
  - cbn. lia.
Defined.

End GiftValidatorFacts.

(** ** Properties: Discovery cache and its durable snapshot *)

Module GiftCacheFacts.
Import GiftCache.
Local Open Scope Z_scope.

Lemma mergeEntry_keeps acc entry k v :
  acc.1 !! k = Some v -> (mergeEntry acc entry).1 !! k = Some v.
Proof.
  destruct acc as [m n], entry as [id gift]. cbn [fst mergeEntry].
  intros Hk. destruct (m !! FormatInt id) eqn:E; cbn [fst]; [exact Hk|].
  rewrite lookup_insert_ne; [exact Hk|]. congruence.
Qed.

Lemma merge_keeps order acc k v :
  acc.1 !! k = Some v -> (foldl mergeEntry acc order).1 !! k = Some v.
Proof.
  revert acc. induction order as [|e order IH]; intros acc Hk; [exact Hk|].
  cbn [foldl]. apply IH, mergeEntry_keeps, Hk.
Qed.

Lemma merge_origin order acc k v :
  (foldl mergeEntry acc order).1 !! k = Some v ->
  acc.1 !! k = Some v
  \/ (acc.1 !! k = None
      /\ exists id gift, (id, gift) ∈ order /\ k = FormatInt id
                          /\ v = project gift).
Proof.
  revert acc. induction order as [|[id gift] order IH]; intros [m n] Hk.
  - left. exact Hk.
  - cbn [foldl] in Hk. apply IH in Hk. cbn [mergeEntry fst] in *.
    destruct (m !! FormatInt id) eqn:E; cbn [fst] in Hk.
    + destruct Hk as [Hk|(Hk & id' & g' & Hin & Hkey & Hv)]; [left; exact Hk|].
      right. split; [exact Hk|]. exists id', g'.
      split; [right; exact Hin|]. split; assumption.
    + destruct (decide (k = FormatInt id)) as [->|Hne].
      * right. split; [exact E|]. exists id, gift. split; [left|].
        rewrite lookup_insert_eq in Hk.
        destruct Hk as [Hk|[Hk _]]; [|discriminate].
        split; [reflexivity|]. injection Hk as <-. reflexivity.
      * rewrite lookup_insert_ne in Hk by congruence.
        destruct Hk as [Hk|(Hk & id' & g' & Hin & Hkey & Hv)]; [left; exact Hk|].
        right. split; [exact Hk|]. exists id', g'.
        split; [right; exact Hin|]. split; assumption.
Qed.

Lemma merge_covers order acc id gift :
  (id, gift) ∈ order -> is_Some ((foldl mergeEntry acc order).1 !! FormatInt id).
Proof.
  revert acc. induction order as [|[id' g'] order IH]; intros [m n] Hin.
  - apply elem_of_nil in Hin. destruct Hin.
  - cbn [foldl]. apply elem_of_cons in Hin as [Heq|Hin]; [|apply IH, Hin].
    injection Heq as -> ->. cbn [mergeEntry].
    destruct (m !! FormatInt id') as [v|] eqn:E.
    + exists v. apply merge_keeps. exact E.
    + exists (project g'). apply merge_keeps. cbn [fst].
      apply lookup_insert_eq.
Qed.

Lemma merge_count_mono order acc : acc.2 <= (foldl mergeEntry acc order).2.
Proof.
  revert acc. induction order as [|[id g] order IH]; intros [m n]; [simpl; lia|].
  cbn [foldl]. etransitivity; [|apply IH]. cbn [mergeEntry snd].
  destruct (m !! FormatInt id); cbn [snd]; lia.
Qed.

Lemma merge_nothing_new order acc :
  (forall id gift, (id, gift) ∈ order -> is_Some (acc.1 !! FormatInt id)) ->
  foldl mergeEntry acc order = acc.
Proof.
  revert acc. induction order as [|[id g] order IH]; intros [m n] Hall;
    [reflexivity|].
  cbn [foldl]. assert (Hstep : mergeEntry (m, n) (id, g) = (m, n)).
  { cbn [mergeEntry]. destruct (Hall id g) as [v Hv]; [left|].
    cbn [fst] in Hv. rewrite Hv. reflexivity. }
  rewrite Hstep. apply IH. intros id' g' Hin. apply (Hall id' g'). right. exact Hin.
Qed.

Lemma merge_something_new order acc id gift :
  (id, gift) ∈ order -> acc.1 !! FormatInt id = None ->
  acc.2 < (foldl mergeEntry acc order).2.
Proof.
  revert acc. induction order as [|[id' g'] order IH]; intros [m n] Hin Hnew.
  - apply elem_of_nil in Hin. destruct Hin.
  - cbn [foldl]. cbn [fst snd] in *.
    destruct (m !! FormatInt id') as [v|] eqn:E.
    + assert (Hstep : mergeEntry (m, n) (id', g') = (m, n)).
      { cbn [mergeEntry]. rewrite E. reflexivity. }
      rewrite Hstep. apply elem_of_cons in Hin as [Heq|Hin].
      * injection Heq as -> ->. congruence.
      * apply (IH (m, n) Hin Hnew).
    + pose proof (merge_count_mono order (mergeEntry (m, n) (id', g'))) as Hm.
      cbn [mergeEntry] in Hm |- *. rewrite E in Hm |- *. cbn [snd] in Hm. lia.
Qed.

Lemma FormatInt_inj id id' : FormatInt id = FormatInt id' -> id = id'.
Proof. unfold FormatInt. apply pretty_Z_inj. Qed.

Lemma ranges_over_elem order gc id gift :
  ranges_over order gc -> ((id, gift) ∈ order <-> cache gc !! id = Some gift).
Proof.
  unfold ranges_over. intros Hperm. rewrite Hperm.
  apply elem_of_map_to_list.
Qed.

Lemma save_entries disk order :
  entries (saveToFile disk order WriteDone).2
  = (mergeLoop (entries disk) order).1.
Proof.
  unfold saveToFile.
  destruct (mergeLoop (entries disk) order) as [merged newGifts] eqn:Hmerge.
  destruct (Z.eqb_spec newGifts 0) as [Hz|Hz]; [|reflexivity].
  cbn [snd fst].
  destruct (decide (Forall (fun entry : Z * Tg.StarGift =>
                              is_Some (entries disk !! FormatInt entry.1))
                      order)) as [Hall|Hex].
  - unfold mergeLoop in Hmerge. rewrite merge_nothing_new in Hmerge.
    + injection Hmerge as <- _. reflexivity.
    + intros id gift Hin. rewrite Forall_forall in Hall.
      exact (Hall (id, gift) Hin).
  - exfalso. apply not_Forall_Exists in Hex; [|intros entry; apply _].
    apply Exists_exists in Hex as ([id gift] & Hin & Hnone).
    cbn in Hnone.
    pose proof (merge_something_new order (entries disk, 0) id gift Hin) as Hlt.
    cbn [fst snd] in Hlt. unfold mergeLoop in Hmerge. rewrite Hmerge in Hlt.
    cbn [snd] in Hlt.
    assert (entries disk !! FormatInt id = None) as Hlook.
    { destruct (entries disk !! FormatInt id) eqn:E; [|reflexivity].
      exfalso. apply Hnone. eexists. reflexivity. }
    specialize (Hlt Hlook). lia.
Qed.

Lemma merge_origin_cache gc order existingCache k v :
  ranges_over order gc ->
  (mergeLoop existingCache order).1 !! k = Some v ->
  existingCache !! k = Some v
  \/ (existingCache !! k = None
      /\ exists id gift, cache gc !! id = Some gift
           /\ k = FormatInt id /\ v = project gift).
Proof.
  intros Hover Hk. unfold mergeLoop in Hk. apply merge_origin in Hk.
  cbn [fst] in Hk.
  destruct Hk as [Hk|(Hk & id & gift & Hin & Hkey & Hv)]; [left; exact Hk|].
  right. split; [exact Hk|]. exists id, gift.
  split; [apply (ranges_over_elem order gc), Hin; exact Hover|].
  split; assumption.
Qed.

Lemma merge_adds gc order existingCache id gift :
  ranges_over order gc ->
  cache gc !! id = Some gift -> existingCache !! FormatInt id = None ->
  (mergeLoop existingCache order).1 !! FormatInt id = Some (project gift).
Proof.
  intros Hover Hc Hnew.
  destruct (merge_covers order (existingCache, 0) id gift) as [v Hv].
  { apply (ranges_over_elem order gc); assumption. }
  fold (mergeLoop existingCache order) in Hv. rewrite Hv. f_equal.
  destruct (merge_origin_cache gc order existingCache _ _ Hover Hv)
    as [Hk|(_ & id' & g' & Hc' & Hkey & ->)].
  - congruence.
  - apply FormatInt_inj in Hkey. subst id'. congruence.
Qed.

(** C5 (as the code has it). [saveToFile] reads the file on every call and
    merges into what [json.Unmarshal] left in the map: every entry of the
    snapshot is in the merged map with its value unchanged; every other
    entry of the merged map is the projection of an in-memory gift whose key
    the snapshot lacked, and every such gift is added. When the snapshot
    already has every in-memory key the file is read, not written, and stays
    as it is. When it lacks one, the merged map is handed to one write; if
    that write succeeds the file holds the merged map, and if it fails the
    file is whatever the failed write left. So after a save whose write does
    not fail the file holds exactly the merged map: every entry it held
    before, unchanged, and besides those only the in-memory gifts whose keys
    it lacked, all of them. *)
Theorem C5_save_merges_into_snapshot gc disk order w :
  ranges_over order gc ->
  (forall k v, entries disk !! k = Some v ->
     (mergeLoop (entries disk) order).1 !! k = Some v)
  /\ (forall k v, (mergeLoop (entries disk) order).1 !! k = Some v ->
       entries disk !! k = Some v
       \/ (entries disk !! k = None
           /\ exists id gift, cache gc !! id = Some gift
                /\ k = FormatInt id /\ v = project gift))
  /\ (forall id gift, cache gc !! id = Some gift ->
       entries disk !! FormatInt id = None ->
       (mergeLoop (entries disk) order).1 !! FormatInt id
       = Some (project gift))
  /\ ((forall id, is_Some (cache gc !! id) ->
         is_Some (entries disk !! FormatInt id)) ->
      saveToFile disk order w = ([EvReadFile], disk))
  /\ (forall id, is_Some (cache gc !! id) ->
       entries disk !! FormatInt id = None ->
       saveToFile disk order w
       = ([EvReadFile; EvWriteFile (mergeLoop (entries disk) order).1],
          match w with
          | WriteDone => Decoded (mergeLoop (entries disk) order).1
          | WriteFailed left_behind => left_behind
          end))
  /\ (exists writes, (saveToFile disk order w).1 = EvReadFile :: writes)
  /\ entries (saveToFile disk order WriteDone).2
     = (mergeLoop (entries disk) order).1
  /\ (forall k v, entries disk !! k = Some v ->
       entries (saveToFile disk order WriteDone).2 !! k = Some v)
  /\ (forall k v,
       entries (saveToFile disk order WriteDone).2 !! k = Some v ->
       entries disk !! k = Some v
       \/ (entries disk !! k = None
           /\ exists id gift, cache gc !! id = Some gift
                /\ k = FormatInt id /\ v = project gift))
  /\ (forall id gift, cache gc !! id = Some gift ->
       entries disk !! FormatInt id = None ->
       entries (saveToFile disk order WriteDone).2 !! FormatInt id
       = Some (project gift)).
Proof.
  intros Hover.
  split; [|split; [|split; [|split; [|split; [|split;
    [|split; [|split; [|split]]]]]]]].
  - intros k v Hk. apply merge_keeps. exact Hk.
  - intros k v. apply (merge_origin_cache gc). exact Hover.
  - intros id gift. apply merge_adds. exact Hover.
  - intros Hall. unfold saveToFile, mergeLoop.
    rewrite merge_nothing_new; [reflexivity|].
    intros id gift Hin. cbn [fst]. apply Hall.
    exists gift. apply (ranges_over_elem order gc); assumption.
  - intros id [gift Hc] Hnew. unfold saveToFile, mergeLoop.
    pose proof (merge_something_new order (entries disk, 0) id gift) as Hlt.
    cbn [fst snd] in Hlt.
    specialize (Hlt (proj2 (ranges_over_elem order gc id gift Hover) Hc) Hnew).
    destruct (foldl mergeEntry (entries disk, 0) order) as [merged newGifts].
    cbn [fst snd] in *.
    destruct (Z.eqb_spec newGifts 0) as [E|_]; [lia|reflexivity].
  - unfold saveToFile.
    destruct (mergeLoop (entries disk) order) as [merged newGifts].
    destruct (newGifts =? 0); eexists; reflexivity.
  - apply save_entries.
  - intros k v Hk. rewrite save_entries. apply merge_keeps. exact Hk.
  - intros k v. rewrite save_entries. apply (merge_origin_cache gc).
    exact Hover.
  - intros id gift. rewrite save_entries. apply merge_adds. exact Hover.
Qed.

Lemma C5_save_merges_into_snapshot_witness :
  saveToFile old_snapshot (map_to_list (cache seen_cache)) WriteDone
  = ([EvReadFile], old_snapshot)
  /\ (mergeLoop (entries stale_snapshot) (map_to_list (cache seen_cache))).1
      !! "9"%string = Some {| ID := 9; Stars := 20 |}
  /\ (mergeLoop (entries stale_snapshot) (map_to_list (cache seen_cache))).1
      !! FormatInt 1 = Some {| ID := 1; Stars := 50 |}
  /\ entries
       (saveToFile stale_snapshot (map_to_list (cache seen_cache))
          WriteDone).2
     !! "9"%string = Some {| ID := 9; Stars := 20 |}
  /\ entries
       (saveToFile stale_snapshot (map_to_list (cache seen_cache))
          WriteDone).2
     !! FormatInt 1 = Some {| ID := 1; Stars := 50 |}
  /\ entries
       (saveToFile mistyped_snapshot (map_to_list (cache seen_cache))
          WriteDone).2
     !! "9"%string = Some {| ID := 0; Stars := 20 |}
  /\ (saveToFile stale_snapshot (map_to_list (cache seen_cache))
        (WriteFailed NotDecoded)).2 = NotDecoded.
Proof.
  assert (Hover : ranges_over (map_to_list (cache seen_cache)) seen_cache)
    by (unfold ranges_over; reflexivity).
  assert (Hseen : cache seen_cache !! 1 = Some seen_gift).
  { unfold seen_cache, SetGift. cbn [cache]. apply lookup_insert_eq. }
  pose proof (C5_save_merges_into_snapshot seen_cache old_snapshot _ WriteDone
                Hover) as (_ & _ & _ & Hold & _).
  pose proof (C5_save_merges_into_snapshot seen_cache stale_snapshot _
                WriteDone Hover)
    as (Hkeep & _ & Hadd & _ & _ & _ & _ & Hfile & _ & Hfile').
  pose proof (C5_save_merges_into_snapshot seen_cache mistyped_snapshot _
                WriteDone Hover)
    as (_ & _ & _ & _ & _ & _ & _ & Hmistyped & _).
  pose proof (C5_save_merges_into_snapshot seen_cache stale_snapshot _
                (WriteFailed NotDecoded) Hover)
    as (_ & _ & _ & _ & Hfailed & _).
  split; [|split; [|split; [|split; [|split; [|split]]]]].
  - apply Hold.
    intros id [gift Hid]. unfold seen_cache, SetGift, emptyCache in Hid.
    cbn [cache] in Hid. apply lookup_insert_Some in Hid as [[<- _]|[_ Hid]].
    + vm_compute. eexists. reflexivity.
    + rewrite lookup_empty in Hid. discriminate.
  - apply Hkeep. vm_compute. reflexivity.
  - apply (Hadd 1 seen_gift Hseen). vm_compute. reflexivity.
  - apply Hfile. vm_compute. reflexivity.
  - apply (Hfile' 1 seen_gift Hseen). vm_compute. reflexivity.
  - apply Hmistyped. vm_compute. reflexivity.
  - rewrite (Hfailed 1); [reflexivity|exists seen_gift; exact Hseen|].
    vm_compute. reflexivity.
Defined.

(** C5, the part that fails as stated: the merge that finds nothing new
    still reads the snapshot; what it skips is the write. *)
Lemma C5_counterexample_unchanged_save_reads :
  (forall id, is_Some (cache seen_cache !! id) ->
     is_Some (entries old_snapshot !! FormatInt id))
  /\ (saveToFile old_snapshot (map_to_list (cache seen_cache)) WriteDone).1
     = [EvReadFile]
  /\ (saveToFile old_snapshot (map_to_list (cache seen_cache)) WriteDone).1
     <> [].
Proof.
  split; [|split].
  - intros id [gift Hid]. unfold seen_cache, SetGift, emptyCache in Hid.
    cbn [cache] in Hid. apply lookup_insert_Some in Hid as [[<- _]|[_ Hid]].
    + vm_compute. eexists. reflexivity.
    + rewrite lookup_empty in Hid. discriminate.
  - vm_compute. reflexivity.
  - vm_compute. discriminate.
Qed.

(** *** Loading the snapshot *)

Lemma load_lookup_other (order : list (string * CachedGift))
    (c0 : gmap Z Tg.StarGift) id :
  (forall entry, entry ∈ order -> ID entry.2 <> id) ->
  foldl (fun cache entry => <[ID entry.2 := restored entry.2]> cache) c0 order
    !! id = c0 !! id.
Proof.
  induction order as [|x order IH] using rev_ind; intros Hne; [reflexivity|].
  rewrite foldl_app. cbn [foldl]. rewrite lookup_insert_ne.
  - apply IH. intros entry Hin. apply Hne, elem_of_app. left. exact Hin.
  - apply Hne, elem_of_app. right. apply list_elem_of_here.
Qed.

Lemma load_lookup_entry (order : list (string * CachedGift))
    (c0 : gmap Z Tg.StarGift) id entry0 :
  entry0 ∈ order -> ID entry0.2 = id ->
  (forall entry, entry ∈ order -> ID entry.2 = id -> entry.2 = entry0.2) ->
  foldl (fun cache entry => <[ID entry.2 := restored entry.2]> cache) c0 order
    !! id = Some (restored entry0.2).
Proof.
  induction order as [|x order IH] using rev_ind; intros Hin Hid Huniq.
  - inversion Hin.
  - rewrite foldl_app. cbn [foldl].
    destruct (decide (ID x.2 = id)) as [Hx|Hx].
    + rewrite Hx, lookup_insert_eq. f_equal. f_equal. apply Huniq; [|exact Hx].
      apply elem_of_app. right. apply list_elem_of_here.
    + rewrite lookup_insert_ne by exact Hx. apply IH.
      * apply elem_of_app in Hin as [Hin|Hin]; [exact Hin|].
        apply list_elem_of_singleton in Hin. subst x. contradiction.
      * exact Hid.
      * intros entry Hentry. apply Huniq, elem_of_app. left. exact Hentry.
Qed.

Lemma load_lookup m order gc id :
  order ≡ₚ map_to_list m -> keyedSnapshot m ->
  cache (loadFromFile (Decoded m) order gc) !! id
  = match m !! FormatInt id with
    | Some cached => Some (restored cached)
    | None => cache gc !! id
    end.
Proof.
  intros Hperm Hkeyed. cbn [loadFromFile cache].
  destruct (m !! FormatInt id) as [cached|] eqn:Hlook.
  - apply (load_lookup_entry order _ id (FormatInt id, cached)).
    + rewrite Hperm. apply elem_of_map_to_list. exact Hlook.
    + cbn. apply FormatInt_inj. symmetry. exact (Hkeyed _ _ Hlook).
    + intros [key cached'] Hin Hid. cbn in *.
      rewrite Hperm in Hin. apply elem_of_map_to_list in Hin.
      pose proof (Hkeyed _ _ Hin) as Hkey. rewrite Hid in Hkey. subst key.
      congruence.
  - apply load_lookup_other. intros [key cached] Hin Hid. cbn in *.
    rewrite Hperm in Hin. apply elem_of_map_to_list in Hin.
    pose proof (Hkeyed _ _ Hin) as Hkey. rewrite Hid in Hkey. subst key.
    congruence.
Qed.

(** X15. [loadFromFile] leaves the cache as it is when the file cannot be
    read or decoded, a file that [json.Unmarshal] rejects for a type error
    included. From a snapshot whose entries are stored under their
    own identifiers it puts, in whatever order it ranges over the entries,
    exactly the gifts of the snapshot in the cache, each with its
    identifier and price and nothing else; gifts the cache held under other
    identifiers stay. *)
Theorem load_restores_identifiers_and_prices disk order gc :
  (disk = NotDecoded -> loadFromFile disk order gc = gc)
  /\ (forall m, disk = Mistyped m -> loadFromFile disk order gc = gc)
  /\ (forall m,
        disk = Decoded m -> order ≡ₚ map_to_list m -> keyedSnapshot m ->
        forall id,
        GetGift (loadFromFile disk order gc) id
        = match m !! FormatInt id with
          | Some cached =>
              Some {| Tg.ID := id; Tg.Stars := Stars cached;
                      Tg.Limited := false; Tg.SoldOut := false;
                      Tg.RequirePremium := false;
                      Tg.AvailabilityRemains := None;
                      Tg.AvailabilityTotal := None;
                      Tg.ReleasedBy := None |}
          | None => GetGift gc id
          end).
Proof.
  split; [intros ->; reflexivity|].
  split; [intros m ->; reflexivity|].
  intros m -> Hperm Hkeyed id. unfold GetGift.
  rewrite (load_lookup m order gc id Hperm Hkeyed).
  destruct (m !! FormatInt id) as [cached|] eqn:Hlook; [|reflexivity].
  unfold restored. do 2 f_equal.
  apply FormatInt_inj. symmetry. exact (Hkeyed _ _ Hlook).
Qed.

(** *** Saving and loading *)

Lemma merge_keyed order :
  forall acc,
  keyedSnapshot acc.1 ->
  (forall id gift, (id, gift) ∈ order -> Tg.ID gift = id) ->
  keyedSnapshot (foldl mergeEntry acc order).1.
Proof.
  induction order as [|[id gift] order IH]; intros acc Hacc Hord; [exact Hacc|].
  cbn [foldl]. apply IH.
  - destruct acc as [existing n]. cbn [mergeEntry fst] in *.
    destruct (existing !! FormatInt id) eqn:Hlook; [exact Hacc|].
    cbn [fst]. intros key cached Hkey.
    apply lookup_insert_Some in Hkey as [[<- <-]|[_ Hkey]].
    + cbn. rewrite (Hord id gift) by apply list_elem_of_here. reflexivity.
    + exact (Hacc _ _ Hkey).
  - intros id' gift' Hin. apply Hord. apply list_elem_of_further. exact Hin.
Qed.

Lemma save_not_mistyped disk order :
  mistyped disk = false ->
  mistyped (saveToFile disk order WriteDone).2 = false.
Proof.
  intros Hdisk. unfold saveToFile.
  destruct (mergeLoop (entries disk) order) as [merged newGifts].
  destruct (newGifts =? 0); [exact Hdisk|reflexivity].
Qed.

Lemma save_written disk order id gift :
  mistyped disk = false ->
  (id, gift) ∈ order ->
  exists m, (saveToFile disk order WriteDone).2 = Decoded m.
Proof.
  intros Hdisk Hin. unfold saveToFile.
  destruct (mergeLoop (entries disk) order) as [merged newGifts] eqn:Hmerge.
  destruct (Z.eqb_spec newGifts 0) as [Hz|Hz]; [|eexists; reflexivity].
  cbn [snd]. destruct disk as [|m|m];
    [|eexists; reflexivity|discriminate Hdisk].
  exfalso.
  pose proof (merge_something_new order (entries NotDecoded, 0) id gift Hin
                (lookup_empty _)) as Hlt.
  unfold mergeLoop in Hmerge. rewrite Hmerge in Hlt. cbn in Hlt. lia.
Qed.

(** X16. What was saved survives a restart. When the gifts of the cache are
    stored under their own identifiers, as are the entries of the snapshot,
    a save whose write succeeds leaves a snapshot of the same kind, and,
    the file before the save not being one that [json.Unmarshal] rejects
    for a type error, a cache loaded from it holds every identifier the
    saved cache held, with the price saved for it unless the snapshot
    already had an entry. *)
Theorem saved_gifts_survive_restart gc disk order order' :
  ranges_over order gc ->
  keyedCache gc ->
  keyedSnapshot (entries disk) ->
  order' ≡ₚ map_to_list (entries (saveToFile disk order WriteDone).2) ->
  keyedSnapshot (entries (saveToFile disk order WriteDone).2)
  /\ (mistyped disk = false ->
      forall id gift,
      GetGift gc id = Some gift ->
      exists cached,
        GetGift (NewGiftCache (saveToFile disk order WriteDone).2 order') id
        = Some (restored cached)
        /\ ID cached = id
        /\ (entries disk !! FormatInt id = None ->
            Stars cached = Tg.Stars gift)).
Proof.
  intros Hrange Hgc Hdisk Hperm.
  assert (Hkeyed : keyedSnapshot (entries (saveToFile disk order WriteDone).2)).
  { rewrite save_entries. unfold mergeLoop. apply merge_keyed; [exact Hdisk|].
    intros id gift Hin. apply Hgc.
    apply (ranges_over_elem order gc id gift Hrange). exact Hin. }
  split; [exact Hkeyed|].
  intros Hclean id gift Hget. unfold GetGift in Hget.
  assert (Hin : (id, gift) ∈ order).
  { apply (ranges_over_elem order gc id gift Hrange). exact Hget. }
  destruct (save_written disk order id gift Hclean Hin) as [m Hm].
  rewrite Hm in *. cbn [entries] in *.
  destruct (merge_covers order (entries disk, 0) id gift Hin) as [cached Hc].
  fold (mergeLoop (entries disk) order) in Hc.
  pose proof (save_entries disk order) as Hent. rewrite Hm in Hent.
  cbn [entries] in Hent. rewrite <- Hent in Hc.
  exists cached. unfold NewGiftCache, GetGift.
  rewrite (load_lookup m order' emptyCache id Hperm Hkeyed), Hc.
  split; [reflexivity|]. split.
  - apply FormatInt_inj. symmetry. exact (Hkeyed _ _ Hc).
  - intros Hnone. rewrite Hent in Hc. unfold mergeLoop in Hc.
    apply merge_origin in Hc. cbn [fst] in Hc.
    destruct Hc as [Hc|(_ & id' & gift' & Hin' & Hkey & ->)]; [congruence|].
    apply FormatInt_inj in Hkey. subst id'.
    apply (ranges_over_elem order gc id gift' Hrange) in Hin'.
    rewrite Hget in Hin'. injection Hin' as <-. reflexivity.
Qed.

Lemma saved_gifts_survive_restart_witness :
  exists cached,
    GetGift
      (NewGiftCache
         (saveToFile stale_snapshot (map_to_list (cache seen_cache))
            WriteDone).2
         (map_to_list
            (entries (saveToFile stale_snapshot
                        (map_to_list (cache seen_cache)) WriteDone).2)))
      1
    = Some (restored cached)
    /\ ID cached = 1
    /\ (entries stale_snapshot !! FormatInt 1 = None -> Stars cached = 50).
Proof.
  refine (proj2 (saved_gifts_survive_restart seen_cache stale_snapshot
                   (map_to_list (cache seen_cache))
                   (map_to_list
                      (entries (saveToFile stale_snapshot
                                  (map_to_list (cache seen_cache))
                                  WriteDone).2))
                   _ _ _ _) eq_refl 1 seen_gift eq_refl).
  - unfold ranges_over. reflexivity.
  - intros id gift Hlook. unfold seen_cache, SetGift in Hlook. cbn in Hlook.
    apply lookup_insert_Some in Hlook as [[<- <-]|[_ Hlook]]; [reflexivity|].
    rewrite lookup_empty in Hlook. discriminate Hlook.
  - intros key cached Hlook. cbn in Hlook.
    apply lookup_singleton_Some in Hlook as [<- <-]. reflexivity.
  - reflexivity.
Defined.

(** X17. Saving is idempotent: after a save whose write succeeded, a second
    save of the same cache, in whatever order it ranges over it, reads the
    file, finds nothing new and writes nothing. *)
Theorem second_save_only_reads gc disk order order' w :
  ranges_over order gc ->
  ranges_over order' gc ->
  saveToFile (saveToFile disk order WriteDone).2 order' w
  = ([EvReadFile], (saveToFile disk order WriteDone).2).
Proof.
  intros Hrange Hrange'. unfold saveToFile at 1. unfold mergeLoop.
  rewrite merge_nothing_new; [reflexivity|].
  intros id gift Hin. cbn [fst]. rewrite save_entries. unfold mergeLoop.
  apply (merge_covers order (entries disk, 0) id gift).
  apply (ranges_over_elem order gc id gift Hrange).
  apply (ranges_over_elem order' gc id gift Hrange'). exact Hin.
Qed.

Lemma second_save_only_reads_witness :
  saveToFile
    (saveToFile stale_snapshot (map_to_list (cache seen_cache)) WriteDone).2
    (map_to_list (cache seen_cache)) WriteDone
  = ([EvReadFile],
     (saveToFile stale_snapshot (map_to_list (cache seen_cache)) WriteDone).2).
Proof.
  apply (second_save_only_reads seen_cache); unfold ranges_over; reflexivity.
Defined.

(** *** The periodic saves *)

Lemma save_keeps disk order k v :
  entries disk !! k = Some v ->
  entries (saveToFile disk order WriteDone).2 !! k = Some v.
Proof.
  intros Hk. rewrite save_entries. unfold mergeLoop.
  apply merge_keeps. exact Hk.
Qed.

Lemma run_not_mistyped steps :
  writesDone steps ->
  forall gc disk,
  mistyped disk = false -> mistyped (runCache steps (gc, disk)).2 = false.
Proof.
  induction 1 as [|step steps Hstep _ IH]; intros gc disk Hdisk;
    [exact Hdisk|].
  unfold runCache in *. cbn [foldl].
  destruct step as [id gift|id| |order0 w]; cbn [cacheStepOn];
    try (apply IH; exact Hdisk).
  destruct w as [|left_behind]; [|contradiction].
  apply IH, save_not_mistyped, Hdisk.
Qed.

(** X18. The file never forgets: whatever the callers set, delete or clear
    between the saves of the save goroutine, as long as no write fails an
    entry of the snapshot stays in it unchanged. [DeleteGift] and [Clear]
    do not reach the file, so, the file at the outset not being one that
    [json.Unmarshal] rejects for a type error, a gift that was saved once
    is in the cache again after the next start. *)
Theorem snapshot_never_forgets steps gc disk order key cached :
  writesDone steps ->
  keyedSnapshot (entries (runCache steps (gc, disk)).2) ->
  order ≡ₚ map_to_list (entries (runCache steps (gc, disk)).2) ->
  entries disk !! key = Some cached ->
  entries (runCache steps (gc, disk)).2 !! key = Some cached
  /\ (mistyped disk = false ->
      GetGift (NewGiftCache (runCache steps (gc, disk)).2 order) (ID cached)
      = Some (restored cached)).
Proof.
  intros Hdone Hkeyed Hperm Hk.
  assert (Hkept : entries (runCache steps (gc, disk)).2 !! key = Some cached).
  { clear Hkeyed Hperm. revert gc disk Hk.
    induction Hdone as [|step steps Hstep _ IH]; intros gc disk Hk;
      [exact Hk|].
    unfold runCache in *. cbn [foldl].
    destruct step as [id gift|id| |order0 w]; cbn [cacheStepOn];
      try (apply IH; exact Hk).
    destruct w as [|left_behind]; [|contradiction].
    apply IH. apply save_keeps. exact Hk. }
  split; [exact Hkept|]. intros Hclean.
  pose proof (run_not_mistyped steps Hdone gc disk Hclean) as Hfinal.
  destruct (runCache steps (gc, disk)).2 as [|m|m] eqn:Hm;
    [cbn [entries] in Hkept; rewrite lookup_empty in Hkept;
     discriminate Hkept| |discriminate Hfinal].
  cbn [entries] in *. unfold NewGiftCache, GetGift.
  rewrite (load_lookup m order emptyCache (ID cached) Hperm Hkeyed).
  rewrite <- (Hkeyed _ _ Hkept), Hkept. reflexivity.
Qed.

Lemma snapshot_never_forgets_witness :
  GetGift
    (NewGiftCache
       (runCache
          [StepDeleteGift 1; StepClear; StepSave [] WriteDone]
          (seen_cache,
           (saveToFile NotDecoded (map_to_list (cache seen_cache)) WriteDone).2)).2
       [("1"%string, {| ID := 1; Stars := 50 |})])
    1
  = Some (restored {| ID := 1; Stars := 50 |}).
Proof.
  assert (Hrun : entries
                   (runCache
                      [StepDeleteGift 1; StepClear; StepSave [] WriteDone]
                      (seen_cache,
                       (saveToFile NotDecoded (map_to_list (cache seen_cache))
                          WriteDone).2)).2
                 = {["1"%string := {| ID := 1; Stars := 50 |}]}).
  { vm_compute. reflexivity. }
  refine (proj2 (snapshot_never_forgets
                   [StepDeleteGift 1; StepClear; StepSave [] WriteDone]
                   seen_cache
                   (saveToFile NotDecoded (map_to_list (cache seen_cache))
                      WriteDone).2
                   [("1"%string, {| ID := 1; Stars := 50 |})]
                   "1"%string {| ID := 1; Stars := 50 |} _ _ _ _) eq_refl).
  - repeat constructor.
  - rewrite Hrun. intros key cached Hlook.
    apply lookup_singleton_Some in Hlook as [<- <-]. reflexivity.
  - rewrite Hrun, map_to_list_singleton. reflexivity.
  - vm_compute. reflexivity.
Defined.

End GiftCacheFacts.

(** ** Properties: Monitor *)

Module GiftMonitorFacts.
Import GiftMonitor.

Lemma HasGift_SetGift c id gift id' :
  GiftCache.HasGift (GiftCache.SetGift c id gift) id'
  = if decide (id = id') then true else GiftCache.HasGift c id'.
Proof.
  unfold GiftCache.HasGift, GiftCache.SetGift. cbn [GiftCache.cache].
  rewrite lookup_insert. destruct (decide (id = id')); reflexivity.
Qed.



Lemma scanGifts_validates_unseen v gifts c gift :
  gift ∈ (scanGifts v gifts c).2 -> GiftCache.HasGift c (Tg.ID gift) = false.
Proof.
  revert c. induction gifts as [|g gifts IH]; intros c Hin.
  - apply elem_of_nil in Hin. destruct Hin.
  - cbn [scanGifts] in Hin. destruct (GiftCache.HasGift c (Tg.ID g)) eqn:E.
    + apply IH, Hin.
    + specialize (IH (GiftCache.SetGift c (Tg.ID g) g)).
      destruct (scanGifts v gifts _) as [[more c'] validated]. cbn [fst snd] in *.
      apply elem_of_cons in Hin as [->|Hin]; [exact E|].
      apply IH in Hin. rewrite HasGift_SetGift in Hin.
      case_decide; [discriminate|exact Hin].
Qed.










Lemma first_poll_returns_warmup gm currentGifts :
  firstRun gm = true -> testMode gm = false ->
  exists gm' validated,
    checkForNewGifts gm (Available currentGifts)
    = (PollError firstRunError, gm', validated).
Proof.
  intros Hfirst Htest. cbn [checkForNewGifts].
  destruct (scanGifts (validator gm) currentGifts (cache gm))
    as [[found c1] validated1].
  cbn [setCache firstRun testMode]. rewrite Hfirst, Htest. cbn [andb negb].
  eexists _, _. reflexivity.
Qed.

(** C8 (as the code has it). The warm-up poll queues the warm-up error and
    queues no gifts, so nothing is returned for purchase, and it neither
    notifies nor writes to the error log. When the loop takes an error off
    the queue, the warm-up error like any other, and the monitor is not
    paused, it calls the notifier's error notification with that error,
    writes the notifier's error to the error log if the notification failed,
    then writes the error itself to the error log, and goes on; while paused
    it drops the error without notifying or logging. *)
Theorem C8_warmup_error_is_reported_like_any_other st notifErr :
  (forall currentGifts,
      firstRun (monitor st) = true -> testMode (monitor st) = false ->
      IsPaused (monitor st) = false ->
      exists st',
        iterate st (CaseTick (Available currentGifts)) = Continues st'
        /\ errCh st' = errCh st ++ [firstRunError]
        /\ resultCh st' = resultCh st
        /\ sentErrors st' = sentErrors st
        /\ errorLog st' = errorLog st)
  /\ (forall err rest, errCh st = err :: rest ->
      exists st',
        iterate st (CaseErr notifErr) = Continues st'
        /\ errCh st' = rest
        /\ resultCh st' = resultCh st
        /\ sentErrors st'
           = (if IsPaused (monitor st) then sentErrors st
              else sentErrors st ++ [err])
        /\ errorLog st'
           = (if IsPaused (monitor st) then errorLog st
              else errorLog st
                   ++ match notifErr with
                      | Some e => [e]
                      | None => []
                      end ++ [err])).
Proof.
  split.
  - intros currentGifts Hfirst Htest Hrun.
    destruct (first_poll_returns_warmup (monitor st) currentGifts
                Hfirst Htest) as [gm' [validated Hpoll]].
    cbn [iterate]. rewrite Hrun, Hpoll.
    eexists. split; [reflexivity|]. cbn. repeat split.
  - intros err rest Herr. cbn [iterate]. rewrite Herr.
    destruct (IsPaused (monitor st)); cbn [negb];
      eexists; (split; [reflexivity|]); cbn; repeat split.
Qed.

Lemma C8_warmup_error_is_reported_like_any_other_witness :
  (exists st',
      iterate (startOf warmup_monitor) (CaseTick (Available warmup_catalog))
      = Continues st'
      /\ errCh st' = [firstRunError]
      /\ resultCh st' = []
      /\ sentErrors st' = []
      /\ errorLog st' = [])
  /\ (exists st',
        iterate warmup_received (CaseErr None) = Continues st'
        /\ errCh st' = []
        /\ resultCh st' = []
        /\ sentErrors st' = [firstRunError]
        /\ errorLog st' = [firstRunError]).
Proof.
  split.
  - exact (proj1 (C8_warmup_error_is_reported_like_any_other
                    (startOf warmup_monitor) None)
             warmup_catalog eq_refl eq_refl eq_refl).
  - exact (proj2 (C8_warmup_error_is_reported_like_any_other
                    warmup_received None)
             firstRunError [] eq_refl).
Defined.

(** C8, the part that fails as stated: a fresh monitor, not paused, polls
    once and then takes the warm-up error off the queue; the notifier is
    called with it. *)
Lemma C8_counterexample_warmup_is_notified :
  notifications
    (Start (startOf warmup_monitor)
       [CaseTick (Available warmup_catalog); CaseErr None])
  = Some ["touch grass: first run"%string].
Proof. vm_compute. reflexivity. Qed.

(** *** What a poll offers *)

Lemma scanGifts_matches v gifts :
  forall c,
  (scanGifts v gifts c).1.1 = omap (matchOf v) (scanGifts v gifts c).2.
Proof.
  induction gifts as [|g gifts IH]; intros c; [reflexivity|].
  cbn [scanGifts]. destruct (GiftCache.HasGift c (Tg.ID g)); [apply IH|].
  specialize (IH (GiftCache.SetGift c (Tg.ID g) g)).
  destruct (scanGifts v gifts _) as [[more c'] validated]. cbn [fst snd] in *.
  cbn [omap list_omap]. unfold matchOf at 1. rewrite IH.
  destruct (v g); reflexivity.
Qed.

Lemma scanGifts_validated_fetched v gifts :
  forall c gift, gift ∈ (scanGifts v gifts c).2 -> gift ∈ gifts.
Proof.
  induction gifts as [|g gifts IH]; intros c gift Hin.
  - apply elem_of_nil in Hin. destruct Hin.
  - cbn [scanGifts] in Hin. destruct (GiftCache.HasGift c (Tg.ID g)).
    + right. exact (IH c gift Hin).
    + specialize (IH (GiftCache.SetGift c (Tg.ID g) g) gift).
      destruct (scanGifts v gifts _) as [[more c'] validated].
      cbn [fst snd] in *.
      apply elem_of_cons in Hin as [->|Hin]; [left|right; apply IH, Hin].
Qed.

Lemma scanGifts_validated_NoDup v gifts :
  forall c, NoDup (Tg.ID <$> (scanGifts v gifts c).2).
Proof.
  induction gifts as [|g gifts IH]; intros c; [constructor|].
  cbn [scanGifts]. destruct (GiftCache.HasGift c (Tg.ID g)); [apply IH|].
  pose proof (scanGifts_validates_unseen v gifts
                (GiftCache.SetGift c (Tg.ID g) g)) as Hunseen.
  specialize (IH (GiftCache.SetGift c (Tg.ID g) g)).
  destruct (scanGifts v gifts _) as [[more c'] validated].
  cbn [fst snd fmap list_fmap] in *.
  constructor; [|exact IH].
  intros Hin. apply list_elem_of_fmap in Hin as (g' & Hid & Hg').
  specialize (Hunseen g' Hg'). rewrite HasGift_SetGift in Hunseen.
  rewrite decide_True in Hunseen by exact Hid. discriminate Hunseen.
Qed.

Lemma scanGifts_validates_first v gifts :
  forall c gift,
  gift ∈ gifts -> GiftCache.HasGift c (Tg.ID gift) = false ->
  exists first, first ∈ (scanGifts v gifts c).2 /\ Tg.ID first = Tg.ID gift.
Proof.
  induction gifts as [|g gifts IH]; intros c gift Hin Hnew.
  - apply elem_of_nil in Hin. destruct Hin.
  - cbn [scanGifts]. destruct (GiftCache.HasGift c (Tg.ID g)) eqn:Hg.
    + apply elem_of_cons in Hin as [->|Hin]; [congruence|].
      exact (IH c gift Hin Hnew).
    + specialize (IH (GiftCache.SetGift c (Tg.ID g) g) gift).
      destruct (scanGifts v gifts _) as [[more c'] validated].
      cbn [fst snd] in *.
      destruct (decide (Tg.ID g = Tg.ID gift)) as [Hid|Hid].
      * exists g. split; [left|exact Hid].
      * apply elem_of_cons in Hin as [->|Hin]; [contradiction|].
        destruct IH as (first & Hfirst & Hsame); [exact Hin| |].
        -- rewrite HasGift_SetGift, decide_False by exact Hid. exact Hnew.
        -- exists first. split; [right; exact Hfirst|exact Hsame].
Qed.

Lemma scanGifts_cache v gifts :
  forall c id,
  GiftCache.HasGift (scanGifts v gifts c).1.2 id
  = GiftCache.HasGift c id || bool_decide (id ∈ Tg.ID <$> gifts).
Proof.
  induction gifts as [|g gifts IH]; intros c id.
  - cbn. rewrite bool_decide_eq_false_2 by apply not_elem_of_nil.
    rewrite orb_false_r. reflexivity.
  - cbn [scanGifts fmap list_fmap].
    destruct (GiftCache.HasGift c (Tg.ID g)) eqn:Hg.
    + rewrite IH. destruct (decide (id = Tg.ID g)) as [->|Hne].
      * rewrite Hg. reflexivity.
      * f_equal. apply bool_decide_ext. rewrite elem_of_cons. tauto.
    + specialize (IH (GiftCache.SetGift c (Tg.ID g) g) id).
      destruct (scanGifts v gifts _) as [[more c'] validated].
      cbn [fst snd] in *. rewrite IH, HasGift_SetGift.
      destruct (decide (Tg.ID g = id)) as [<-|Hne].
      * rewrite (bool_decide_eq_true_2 (Tg.ID g ∈ Tg.ID g :: _)) by left.
        rewrite orb_true_r. reflexivity.
      * f_equal. apply bool_decide_ext. rewrite elem_of_cons.
        split; [tauto|]. intros [Heq|Hin]; [congruence|exact Hin].
Qed.

(** X21. After the warm-up (or in test mode) a poll that fetches the
    catalog hands the validator the first gift of each identifier the cache
    did not hold, once each, and offers exactly those of them the validator
    accepts, in catalog order, each match carrying the fetched gift.
    Afterwards the cache holds what it held and every fetched identifier,
    accepted or not. *)
Theorem poll_offers_each_new_eligible_gift gm currentGifts :
  firstRun gm && negb (testMode gm) = false ->
  exists validated,
    checkForNewGifts gm (Available currentGifts)
    = (NewGifts (omap (matchOf (validator gm)) validated),
       setCache gm (scanGifts (validator gm) currentGifts (cache gm)).1.2,
       validated)
    /\ NoDup (Tg.ID <$> validated)
    /\ (forall gift, gift ∈ validated ->
          gift ∈ currentGifts
          /\ GiftCache.HasGift (cache gm) (Tg.ID gift) = false)
    /\ (forall gift, gift ∈ currentGifts ->
          GiftCache.HasGift (cache gm) (Tg.ID gift) = false ->
          exists first, first ∈ validated /\ Tg.ID first = Tg.ID gift)
    /\ (forall id,
          GiftCache.HasGift
            (cache (checkForNewGifts gm (Available currentGifts)).1.2) id
          = GiftCache.HasGift (cache gm) id
            || bool_decide (id ∈ Tg.ID <$> currentGifts)).
Proof.
  intros Hsettled. cbn [checkForNewGifts].
  pose proof (scanGifts_matches (validator gm) currentGifts (cache gm)) as Hm.
  pose proof (scanGifts_validated_NoDup (validator gm) currentGifts (cache gm))
    as Hnd.
  pose proof (scanGifts_validated_fetched (validator gm) currentGifts (cache gm))
    as Hfetched.
  pose proof (scanGifts_validates_unseen (validator gm) currentGifts (cache gm))
    as Hunseen.
  pose proof (scanGifts_validates_first (validator gm) currentGifts (cache gm))
    as Hfirst.
  pose proof (scanGifts_cache (validator gm) currentGifts (cache gm)) as Hcache.
  destruct (scanGifts (validator gm) currentGifts (cache gm))
    as [[matches c'] validated].
  cbn [fst snd] in *. cbn [setCache firstRun testMode]. rewrite Hsettled.
  exists validated. subst matches. split; [reflexivity|].
  split; [exact Hnd|]. split; [|split; [exact Hfirst|exact Hcache]].
  intros gift Hin. split; [exact (Hfetched gift Hin)|exact (Hunseen gift Hin)].
Qed.

Lemma poll_offers_each_new_eligible_gift_witness :
  exists validated,
    checkForNewGifts
      (checkForNewGifts warmup_monitor (Available [])).1.2
      (Available warmup_catalog)
    = (NewGifts
         (omap (matchOf (validator
                           (checkForNewGifts warmup_monitor
                              (Available [])).1.2))
            validated),
       setCache (checkForNewGifts warmup_monitor (Available [])).1.2
         (scanGifts
            (validator (checkForNewGifts warmup_monitor (Available [])).1.2)
            warmup_catalog
            (cache (checkForNewGifts warmup_monitor (Available [])).1.2)).1.2,
       validated)
    /\ NoDup (Tg.ID <$> validated).
Proof.
  destruct (poll_offers_each_new_eligible_gift
              (checkForNewGifts warmup_monitor (Available [])).1.2
              warmup_catalog eq_refl)
    as (validated & Hpoll & Hnd & _).
  exists validated. split; [exact Hpoll|exact Hnd].
Defined.



(** *** The warm-up poll and the polls after it *)














(** *** The poll loop *)

Lemma iterate_keeps_results_nonempty st c st' :
  Forall (fun newGifts => newGifts <> []) (resultCh st) ->
  iterate st c = Continues st' ->
  Forall (fun newGifts => newGifts <> []) (resultCh st').
Proof.
  intros Hinv Hstep. destruct c as [ctxErr|answer| |notifErr]; cbn in Hstep.
  - discriminate Hstep.
  - destruct (IsPaused (monitor st)); [injection Hstep as <-; exact Hinv|].
    destruct (checkForNewGifts (monitor st) answer) as [[res gm'] validated].
    destruct res as [newGifts|err].
    + destruct newGifts as [|r newGifts]; cbn in Hstep;
        injection Hstep as <-; cbn; [exact Hinv|].
      apply Forall_app. split; [exact Hinv|].
      constructor; [discriminate|constructor].
    + injection Hstep as <-. exact Hinv.
  - destruct (resultCh st); discriminate Hstep.
  - destruct (errCh st) as [|err rest]; [discriminate Hstep|].
    destruct (negb (IsPaused (monitor st))); injection Hstep as <-; exact Hinv.
Qed.

(** X23. [Start] never returns an empty purchase: from a monitor whose
    queues are empty, along any schedule of its [select], what it returns
    is either the context's error with no gifts, or a list of at least one
    gift with a nil error. A poll that finds nothing is not queued. *)
Theorem Start_returns_gifts_or_context_error gm schedule newGifts err :
  Start (startOf gm) schedule = Returned newGifts err ->
  (err = None /\ newGifts <> [])
  \/ (newGifts = [] /\ exists ctxErr, err = Some ctxErr
                                      /\ CaseDone ctxErr ∈ schedule).
Proof.
  assert (Hgen : forall st,
            Forall (fun newGifts => newGifts <> []) (resultCh st) ->
            Start st schedule = Returned newGifts err ->
            (err = None /\ newGifts <> [])
            \/ (newGifts = [] /\ exists ctxErr, err = Some ctxErr
                                                /\ CaseDone ctxErr ∈ schedule)).
  { induction schedule as [|c schedule IH]; intros st Hinv Hret;
      [discriminate Hret|].
    cbn [Start] in Hret. destruct (iterate st c) as [gifts e|st'|] eqn:Hstep.
    - injection Hret as -> ->.
      destruct c as [ctxErr|answer| |notifErr]; cbn in Hstep.
      + injection Hstep as <- <-. right. split; [reflexivity|].
        exists ctxErr. split; [reflexivity|left].
      + destruct (IsPaused (monitor st)); [discriminate Hstep|].
        destruct (checkForNewGifts (monitor st) answer) as [[res gm'] v].
        destruct res as [l|e']; [|discriminate Hstep].
        destruct (length l =? 0)%nat; discriminate Hstep.
      + destruct (resultCh st) as [|first rest] eqn:Hq; [discriminate Hstep|].
        injection Hstep as <- <-. left. split; [reflexivity|].
        apply Forall_cons in Hinv as [Hne _]. exact Hne.
      + destruct (errCh st); [discriminate Hstep|].
        destruct (negb (IsPaused (monitor st))); discriminate Hstep.
    - destruct (IH st' (iterate_keeps_results_nonempty st c st' Hinv Hstep) Hret)
        as [Hok|(Hnil & ctxErr & Herr & Hin)]; [left; exact Hok|].
      right. split; [exact Hnil|]. exists ctxErr.
      split; [exact Herr|right; exact Hin].
    - discriminate Hret. }
  apply Hgen. constructor.
Qed.

Lemma Start_returns_gifts_or_context_error_witness :
  exists newGifts,
    Start (startOf (checkForNewGifts warmup_monitor (Available [])).1.2)
      [CaseTick (Available []); CaseTick (Available warmup_catalog);
       CaseResult]
    = Returned newGifts None
    /\ newGifts <> [].
Proof.
  eexists. split; [reflexivity|].
  destruct (Start_returns_gifts_or_context_error
              (checkForNewGifts warmup_monitor (Available [])).1.2
              [CaseTick (Available []); CaseTick (Available warmup_catalog);
               CaseResult] _ None eq_refl)
    as [[_ Hne]|[_ (ctxErr & Habs & _)]]; [exact Hne|discriminate Habs].
Defined.

(** X24. A paused monitor is silent: while it is paused a tick starts no
    poll, so the cache, the warm-up flag and the queues stay as they are,
    and an error taken off the queue is dropped without a notification or a
    log line. *)
Theorem paused_monitor_polls_and_notifies_nothing st schedule st' :
  IsPaused (monitor st) = true ->
  Start st schedule = Continues st' ->
  monitor st' = monitor st
  /\ resultCh st' = resultCh st
  /\ sentErrors st' = sentErrors st
  /\ errorLog st' = errorLog st
  /\ exists taken, errCh st = taken ++ errCh st'.
Proof.
  revert st. induction schedule as [|c schedule IH]; intros st Hp Hrun.
  - injection Hrun as <-. repeat split; try reflexivity. exists []. reflexivity.
  - cbn [Start] in Hrun. destruct (iterate st c) as [gifts e|st1|] eqn:Hstep;
      try discriminate Hrun.
    assert (Hsame : monitor st1 = monitor st /\ resultCh st1 = resultCh st
                    /\ sentErrors st1 = sentErrors st
                    /\ errorLog st1 = errorLog st
                    /\ exists taken, errCh st = taken ++ errCh st1).
    { destruct c as [ctxErr|answer| |notifErr]; cbn in Hstep.
      - discriminate Hstep.
      - rewrite Hp in Hstep. injection Hstep as <-.
        repeat split; try reflexivity. exists []. reflexivity.
      - destruct (resultCh st); discriminate Hstep.
      - destruct (errCh st) as [|err rest] eqn:Hq; [discriminate Hstep|].
        rewrite Hp in Hstep. cbn in Hstep. injection Hstep as <-. cbn.
        repeat split; try reflexivity. exists [err]. reflexivity. }
    destruct Hsame as (Hm & Hr & Hs & Hl & taken & Ht).
    destruct (IH st1 ltac:(rewrite Hm; exact Hp) Hrun)
      as (Hm' & Hr' & Hs' & Hl' & taken' & Ht').
    repeat split; try congruence.
    exists (taken ++ taken'). rewrite Ht, Ht', app_assoc. reflexivity.
Qed.

Lemma paused_monitor_polls_and_notifies_nothing_witness :
  exists st',
    Start {| monitor := paused_monitor; resultCh := [];
             errCh := [firstRunError]; sentErrors := []; errorLog := [] |}
      [CaseTick (Available warmup_catalog); CaseErr None]
    = Continues st'
    /\ monitor st' = paused_monitor
    /\ sentErrors st' = [].
Proof.
  eexists. split; [reflexivity|].
  destruct (paused_monitor_polls_and_notifies_nothing
              {| monitor := paused_monitor; resultCh := [];
                 errCh := [firstRunError]; sentErrors := []; errorLog := [] |}
              [CaseTick (Available warmup_catalog); CaseErr None] _
              eq_refl eq_refl)
    as (Hm & _ & Hs & _).
  split; [exact Hm|exact Hs].
Defined.

End GiftMonitorFacts.

(** ** Properties: Purchase pipeline: [PurchaseGift] *)

Module PurchaseProcessorFacts.
Import PurchaseProcessor.
Local Open Scope Z_scope.

Lemma rejects_validationError r gift :
  rejects r gift ->
  exists err, PurchaseGift r gift = Some err /\ validationError err.
Proof.
  unfold rejects, PurchaseGift.
  intros [Hbal|[Hbal [Hform|[typeName Hform]]]]; rewrite Hbal; cbn [negb].
  - exists insufficientBalance. split; [reflexivity|]. left. reflexivity.
  - rewrite Hform. exists regularFormUnsupported.
    split; [reflexivity|]. right. left. reflexivity.
  - rewrite Hform. exists (unexpectedForm typeName).
    split; [reflexivity|]. right. right. exists typeName. reflexivity.
Qed.

(** X30. [PurchaseGift] returns nil exactly when the API client is set, the
    balance could be read and covers the price, the payment form is a
    stars form or a star-gift form, and sending it succeeds. A missing
    client or a balance that could not be read is reported as an
    insufficient balance. *)
Theorem purchase_succeeds_exactly_when_paid r gift :
  (PurchaseGift r gift = None
   <-> apiPresent r = true
       /\ (exists balance,
             starsStatus r = Some balance
             /\ Tg.Stars (GiftTypes.Gift gift) <= balance)
       /\ (exists FormID,
             paymentFormAnswer r = inr (PaymentsPaymentFormStars FormID)
             \/ paymentFormAnswer r = inr (PaymentsPaymentFormStarGift FormID))
       /\ sendStarsAnswer r = None)
  /\ (apiPresent r = false \/ starsStatus r = None ->
      PurchaseGift r gift = Some insufficientBalance).
Proof.
  unfold PurchaseGift, validatePurchase, sendStarsForm. split; [split|].
  - intros Hnone. destruct (apiPresent r); [|discriminate Hnone].
    destruct (starsStatus r) as [balance|]; [|discriminate Hnone].
    cbn [negb] in Hnone.
    destruct (Z.geb_spec balance (Tg.Stars (GiftTypes.Gift gift)));
      [|discriminate Hnone].
    cbn [negb] in Hnone. split; [reflexivity|].
    split; [exists balance; split; [reflexivity|lia]|].
    destruct (paymentFormAnswer r) as [err|[FormID|FormID| |typeName]];
      try discriminate Hnone.
    + split; [exists FormID; left; reflexivity|].
      destruct (sendStarsAnswer r); [discriminate Hnone|reflexivity].
    + split; [exists FormID; right; reflexivity|].
      destruct (sendStarsAnswer r); [discriminate Hnone|reflexivity].
  - intros (-> & (balance & -> & Hle) & (FormID & Hform) & ->). cbn [negb].
    destruct (Z.geb_spec balance (Tg.Stars (GiftTypes.Gift gift))); [|lia].
    cbn [negb]. destruct Hform as [-> | ->]; reflexivity.
  - intros [-> | ->]; [reflexivity|]. destruct (apiPresent r); reflexivity.
Qed.

End PurchaseProcessorFacts.

(** ** Properties: Buyer: one purchase unit with retries *)

Module GiftBuyerFacts.
Import GiftBuyer.
Local Open Scope Z_scope.

(** [k] failing attempts from attempt [j] on unfold into their events,
    followed by what the loop does from attempt [j + k]. *)
Lemma retryLoop_failed_prefix answers errs giftID retryCount k :
  forall remaining j lastErr,
  (forall i, (j <= i < j + k)%nat -> fails answers errs i) ->
  retryLoop answers giftID retryCount (k + remaining) j lastErr
  = flat_map (fun i => failedAttempt giftID retryCount i (errs i)) (seq j k)
    ++ retryLoop answers giftID retryCount remaining (j + k)
         (match k with
          | O => lastErr
          | S k' => Some (errs (j + k')%nat)
          end).
Proof.
  induction k as [|k IH]; intros remaining j lastErr Hfail.
  - cbn [flat_map seq app Nat.add]. rewrite Nat.add_0_r. reflexivity.
  - destruct (Hfail j ltac:(lia)) as (Hctx & Hinc & Hbuy).
    cbn [Nat.add retryLoop seq flat_map]. rewrite Hctx, Hinc, Hbuy. cbn [negb].
    rewrite (IH remaining (S j) (Some (errs j))) by (intros i Hi; apply Hfail; lia).
    unfold failedAttempt at 2. cbn [app].
    rewrite <- !app_assoc. do 4 f_equal.
    replace (S j + k)%nat with (j + S k)%nat by lia.
    do 2 f_equal. destruct k as [|k'].
    + rewrite Nat.add_0_r. reflexivity.
    + replace (S j + k')%nat with (j + S k')%nat by lia. reflexivity.
Qed.

Lemma outcomes_app t1 t2 : outcomes (t1 ++ t2) = outcomes t1 ++ outcomes t2.
Proof. unfold outcomes. apply omap_app. Qed.

Lemma outcomes_failed_prefix errs giftID retryCount k j :
  outcomes
    (flat_map (fun i => failedAttempt giftID retryCount i (errs i)) (seq j k))
  = map (fun i => failed giftID (Some (errs i))) (seq j k).
Proof.
  revert j. induction k as [|k IH]; intros j; [reflexivity|].
  cbn [seq flat_map map]. rewrite outcomes_app, IH. f_equal.
  unfold failedAttempt. destruct (Z.of_nat j <? retryCount - 1); reflexivity.
Qed.

Lemma purchaseCalls_app t1 t2 :
  purchaseCalls (t1 ++ t2) = (purchaseCalls t1 + purchaseCalls t2)%nat.
Proof. unfold purchaseCalls. rewrite List.filter_app, length_app. reflexivity. Qed.

Lemma purchaseCalls_failed_prefix errs giftID retryCount k j :
  purchaseCalls
    (flat_map (fun i => failedAttempt giftID retryCount i (errs i)) (seq j k))
  = k.
Proof.
  revert j. induction k as [|k IH]; intros j; [reflexivity|].
  cbn [seq flat_map]. rewrite purchaseCalls_app, IH.
  unfold failedAttempt. destruct (Z.of_nat j <? retryCount - 1); reflexivity.
Qed.

(** C2. When attempt [j] of a unit is reached (the attempts before it ran the
    pipeline and failed), the context is not done, and [TryIncrement]
    returns [false], the unit sends one failed outcome with the error
    "max buy count reached" and returns: after the refused increment the
    trace holds that send and nothing else, so no [PurchaseGift], no
    [Decrement] and no later attempt; the pipeline has been called once for
    each earlier attempt only. *)
Theorem C2_budget_exhausted_ends_unit answers errs gift retryCount j :
  Z.of_nat j < retryCount ->
  (forall i, (i < j)%nat -> fails answers errs i) ->
  ctxDone (answers j) = None ->
  tryIncrement (answers j) = false ->
  buyGiftWithRetry answers gift retryCount
  = flat_map
      (fun i => failedAttempt (Tg.ID (GiftTypes.Gift gift)) retryCount i (errs i))
      (seq 0 j)
    ++ [EvTryIncrement false;
        EvSend (failed (Tg.ID (GiftTypes.Gift gift))
                  (Some (Errors.New "max buy count reached")))]
  /\ purchaseCalls (buyGiftWithRetry answers gift retryCount) = j.
Proof.
  intros Hj Hfail Hctx Hinc.
  assert (Htrace : buyGiftWithRetry answers gift retryCount
    = flat_map
        (fun i => failedAttempt (Tg.ID (GiftTypes.Gift gift)) retryCount i (errs i))
        (seq 0 j)
      ++ [EvTryIncrement false;
          EvSend (failed (Tg.ID (GiftTypes.Gift gift))
                    (Some (Errors.New "max buy count reached")))]).
  { unfold buyGiftWithRetry.
    replace (Z.to_nat retryCount)
      with (j + S (Z.to_nat retryCount - S j))%nat by lia.
    rewrite (retryLoop_failed_prefix answers errs) by (intros i Hi; apply Hfail; lia).
    f_equal. cbn [Nat.add retryLoop]. rewrite Hctx, Hinc. reflexivity. }
  split; [exact Htrace|].
  rewrite Htrace, purchaseCalls_app, purchaseCalls_failed_prefix.
  cbn. lia.
Qed.

Lemma C2_budget_exhausted_ends_unit_witness :
  buyGiftWithRetry budget_runs_out request 3
  = [EvTryIncrement true; EvPurchaseGift; EvDecrement;
     EvSend (failed 1 (Some "failed to send stars form: timeout"%string));
     EvSleep;
     EvTryIncrement false;
     EvSend (failed 1 (Some "max buy count reached"%string))]
  /\ purchaseCalls (buyGiftWithRetry budget_runs_out request 3) = 1%nat.
Proof.
  refine (C2_budget_exhausted_ends_unit budget_runs_out
            (fun _ => "failed to send stars form: timeout"%string)
            request 3 1 _ _ eq_refl eq_refl).
  - lia.
  - intros i Hi. assert (i = 0%nat) as -> by lia.
    unfold fails. repeat split.
Defined.

(** C6 (as the code has it). A unit that is never cancelled, never refused
    by the counter, and whose every pipeline call fails sends one failed
    outcome per attempt and then, after the loop, one more failed outcome
    that repeats the last error: [retryCount + 1] outcomes for a
    non-negative [retryCount], and the pipeline is called [retryCount]
    times. *)
Theorem C6_exhausted_retries_send_a_final_outcome answers errs gift retryCount :
  (forall i, Z.of_nat i < retryCount -> fails answers errs i) ->
  outcomes (buyGiftWithRetry answers gift retryCount)
  = map (fun i => failed (Tg.ID (GiftTypes.Gift gift)) (Some (errs i)))
      (seq 0 (Z.to_nat retryCount))
    ++ [failed (Tg.ID (GiftTypes.Gift gift))
          (lastOf errs (Z.to_nat retryCount) None)]
  /\ length (outcomes (buyGiftWithRetry answers gift retryCount))
     = S (Z.to_nat retryCount)
  /\ purchaseCalls (buyGiftWithRetry answers gift retryCount)
     = Z.to_nat retryCount.
Proof.
  intros Hfail.
  assert (Htrace : buyGiftWithRetry answers gift retryCount
    = flat_map
        (fun i => failedAttempt (Tg.ID (GiftTypes.Gift gift)) retryCount i (errs i))
        (seq 0 (Z.to_nat retryCount))
      ++ [EvSend (failed (Tg.ID (GiftTypes.Gift gift))
                    (lastOf errs (Z.to_nat retryCount) None))]).
  { unfold buyGiftWithRetry.
    replace (Z.to_nat retryCount) with (Z.to_nat retryCount + 0)%nat at 1 by lia.
    rewrite (retryLoop_failed_prefix answers errs) by (intros i Hi; apply Hfail; lia).
    f_equal. }
  assert (Hout : outcomes (buyGiftWithRetry answers gift retryCount)
    = map (fun i => failed (Tg.ID (GiftTypes.Gift gift)) (Some (errs i)))
        (seq 0 (Z.to_nat retryCount))
      ++ [failed (Tg.ID (GiftTypes.Gift gift))
            (lastOf errs (Z.to_nat retryCount) None)]).
  { rewrite Htrace, outcomes_app, outcomes_failed_prefix. reflexivity. }
  split; [exact Hout|]. split.
  - rewrite Hout, length_app, length_map, length_seq. cbn [length]. lia.
  - rewrite Htrace, purchaseCalls_app, purchaseCalls_failed_prefix.
    cbn. lia.
Qed.

Lemma C6_exhausted_retries_send_a_final_outcome_witness :
  outcomes (buyGiftWithRetry pipeline_always_fails request 2)
  = [failed 1 (Some "failed to send stars form: timeout"%string);
     failed 1 (Some "failed to send stars form: timeout"%string);
     failed 1 (Some "failed to send stars form: timeout"%string)].
Proof.
  refine (proj1 (C6_exhausted_retries_send_a_final_outcome
                   pipeline_always_fails
                   (fun _ => "failed to send stars form: timeout"%string)
                   request 2 _)).
  intros i Hi. unfold fails. repeat split.
Defined.

(** C6, the part that fails as stated: with [retryCount = 3] and a pipeline
    that always fails the unit sends four failed outcomes, the fourth after
    the loop has ended. *)
Lemma C6_counterexample_terminal_outcome :
  length (outcomes (buyGiftWithRetry pipeline_always_fails request 3)) = 4%nat
  /\ buyGiftWithRetry pipeline_always_fails request 3
     = [EvTryIncrement true; EvPurchaseGift; EvDecrement;
        EvSend (failed 1 (Some "failed to send stars form: timeout"%string));
        EvSleep;
        EvTryIncrement true; EvPurchaseGift; EvDecrement;
        EvSend (failed 1 (Some "failed to send stars form: timeout"%string));
        EvSleep;
        EvTryIncrement true; EvPurchaseGift; EvDecrement;
        EvSend (failed 1 (Some "failed to send stars form: timeout"%string));
        EvSend (failed 1 (Some "failed to send stars form: timeout"%string))].
Proof. split; vm_compute; reflexivity. Qed.

(** C7 (as the code has it). A validation error of the pipeline is handled
    like every other pipeline error. When attempt [j] is not the last one
    and [PurchaseGift] ends in an insufficient-balance or unsupported-form
    error, the unit releases its reservation, sends the failed outcome,
    sleeps, and goes on to attempt [j + 1]: unless the context is done by
    then, it consults the counter again. *)
Theorem C7_validation_errors_are_retried answers errs gift retryCount j r :
  Z.of_nat j < retryCount - 1 ->
  (forall i, (i <= j)%nat -> fails answers errs i) ->
  purchase (answers j) = PurchaseProcessor.PurchaseGift r gift ->
  PurchaseProcessor.rejects r gift ->
  ctxDone (answers (S j)) = None ->
  PurchaseProcessor.validationError (errs j)
  /\ exists rest,
      buyGiftWithRetry answers gift retryCount
      = flat_map
          (fun i =>
             failedAttempt (Tg.ID (GiftTypes.Gift gift)) retryCount i (errs i))
          (seq 0 (S j))
        ++ EvTryIncrement (tryIncrement (answers (S j))) :: rest.
Proof.
  intros Hj Hfail Hbuy Hrej Hctx. split.
  - destruct (PurchaseProcessorFacts.rejects_validationError r gift Hrej)
      as (err & Herr & Hval).
    destruct (Hfail j ltac:(lia)) as (_ & _ & Hj').
    rewrite Hbuy, Herr in Hj'. injection Hj' as <-. exact Hval.
  - unfold buyGiftWithRetry.
    replace (Z.to_nat retryCount)
      with (S j + S (Z.to_nat retryCount - S (S j)))%nat by lia.
    rewrite (retryLoop_failed_prefix answers errs) by (intros i Hi; apply Hfail; lia).
    cbn [Nat.add retryLoop]. rewrite Hctx.
    destruct (tryIncrement (answers (S j))); cbn [negb]; eexists; reflexivity.
Qed.

Lemma C7_validation_errors_are_retried_witness :
  PurchaseProcessor.validationError "insufficient balance to buy gift"%string
  /\ exists rest,
      buyGiftWithRetry balance_never_suffices request 2
      = [EvTryIncrement true; EvPurchaseGift; EvDecrement;
         EvSend (failed 1 (Some "insufficient balance to buy gift"%string));
         EvSleep;
         EvTryIncrement true] ++ rest.
Proof.
  refine (C7_validation_errors_are_retried balance_never_suffices
            (fun _ => "insufficient balance to buy gift"%string)
            request 2 0 poor_account _ _ eq_refl _ eq_refl).
  - lia.
  - intros i Hi. unfold fails. repeat split.
  - left. reflexivity.
Defined.

(** C7, the part that fails as stated: with [retryCount = 2] and a balance
    that never suffices, the pipeline is called a second time after the
    first insufficient-balance error. *)
Lemma C7_counterexample_insufficient_balance_retried :
  PurchaseProcessor.PurchaseGift poor_account request
  = Some "insufficient balance to buy gift"%string
  /\ purchaseCalls (buyGiftWithRetry balance_never_suffices request 2) = 2%nat
  /\ buyGiftWithRetry balance_never_suffices request 2
     = [EvTryIncrement true; EvPurchaseGift; EvDecrement;
        EvSend (failed 1 (Some "insufficient balance to buy gift"%string));
        EvSleep;
        EvTryIncrement true; EvPurchaseGift; EvDecrement;
        EvSend (failed 1 (Some "insufficient balance to buy gift"%string));
        EvSend (failed 1 (Some "insufficient balance to buy gift"%string))].
Proof. repeat split; vm_compute; reflexivity. Qed.

Lemma retryLoop_ext answers answers' giftID retryCount remaining j lastErr :
  (forall i, (j <= i)%nat -> answers i = answers' i) ->
  retryLoop answers giftID retryCount remaining j lastErr
  = retryLoop answers' giftID retryCount remaining j lastErr.
Proof.
  revert j lastErr. induction remaining as [|remaining IH];
    intros j lastErr Hext; [reflexivity|].
  cbn [retryLoop]. rewrite <- (Hext j) by lia.
  destruct (ctxDone (answers j)); [reflexivity|].
  destruct (tryIncrement (answers j)); [|reflexivity]. cbn [negb].
  destruct (purchase (answers j)); [|reflexivity].
  rewrite (IH (S j)) by (intros i Hi; apply Hext; lia). reflexivity.
Qed.

(** Every run against the atomic counter is a run of the loop for some
    answers of the counter. *)
Lemma retryLoopOn_refines ctx purchases giftID retryCount remaining :
  forall j lastErr ac,
  exists incs,
    (retryLoopOn ctx purchases giftID retryCount remaining j lastErr ac).1
    = retryLoop
        (fun i => {| ctxDone := ctx i; tryIncrement := incs i;
                     purchase := purchases i |})
        giftID retryCount remaining j lastErr.
Proof.
  induction remaining as [|remaining IH]; intros j lastErr ac.
  - exists (fun _ => true). reflexivity.
  - cbn [retryLoopOn retryLoop ctxDone tryIncrement purchase].
    destruct (ctx j) as [ctxErr|]; [exists (fun _ => true); reflexivity|].
    destruct (AtomicCounter.TryIncrement ac) as [[|] ac1]; cbn [negb].
    + destruct (purchases j) as [err|].
      * destruct (IH (S j) (Some err) (AtomicCounter.Decrement ac1))
          as [incs Hincs].
        destruct (retryLoopOn ctx purchases giftID retryCount remaining (S j)
                    (Some err) (AtomicCounter.Decrement ac1)) as [rest ac2].
        cbn [fst] in *.
        exists (fun i => if decide (i = j) then true else incs i).
        rewrite decide_True by reflexivity. cbn [negb].
        do 5 f_equal. rewrite Hincs. apply retryLoop_ext.
        intros i Hi. rewrite decide_False by lia. reflexivity.
      * exists (fun _ => true). reflexivity.
    + exists (fun _ => false). reflexivity.
Qed.

(** A unit leaves the counter where it found it, plus one when it bought:
    every reservation that did not end in a purchase is released. *)
Lemma retryLoopOn_counts ctx purchases giftID retryCount remaining :
  forall j lastErr ac,
  AtomicCounter.bounded ac -> 0 <= AtomicCounter.count ac ->
  AtomicCounter.max (retryLoopOn ctx purchases giftID retryCount remaining j
                       lastErr ac).2 = AtomicCounter.max ac
  /\ AtomicCounter.count
       (retryLoopOn ctx purchases giftID retryCount remaining j lastErr ac).2
     = AtomicCounter.count ac
       + purchased (retryLoopOn ctx purchases giftID retryCount remaining j
                      lastErr ac).1
  /\ purchased (retryLoopOn ctx purchases giftID retryCount remaining j
                  lastErr ac).1 <= 1
  /\ AtomicCounter.count
       (retryLoopOn ctx purchases giftID retryCount remaining j lastErr ac).2
     <= AtomicCounter.max ac.
Proof.
  induction remaining as [|remaining IH]; intros j lastErr ac Hb Hpos.
  - destruct Hb as [Hr [Hle Hmax]]. unfold purchased; simpl; lia.
  - cbn [retryLoopOn]. destruct Hb as [Hr [Hle Hmax]].
    destruct (ctx j) as [ctxErr|]; [unfold purchased; simpl; lia|].
    destruct (Z_lt_ge_dec (AtomicCounter.count ac) (AtomicCounter.max ac))
      as [Hlt|Hge].
    + rewrite AtomicCounterFacts.TryIncrement_below
        by (unfold Int64.in_range in Hr; lia).
      cbn [negb]. destruct (purchases j) as [err|].
      * rewrite AtomicCounterFacts.Decrement_count;
          cbn [AtomicCounter.count AtomicCounter.max];
          [| unfold Int64.min_int; lia
           | unfold Int64.in_range, Int64.min_int; lia].
        replace (AtomicCounter.count ac + 1 - 1) with (AtomicCounter.count ac)
          by lia.
        specialize (IH (S j) (Some err)
                      {| AtomicCounter.count := AtomicCounter.count ac;
                         AtomicCounter.max := AtomicCounter.max ac |}).
        cbn [AtomicCounter.count AtomicCounter.max] in IH.
        destruct (retryLoopOn ctx purchases giftID retryCount remaining (S j)
                    (Some err) _) as [rest ac2].
        cbn [fst snd] in *.
        assert (Hsame : purchased
                  (EvTryIncrement true :: EvPurchaseGift :: EvDecrement
                   :: EvSend (failed giftID (Some err))
                   :: (if Z.of_nat j <? retryCount - 1 then [EvSleep] else [])
                   ++ rest) = purchased rest).
        { unfold purchased. destruct (Z.of_nat j <? retryCount - 1); reflexivity. }
        rewrite Hsame. apply IH; [|exact Hpos].
        split; [exact Hr|]. cbn [AtomicCounter.count AtomicCounter.max]. lia.
      * unfold purchased; simpl; lia.
    + rewrite AtomicCounterFacts.TryIncrement_at_ceiling by lia. unfold purchased; simpl; lia.
Qed.

Lemma runUnits_counts units retryCount :
  forall ac,
  AtomicCounter.bounded ac -> 0 <= AtomicCounter.count ac ->
  AtomicCounter.max (runUnits units retryCount ac).2 = AtomicCounter.max ac
  /\ AtomicCounter.count (runUnits units retryCount ac).2
     = AtomicCounter.count ac + totalPurchased (runUnits units retryCount ac).1
  /\ AtomicCounter.count (runUnits units retryCount ac).2
     <= AtomicCounter.max ac.
Proof.
  induction units as [|u units IH]; intros ac Hb Hpos.
  - cbn. destruct Hb as [_ [Hle _]]. lia.
  - cbn [runUnits]. unfold buyGiftWithRetryOn.
    pose proof (retryLoopOn_counts (unitCtx u) (unitPurchases u)
                  (Tg.ID (GiftTypes.Gift (unitGift u))) retryCount
                  (Z.to_nat retryCount) 0 None ac Hb Hpos)
      as (Hmax1 & Hcount1 & Hone & Hle1).
    destruct (retryLoopOn _ _ _ _ _ _ _ ac) as [trace ac1].
    cbn [fst snd] in *.
    assert (Hp : 0 <= purchased trace) by (unfold purchased; lia).
    destruct Hb as [Hr [Hle Hmax]].
    assert (Hb1 : AtomicCounter.bounded ac1).
    { unfold AtomicCounter.bounded, Int64.in_range, Int64.min_int in *. lia. }
    specialize (IH ac1 Hb1 ltac:(lia)).
    destruct (runUnits units retryCount ac1) as [traces ac2].
    cbn [fst snd totalPurchased foldr] in *. lia.
Qed.

(** The budget in the prioritized mode: however many units run one after
    the other on a fresh counter of ceiling [C], and whatever their contexts
    and pipelines answer, they buy at most [C] gifts in all, and the counter
    ends at the number bought. *)
Theorem sequential_units_respect_budget units retryCount C :
  0 <= C <= Int64.max_int ->
  totalPurchased
    (runUnits units retryCount (AtomicCounter.NewAtomicCounter C)).1 <= C
  /\ AtomicCounter.Get
       (runUnits units retryCount (AtomicCounter.NewAtomicCounter C)).2
     = totalPurchased
         (runUnits units retryCount (AtomicCounter.NewAtomicCounter C)).1.
Proof.
  intros HC.
  destruct (runUnits_counts units retryCount (AtomicCounter.NewAtomicCounter C))
    as (_ & Hcount & Hle).
  - unfold AtomicCounter.bounded, Int64.in_range, Int64.min_int, Int64.max_int in *.
    cbn. lia.
  - cbn. lia.
  - unfold AtomicCounter.Get, AtomicCounter.LoadInt64.
    cbn [AtomicCounter.NewAtomicCounter AtomicCounter.count AtomicCounter.max]
      in Hcount, Hle.
    lia.
Qed.

(** End-to-end scenario: a counter of ceiling 2 and three units for the same
    gift, one after the other, with a pipeline that succeeds: two units go
    through the pipeline, the third is refused without calling it. *)
Example three_units_against_ceiling_two :
  let ctx := fun _ : nat => @None Errors.error in
  let ok := fun _ : nat => @None Errors.error in
  let '(t1, ac1) :=
    buyGiftWithRetryOn ctx ok request 3 (AtomicCounter.NewAtomicCounter 2) in
  let '(t2, ac2) := buyGiftWithRetryOn ctx ok request 3 ac1 in
  let '(t3, ac3) := buyGiftWithRetryOn ctx ok request 3 ac2 in
  t1 = [EvTryIncrement true; EvPurchaseGift; EvSend (succeeded 1)]
  /\ t2 = [EvTryIncrement true; EvPurchaseGift; EvSend (succeeded 1)]
  /\ t3 = [EvTryIncrement false;
           EvSend (failed 1 (Some "max buy count reached"%string))]
  /\ AtomicCounter.Get ac3 = 2.
Proof. vm_compute. repeat split. Qed.

(** *** What every unit does, whatever it is answered *)

Lemma reservations_app t1 t2 :
  reservations (t1 ++ t2) = (reservations t1 + reservations t2)%nat.
Proof. unfold reservations. rewrite List.filter_app, length_app. reflexivity. Qed.

Lemma releases_app t1 t2 :
  releases (t1 ++ t2) = (releases t1 + releases t2)%nat.
Proof. unfold releases. rewrite List.filter_app, length_app. reflexivity. Qed.

Lemma purchased_app t1 t2 : purchased (t1 ++ t2) = purchased t1 + purchased t2.
Proof.
  unfold purchased. rewrite outcomes_app, List.filter_app, length_app. lia.
Qed.

Lemma failedAttempt_counts giftID retryCount j err :
  reservations (failedAttempt giftID retryCount j err) = 1%nat
  /\ releases (failedAttempt giftID retryCount j err) = 1%nat
  /\ purchaseCalls (failedAttempt giftID retryCount j err) = 1%nat
  /\ purchased (failedAttempt giftID retryCount j err) = 0
  /\ outcomes (failedAttempt giftID retryCount j err)
     = [failed giftID (Some err)].
Proof.
  unfold failedAttempt. destruct (Z.of_nat j <? retryCount - 1);
    repeat split; reflexivity.
Qed.

Lemma retryLoop_failed_step answers giftID retryCount remaining j lastErr err :
  ctxDone (answers j) = None ->
  tryIncrement (answers j) = true ->
  purchase (answers j) = Some err ->
  retryLoop answers giftID retryCount (S remaining) j lastErr
  = failedAttempt giftID retryCount j err
    ++ retryLoop answers giftID retryCount remaining (S j) (Some err).
Proof.
  intros Hctx Hinc Hbuy. cbn [retryLoop]. rewrite Hctx, Hinc, Hbuy.
  reflexivity.
Qed.

Lemma retryLoop_balance answers giftID retryCount remaining :
  forall j lastErr,
  reservations (retryLoop answers giftID retryCount remaining j lastErr)
  = purchaseCalls (retryLoop answers giftID retryCount remaining j lastErr)
  /\ (purchaseCalls (retryLoop answers giftID retryCount remaining j lastErr)
      <= remaining)%nat
  /\ Z.of_nat
       (reservations (retryLoop answers giftID retryCount remaining j lastErr))
     = Z.of_nat
         (releases (retryLoop answers giftID retryCount remaining j lastErr))
       + purchased (retryLoop answers giftID retryCount remaining j lastErr)
  /\ 0 <= purchased (retryLoop answers giftID retryCount remaining j lastErr)
     <= 1.
Proof.
  induction remaining as [|remaining IH]; intros j lastErr.
  - cbn. unfold purchased. cbn. lia.
  - destruct (ctxDone (answers j)) as [ctxErr|] eqn:Hctx.
    { cbn [retryLoop]. rewrite Hctx. cbn. unfold purchased. cbn. lia. }
    destruct (tryIncrement (answers j)) eqn:Hinc.
    2:{ cbn [retryLoop]. rewrite Hctx, Hinc. cbn. unfold purchased. cbn. lia. }
    destruct (purchase (answers j)) as [err|] eqn:Hbuy.
    2:{ cbn [retryLoop]. rewrite Hctx, Hinc, Hbuy. cbn. unfold purchased.
        cbn. lia. }
    rewrite (retryLoop_failed_step _ _ _ _ _ _ err Hctx Hinc Hbuy).
    rewrite reservations_app, releases_app, purchaseCalls_app, purchased_app.
    destruct (failedAttempt_counts giftID retryCount j err)
      as (-> & -> & -> & -> & _).
    specialize (IH (S j) (Some err)). lia.
Qed.

(** X5. Whatever the context, the counter and the pipeline answer, a unit
    calls the pipeline once for each reservation it takes and at most
    [retryCount] times; it gives back every reservation except the one of a
    purchase, and it buys at most one gift. *)
Theorem unit_releases_all_but_a_purchase answers gift retryCount :
  reservations (buyGiftWithRetry answers gift retryCount)
  = purchaseCalls (buyGiftWithRetry answers gift retryCount)
  /\ (purchaseCalls (buyGiftWithRetry answers gift retryCount)
      <= Z.to_nat retryCount)%nat
  /\ Z.of_nat (reservations (buyGiftWithRetry answers gift retryCount))
     = Z.of_nat (releases (buyGiftWithRetry answers gift retryCount))
       + purchased (buyGiftWithRetry answers gift retryCount)
  /\ 0 <= purchased (buyGiftWithRetry answers gift retryCount) <= 1.
Proof. apply retryLoop_balance. Qed.

Lemma retryLoop_outcomes_shape answers giftID retryCount remaining :
  forall j lastErr,
  exists fs l,
    outcomes (retryLoop answers giftID retryCount remaining j lastErr)
    = fs ++ [l]
    /\ (length fs <= remaining)%nat
    /\ Forall (fun r => GiftTypes.GiftID r = giftID
                        /\ GiftTypes.Success r = false
                        /\ GiftTypes.Err r <> None) fs
    /\ GiftTypes.GiftID l = giftID
    /\ (GiftTypes.Success l = true -> GiftTypes.Err l = None)
    /\ (GiftTypes.Success l = false -> GiftTypes.Err l = None ->
        remaining = 0%nat /\ lastErr = None).
Proof.
  induction remaining as [|remaining IH]; intros j lastErr.
  - exists [], (failed giftID lastErr). cbn.
    repeat split; auto; discriminate.
  - destruct (ctxDone (answers j)) as [ctxErr|] eqn:Hctx.
    { exists [], (failed giftID (Some ctxErr)). cbn [retryLoop]. rewrite Hctx.
      cbn. repeat split; auto with lia; discriminate. }
    destruct (tryIncrement (answers j)) eqn:Hinc.
    2:{ exists [], (failed giftID (Some maxBuyCountReached)).
        cbn [retryLoop]. rewrite Hctx, Hinc.
        cbn. repeat split; auto with lia; discriminate. }
    destruct (purchase (answers j)) as [err|] eqn:Hbuy.
    2:{ exists [], (succeeded giftID). cbn [retryLoop]. rewrite Hctx, Hinc, Hbuy.
        cbn. repeat split; auto with lia; discriminate. }
    rewrite (retryLoop_failed_step _ _ _ _ _ _ err Hctx Hinc Hbuy), outcomes_app.
    destruct (failedAttempt_counts giftID retryCount j err)
      as (_ & _ & _ & _ & ->).
    destruct (IH (S j) (Some err)) as (fs & l & -> & Hlen & Hfs & Hid & Hok & Hnil).
    exists (failed giftID (Some err) :: fs), l.
    split; [reflexivity|]. split; [cbn; lia|]. split.
    { constructor; [|exact Hfs]. cbn. repeat split; discriminate. }
    split; [exact Hid|]. split; [exact Hok|].
    intros Hfail Herr. destruct (Hnil Hfail Herr) as [_ Habs]. discriminate Habs.
Qed.

(** X6. The outcomes a unit sends are a run of at most [retryCount] failures,
    each with an error, followed by one last outcome; all carry the gift's
    identifier. A successful last outcome carries no error, and a failed one
    carries none exactly when [retryCount] is not positive, the loop never
    having run. *)
Theorem unit_outcomes_are_failures_then_one_last answers gift retryCount :
  exists fs l,
    outcomes (buyGiftWithRetry answers gift retryCount) = fs ++ [l]
    /\ (length fs <= Z.to_nat retryCount)%nat
    /\ Forall (fun r => GiftTypes.GiftID r = Tg.ID (GiftTypes.Gift gift)
                        /\ GiftTypes.Success r = false
                        /\ GiftTypes.Err r <> None) fs
    /\ GiftTypes.GiftID l = Tg.ID (GiftTypes.Gift gift)
    /\ (GiftTypes.Success l = true -> GiftTypes.Err l = None)
    /\ (GiftTypes.Success l = false ->
        (GiftTypes.Err l = None <-> retryCount <= 0)).
Proof.
  unfold buyGiftWithRetry.
  destruct (retryLoop_outcomes_shape answers (Tg.ID (GiftTypes.Gift gift))
              retryCount (Z.to_nat retryCount) 0 None)
    as (fs & l & Hout & Hlen & Hfs & Hid & Hok & Hnil).
  exists fs, l. repeat split; try assumption.
  - intros Herr. destruct (Hnil H Herr) as [Hz _]. lia.
  - intros Hrc. replace (Z.to_nat retryCount) with 0%nat in Hout by lia.
    cbn in Hout. destruct fs as [|f fs].
    + injection Hout as <-. reflexivity.
    + destruct fs; discriminate Hout.
Qed.

(** X7. Cancellation is looked for at the head of every attempt: when the
    context is done as attempt [j] begins (the attempts before it ran the
    pipeline and failed), the unit sends one failed outcome with
    [ctx.Err()] and returns without asking the counter or the pipeline
    again. *)
Theorem cancelled_unit_reports_context_error answers errs gift retryCount j
    ctxErr :
  Z.of_nat j < retryCount ->
  (forall i, (i < j)%nat -> fails answers errs i) ->
  ctxDone (answers j) = Some ctxErr ->
  buyGiftWithRetry answers gift retryCount
  = flat_map
      (fun i => failedAttempt (Tg.ID (GiftTypes.Gift gift)) retryCount i (errs i))
      (seq 0 j)
    ++ [EvSend (failed (Tg.ID (GiftTypes.Gift gift)) (Some ctxErr))]
  /\ purchaseCalls (buyGiftWithRetry answers gift retryCount) = j
  /\ reservations (buyGiftWithRetry answers gift retryCount)
     = releases (buyGiftWithRetry answers gift retryCount).
Proof.
  intros Hj Hfail Hctx.
  assert (Htrace : buyGiftWithRetry answers gift retryCount
    = flat_map
        (fun i => failedAttempt (Tg.ID (GiftTypes.Gift gift)) retryCount i (errs i))
        (seq 0 j)
      ++ [EvSend (failed (Tg.ID (GiftTypes.Gift gift)) (Some ctxErr))]).
  { unfold buyGiftWithRetry.
    replace (Z.to_nat retryCount)
      with (j + S (Z.to_nat retryCount - S j))%nat by lia.
    rewrite (retryLoop_failed_prefix answers errs) by (intros i Hi; apply Hfail; lia).
    f_equal. cbn [Nat.add retryLoop]. rewrite Hctx. reflexivity. }
  split; [exact Htrace|]. split.
  - rewrite Htrace, purchaseCalls_app, purchaseCalls_failed_prefix. cbn. lia.
  - destruct (retryLoop_balance answers (Tg.ID (GiftTypes.Gift gift)) retryCount
                (Z.to_nat retryCount) 0 None) as (_ & _ & Hbal & _).
    fold (buyGiftWithRetry answers gift retryCount) in Hbal.
    assert (Hp : purchased (buyGiftWithRetry answers gift retryCount) = 0).
    { rewrite Htrace, purchased_app. unfold purchased at 1.
      rewrite outcomes_failed_prefix.
      assert (Hnone : forall l : list nat,
                List.filter GiftTypes.Success
                  (map (fun i => failed (Tg.ID (GiftTypes.Gift gift))
                                   (Some (errs i))) l) = []).
      { induction l as [|x l IHl]; [reflexivity|exact IHl]. }
      rewrite Hnone. reflexivity. }
    lia.
Qed.

Lemma cancelled_unit_reports_context_error_witness :
  buyGiftWithRetry cancelled_after_one request 3
  = [EvTryIncrement true; EvPurchaseGift; EvDecrement;
     EvSend (failed 1 (Some "failed to send stars form: timeout"%string));
     EvSleep;
     EvSend (failed 1 (Some "context canceled"%string))].
Proof.
  refine (proj1 (cancelled_unit_reports_context_error cancelled_after_one
                   (fun _ => "failed to send stars form: timeout"%string)
                   request 3 1 "context canceled"%string _ _ eq_refl)).
  - lia.
  - intros i Hi. assert (i = 0%nat) as -> by lia.
    unfold fails. repeat split.
Defined.

(** *** Buying by priority *)

Lemma runUnits_length units retryCount :
  forall ac, length (runUnits units retryCount ac).1 = length units.
Proof.
  induction units as [|u units IH]; intros ac; [reflexivity|].
  cbn [runUnits].
  destruct (buyGiftWithRetryOn _ _ _ _ ac) as [trace ac1].
  specialize (IH ac1). destruct (runUnits units retryCount ac1) as [traces ac2].
  cbn [fst length] in *. lia.
Qed.

Lemma runUnits_purchased_le_length units retryCount :
  forall ac,
  0 <= totalPurchased (runUnits units retryCount ac).1
    <= Z.of_nat (length units).
Proof.
  induction units as [|u units IH]; intros ac; [cbn; lia|].
  cbn [runUnits]. unfold buyGiftWithRetryOn.
  destruct (retryLoopOn_refines (unitCtx u) (unitPurchases u)
              (Tg.ID (GiftTypes.Gift (unitGift u))) retryCount
              (Z.to_nat retryCount) 0 None ac) as [incs Hincs].
  destruct (retryLoop_balance
              (fun i => {| ctxDone := unitCtx u i; tryIncrement := incs i;
                           purchase := unitPurchases u i |})
              (Tg.ID (GiftTypes.Gift (unitGift u))) retryCount
              (Z.to_nat retryCount) 0 None) as (_ & _ & _ & Hone).
  rewrite <- Hincs in Hone.
  destruct (retryLoopOn _ _ _ _ _ _ _ ac) as [trace ac1].
  specialize (IH ac1). destruct (runUnits units retryCount ac1) as [traces ac2].
  unfold totalPurchased in *. cbn [fst length foldr] in *. lia.
Qed.

Lemma unitsOf_Permutation gifts sorted :
  sorted ≡ₚ gifts -> length (unitsOf sorted) = length (unitsOf gifts).
Proof.
  intros Hperm. apply Permutation_length. unfold unitsOf.
  apply Permutation_flat_map. exact Hperm.
Qed.

Lemma unitsOf_length gifts :
  Z.of_nat (length (unitsOf gifts))
  = foldr (fun gift total => Z.max 0 (GiftTypes.CountForBuy gift) + total) 0
      gifts.
Proof.
  induction gifts as [|gift gifts IH]; [reflexivity|].
  unfold unitsOf in *. cbn [flat_map foldr].
  rewrite length_app, length_replicate. lia.
Qed.

(** X8. The prioritized mode runs one unit for each requested copy, whatever
    order the sort leaves the requests in, and against a fresh counter of
    ceiling [C] the units together buy no more than [C] gifts and no more
    than were requested; the counter ends at the number bought. *)
Theorem prioritized_purchases_within_budget_and_request sortSlice ctx purchases
    gifts retryCount C :
  0 <= C <= Int64.max_int ->
  sortSliceResult gifts (sortSlice gifts) ->
  Z.of_nat
    (length (prioritizationBuy sortSlice ctx purchases gifts retryCount
               (AtomicCounter.NewAtomicCounter C)).1)
  = foldr (fun gift total => Z.max 0 (GiftTypes.CountForBuy gift) + total) 0
      gifts
  /\ 0 <= totalPurchased
            (prioritizationBuy sortSlice ctx purchases gifts retryCount
               (AtomicCounter.NewAtomicCounter C)).1
       <= Z.min C
            (foldr (fun gift total =>
                      Z.max 0 (GiftTypes.CountForBuy gift) + total) 0 gifts)
  /\ AtomicCounter.Get
       (prioritizationBuy sortSlice ctx purchases gifts retryCount
          (AtomicCounter.NewAtomicCounter C)).2
     = totalPurchased
         (prioritizationBuy sortSlice ctx purchases gifts retryCount
            (AtomicCounter.NewAtomicCounter C)).1.
Proof.
  intros HC [Hperm _]. unfold prioritizationBuy.
  set (units := imap (fun k gift => mkUnit (ctx k) (purchases k) gift)
                  (unitsOf (sortSlice gifts))).
  assert (Hlen : Z.of_nat (length units)
                 = foldr (fun gift total =>
                            Z.max 0 (GiftTypes.CountForBuy gift) + total) 0
                     gifts).
  { unfold units. rewrite length_imap, (unitsOf_Permutation gifts) by exact Hperm.
    apply unitsOf_length. }
  pose proof (runUnits_length units retryCount
                (AtomicCounter.NewAtomicCounter C)) as Hn.
  pose proof (runUnits_purchased_le_length units retryCount
                (AtomicCounter.NewAtomicCounter C)) as Hp.
  destruct (sequential_units_respect_budget units retryCount C HC)
    as [Hle Hget].
  split; [lia|]. split; [lia|exact Hget].
Qed.

Lemma prioritized_purchases_within_budget_and_request_witness :
  0 <= totalPurchased
         (prioritizationBuy dearest_first (fun _ _ => None) (fun _ _ => None)
            two_requests 3 (AtomicCounter.NewAtomicCounter 4)).1
    <= Z.min 4 5.
Proof.
  refine (proj1 (proj2
    (prioritized_purchases_within_budget_and_request dearest_first
       (fun _ _ => None) (fun _ _ => None) two_requests 3 4 _ _))).
  - unfold Int64.max_int. lia.
  - split.
    + apply merge_sort_Permutation.
    + change (dearest_first two_requests) with [dear_request; request].
      unfold byStars. repeat constructor. simpl. lia.
Defined.

Lemma StronglySorted_lookup {A} (R : relation A) l i j x y :
  StronglySorted R l -> (i < j)%nat ->
  l !! i = Some x -> l !! j = Some y -> R x y.
Proof.
  intros Hs. revert i j. induction Hs as [|a l Hs IH Hall]; intros i j Hij Hi Hj.
  - rewrite lookup_nil in Hi. discriminate Hi.
  - destruct j as [|j]; [lia|]. cbn in Hj. destruct i as [|i].
    + cbn in Hi. injection Hi as <-.
      rewrite Forall_forall in Hall. apply Hall.
      eapply list_elem_of_lookup_2. exact Hj.
    + cbn in Hi. apply (IH i j); [lia|exact Hi|exact Hj].
Qed.

Lemma unitsOf_sorted gifts :
  StronglySorted byStars gifts -> StronglySorted byStars (unitsOf gifts).
Proof.
  induction 1 as [|gift gifts Hs IH Hall]; [constructor|].
  unfold unitsOf in *. cbn [flat_map]. apply StronglySorted_app_2.
  - intros x1 x2 Hx1 Hx2. apply elem_of_replicate in Hx1 as [-> _].
    apply list_elem_of_In, in_flat_map in Hx2 as (g & Hg & Hx2).
    apply list_elem_of_In, elem_of_replicate in Hx2 as [-> _].
    rewrite Forall_forall in Hall. apply Hall, list_elem_of_In, Hg.
  - generalize (Z.to_nat (GiftTypes.CountForBuy gift)). intros n.
    induction n as [|n IHn]; [constructor|]. cbn [replicate].
    constructor; [exact IHn|]. apply Forall_forall. intros x Hx.
    apply elem_of_replicate in Hx as [-> _].
    unfold byStars. lia.
  - exact IH.
Qed.

(** The units of a pipeline that answers at once, one after the other on the
    same counter: those that still find room buy, the others are refused. *)
Lemma runUnits_all_succeed units retryCount :
  1 <= retryCount ->
  Forall (fun u => unitCtx u 0%nat = None /\ unitPurchases u 0%nat = None)
    units ->
  forall ac k u,
  AtomicCounter.bounded ac ->
  units !! k = Some u ->
  (runUnits units retryCount ac).1 !! k
  = Some (if AtomicCounter.count ac + Z.of_nat k <? AtomicCounter.max ac
          then [EvTryIncrement true; EvPurchaseGift;
                EvSend (succeeded (Tg.ID (GiftTypes.Gift (unitGift u))))]
          else [EvTryIncrement false;
                EvSend (failed (Tg.ID (GiftTypes.Gift (unitGift u)))
                          (Some maxBuyCountReached))]).
Proof.
  intros Hrc Hall. induction Hall as [|v units [Hctx Hbuy] Hall IH];
    intros ac k u Hb Hk.
  - rewrite lookup_nil in Hk. discriminate Hk.
  - cbn [runUnits]. unfold buyGiftWithRetryOn.
    destruct (Z.to_nat retryCount) as [|n] eqn:Hn; [lia|].
    cbn [retryLoopOn]. rewrite Hctx, Hbuy.
    destruct Hb as [Hr [Hle Hmax]].
    destruct (Z_lt_ge_dec (AtomicCounter.count ac) (AtomicCounter.max ac))
      as [Hlt|Hge].
    + rewrite AtomicCounterFacts.TryIncrement_below
        by (unfold Int64.in_range in Hr; lia).
      cbn [negb].
      specialize (IH {| AtomicCounter.count := AtomicCounter.count ac + 1;
                        AtomicCounter.max := AtomicCounter.max ac |}).
      destruct (runUnits units retryCount _) as [traces ac2].
      cbn [fst AtomicCounter.count AtomicCounter.max] in *.
      destruct k as [|k].
      * injection Hk as ->. cbn [lookup list_lookup].
        destruct (Z.ltb_spec (AtomicCounter.count ac + Z.of_nat 0)
                    (AtomicCounter.max ac)); [reflexivity|lia].
      * refine (eq_trans (IH k u _ Hk) _).
        -- unfold AtomicCounter.bounded, Int64.in_range, Int64.min_int in *.
           cbn [AtomicCounter.count AtomicCounter.max]. lia.
        -- replace (AtomicCounter.count ac + 1 + Z.of_nat k)
             with (AtomicCounter.count ac + Z.of_nat (S k)) by lia.
           reflexivity.
    + rewrite AtomicCounterFacts.TryIncrement_at_ceiling by lia.
      cbn [negb]. specialize (IH ac).
      destruct (runUnits units retryCount ac) as [traces ac2].
      cbn [fst] in *. destruct k as [|k].
      * injection Hk as ->. cbn [lookup list_lookup].
        destruct (Z.ltb_spec (AtomicCounter.count ac + Z.of_nat 0)
                    (AtomicCounter.max ac)); [lia|reflexivity].
      * refine (eq_trans (IH k u _ Hk) _).
        -- exact (conj Hr (conj Hle Hmax)).
        -- destruct (Z.ltb_spec (AtomicCounter.count ac + Z.of_nat k)
                       (AtomicCounter.max ac)); [lia|].
           destruct (Z.ltb_spec (AtomicCounter.count ac + Z.of_nat (S k))
                       (AtomicCounter.max ac)); [lia|reflexivity].
Qed.

(** X9. With a pipeline that answers at once and a context that is not done,
    the prioritized mode spends the budget on the most expensive requests:
    the units run in an order in which no unit is cheaper than a later one,
    the first [C] of them buy, and each of the others is refused by the
    counter without calling the pipeline. *)
Theorem prioritized_budget_goes_to_dearest sortSlice ctx purchases gifts
    retryCount C :
  0 <= C <= Int64.max_int ->
  1 <= retryCount ->
  sortSliceResult gifts (sortSlice gifts) ->
  (forall k, ctx k 0%nat = None /\ purchases k 0%nat = None) ->
  (forall i j gi gj,
     (i < j)%nat ->
     unitsOf (sortSlice gifts) !! i = Some gi ->
     unitsOf (sortSlice gifts) !! j = Some gj ->
     Tg.Stars (GiftTypes.Gift gj) <= Tg.Stars (GiftTypes.Gift gi))
  /\ forall k gift,
     unitsOf (sortSlice gifts) !! k = Some gift ->
     (prioritizationBuy sortSlice ctx purchases gifts retryCount
        (AtomicCounter.NewAtomicCounter C)).1 !! k
     = Some (if Z.of_nat k <? C
             then [EvTryIncrement true; EvPurchaseGift;
                   EvSend (succeeded (Tg.ID (GiftTypes.Gift gift)))]
             else [EvTryIncrement false;
                   EvSend (failed (Tg.ID (GiftTypes.Gift gift))
                             (Some maxBuyCountReached))]).
Proof.
  intros HC Hrc [_ Hsorted] Hok. split.
  - intros i j gi gj Hij Hi Hj.
    exact (StronglySorted_lookup byStars _ i j gi gj
             (unitsOf_sorted _ Hsorted) Hij Hi Hj).
  - intros k gift Hk. unfold prioritizationBuy.
    rewrite (runUnits_all_succeed _ retryCount Hrc) with (u := mkUnit (ctx k) (purchases k) gift).
    + reflexivity.
    + apply Forall_forall. intros u Hu.
      apply elem_of_lookup_imap in Hu as (i & g & -> & _).
      apply Hok.
    + unfold AtomicCounter.bounded, Int64.in_range, Int64.min_int,
        Int64.max_int in *. cbn. lia.
    + rewrite list_lookup_imap, Hk. reflexivity.
Qed.

Lemma prioritized_budget_goes_to_dearest_witness :
  (prioritizationBuy dearest_first (fun _ _ => None) (fun _ _ => None)
     two_requests 3 (AtomicCounter.NewAtomicCounter 3)).1
  = [[EvTryIncrement true; EvPurchaseGift; EvSend (succeeded 7)];
     [EvTryIncrement true; EvPurchaseGift; EvSend (succeeded 7)];
     [EvTryIncrement true; EvPurchaseGift; EvSend (succeeded 1)];
     [EvTryIncrement false;
      EvSend (failed 1 (Some "max buy count reached"%string))];
     [EvTryIncrement false;
      EvSend (failed 1 (Some "max buy count reached"%string))]].
Proof.
  assert (Hsorted : sortSliceResult two_requests (dearest_first two_requests)).
  { split.
    - apply merge_sort_Permutation.
    - change (dearest_first two_requests) with [dear_request; request].
      unfold byStars. repeat constructor. simpl. lia. }
  pose proof (proj2 (prioritized_budget_goes_to_dearest dearest_first
    (fun _ _ => None) (fun _ _ => None) two_requests 3 3
    ltac:(unfold Int64.max_int; lia) ltac:(lia) Hsorted
    (fun _ => conj eq_refl eq_refl))) as H.
  apply list_eq. intros k.
  destruct k as [|[|[|[|[|k]]]]].
  - exact (H 0%nat dear_request eq_refl).
  - exact (H 1%nat dear_request eq_refl).
  - exact (H 2%nat request eq_refl).
  - exact (H 3%nat request eq_refl).
  - exact (H 4%nat request eq_refl).
  - reflexivity.
Defined.

End GiftBuyerFacts.

(** ** Properties: Purchase reporting *)

Module GiftBuyerMonitoringFacts.
Import GiftBuyerMonitoring.
Local Open Scope Z_scope.

(** *** The most frequent error *)

Lemma foldl_moreFrequent l :
  forall best,
  best.2 <= (foldl moreFrequent best l).2
  /\ Forall (fun entry => entry.2 <= (foldl moreFrequent best l).2) l
  /\ (foldl moreFrequent best l = best \/ foldl moreFrequent best l ∈ l).
Proof.
  induction l as [|x l IH]; intros best.
  - cbn. split; [lia|]. split; [constructor|left; reflexivity].
  - cbn [foldl]. destruct (IH (moreFrequent best x)) as (Hle & Hall & Hin).
    assert (Hstep : best.2 <= (moreFrequent best x).2
                    /\ x.2 <= (moreFrequent best x).2
                    /\ (moreFrequent best x = best \/ moreFrequent best x = x)).
    { unfold moreFrequent.
      destruct (Z.ltb_spec best.2 x.2); repeat split; lia || auto. }
    destruct Hstep as (Hb & Hx & Hcase).
    split; [lia|]. split.
    + constructor; [lia|exact Hall].
    + destruct Hin as [Heq|Hin].
      * rewrite Heq. destruct Hcase as [->| ->]; [left; reflexivity|].
        right. apply list_elem_of_here.
      * right. apply list_elem_of_further. exact Hin.
Qed.

(** X10. Whatever order the map is ranged over, with counts that are all
    positive [getMostFrequentError] returns nil for an empty map only, and
    otherwise an error whose text is a key of the map with a count no other
    key exceeds. *)
Theorem most_frequent_error_has_greatest_count rangeErrors errorCounts :
  rangeErrors errorCounts ≡ₚ map_to_list errorCounts ->
  map_Forall (fun _ count => 0 < count) errorCounts ->
  match getMostFrequentError rangeErrors errorCounts with
  | None => errorCounts = ∅
  | Some msg =>
      exists count,
        errorCounts !! msg = Some count
        /\ map_Forall (fun _ count' => count' <= count) errorCounts
  end.
Proof.
  intros Hperm Hpos. unfold getMostFrequentError.
  destruct (decide (size errorCounts = 0%nat)) as [Hsize|Hsize].
  { apply map_size_empty_iff. exact Hsize. }
  destruct (foldl_moreFrequent (rangeErrors errorCounts) (EmptyString, 0))
    as (_ & Hall & Hin).
  set (best := foldl moreFrequent (EmptyString, 0) (rangeErrors errorCounts)) in *.
  assert (Hbound : map_Forall (fun _ count' => count' <= best.2) errorCounts).
  { intros msg' count' Hlook. rewrite Forall_forall in Hall.
    apply (Hall (msg', count')). rewrite Hperm.
    apply elem_of_map_to_list. exact Hlook. }
  exists best.2. split; [|exact Hbound].
  destruct Hin as [Heq|Hin].
  - exfalso. destruct (map_to_list errorCounts) as [|[msg' count'] rest] eqn:Hlist.
    + apply map_to_list_empty_iff in Hlist. apply Hsize.
      rewrite Hlist. apply map_size_empty.
    + assert (Hlook : errorCounts !! msg' = Some count').
      { apply elem_of_map_to_list. rewrite Hlist. apply list_elem_of_here. }
      pose proof (Hpos _ _ Hlook) as H1. pose proof (Hbound _ _ Hlook) as H2.
      cbn in H1, H2. rewrite Heq in H2. cbn in H2. lia.
  - unfold Errors.New. apply elem_of_map_to_list. rewrite <- Hperm.
    destruct best as [msg count]. exact Hin.
Qed.

Lemma most_frequent_error_has_greatest_count_witness :
  exists count,
    ({["timeout" := 1; "max buy count reached" := 3]} : gmap string Z)
      !! "max buy count reached"%string = Some count
    /\ map_Forall (fun _ count' => count' <= count)
         ({["timeout" := 1; "max buy count reached" := 3]} : gmap string Z).
Proof.
  refine (most_frequent_error_has_greatest_count listedErrors
            {["timeout"%string := 1; "max buy count reached"%string := 3]}
            _ _).
  - reflexivity.
  - intros msg count Hlook.
    apply lookup_insert_Some in Hlook as [[_ <-]|[_ Hlook]]; [lia|].
    apply lookup_singleton_Some in Hlook as [_ <-]. lia.
Defined.

(** *** The tallies *)

Lemma sumOf_Permutation f l1 l2 : l1 ≡ₚ l2 -> sumOf f l1 = sumOf f l2.
Proof.
  unfold sumOf.
  induction 1 as [|x l1 l2 _ IH|x y l|l1 l2 l3 _ IH1 _ IH2]; cbn in *; lia.
Qed.

Lemma sumOf_insert f (s : gmap Z GiftSummary) id sm sm' :
  s !! id = Some sm ->
  sumOf f (map_to_list (<[id := sm']> s))
  = sumOf f (map_to_list s) - f sm + f sm'.
Proof.
  intros Hlook.
  rewrite <- (sumOf_Permutation f _ _ (map_to_list_delete s id sm Hlook)).
  rewrite <- insert_delete_eq.
  rewrite (sumOf_Permutation f _ _
             (map_to_list_insert (delete id s) id sm' (lookup_delete_eq s id))).
  cbn. lia.
Qed.

Lemma sumOf_insert_fresh f (s : gmap Z GiftSummary) id sm :
  s !! id = None ->
  sumOf f (map_to_list (<[id := sm]> s)) = f sm + sumOf f (map_to_list s).
Proof.
  intros Hlook.
  rewrite (sumOf_Permutation f _ _ (map_to_list_insert s id sm Hlook)).
  reflexivity.
Qed.

Lemma totals_from l :
  forall a b,
  foldl
    (fun total (entry : Z * GiftSummary) =>
       (Int64.add total.1 (Success entry.2),
        Int64.add total.2 (Requested entry.2)))
    (Int64.wrap a, Int64.wrap b) l
  = (Int64.wrap (a + sumOf Success l), Int64.wrap (b + sumOf Requested l)).
Proof.
  induction l as [|x l IH]; intros a b.
  - cbn. rewrite !Z.add_0_r. reflexivity.
  - cbn [foldl fst snd]. unfold Int64.add.
    rewrite !Int64Facts.wrap_wrap_add, IH. unfold sumOf. cbn [foldr].
    f_equal; f_equal; lia.
Qed.

Lemma totals_sum rangeTotals (s : gmap Z GiftSummary) :
  rangeTotals s ≡ₚ map_to_list s ->
  totals rangeTotals s
  = (Int64.wrap (sumOf Success (map_to_list s)),
     Int64.wrap (sumOf Requested (map_to_list s))).
Proof.
  intros Hperm. unfold totals.
  change (0, 0) with (Int64.wrap 0, Int64.wrap 0).
  rewrite totals_from.
  rewrite !(sumOf_Permutation _ _ _ Hperm). reflexivity.
Qed.

Lemma successesOf_cons id r results :
  successesOf id (r :: results)
  = (if GiftTypes.Success r && (GiftTypes.GiftID r =? id) then 1 else 0)
    + successesOf id results.
Proof.
  unfold successesOf. cbn [List.filter].
  destruct (GiftTypes.Success r && (GiftTypes.GiftID r =? id));
    cbn [length]; lia.
Qed.

Lemma failuresWith_cons msg r results :
  failuresWith msg (r :: results)
  = (if negb (GiftTypes.Success r)
        && bool_decide (GiftTypes.Err r = Some msg) then 1 else 0)
    + failuresWith msg results.
Proof.
  unfold failuresWith. cbn [List.filter].
  destruct (negb (GiftTypes.Success r)
            && bool_decide (GiftTypes.Err r = Some msg));
    cbn [length]; lia.
Qed.

Lemma successCount_cons r results :
  successCount (r :: results)
  = (if GiftTypes.Success r then 1 else 0) + successCount results.
Proof.
  unfold successCount. cbn [List.filter].
  destruct (GiftTypes.Success r); cbn [length]; lia.
Qed.

Lemma failuresWith_nonneg msg results : 0 <= failuresWith msg results.
Proof. unfold failuresWith. lia. Qed.

Section Ranges.

Variable rangeErrors : gmap string Z -> list (string * Z).
Variable rangeTotals rangeReport
  : gmap Z GiftSummary -> list (Z * GiftSummary).

Local Abbreviation monitorLoop :=
  (monitorLoop rangeErrors rangeTotals rangeReport).
Local Abbreviation MonitorProcess :=
  (MonitorProcess rangeErrors rangeTotals rangeReport).

Lemma monitorLoop_results setBot results :
  forall s0 e0,
  map_Forall (fun _ summary => Int64.in_range (Success summary)) s0 ->
  Forall (fun r => GiftTypes.Success r = true ->
                   is_Some (s0 !! GiftTypes.GiftID r)) results ->
  exists log s e,
    monitorLoop setBot (Result <$> results) s0 e0 = (log, Waiting s e)
    /\ logsOnly log
    /\ (forall id, s !! id = withSuccesses (successesOf id results) <$> s0 !! id)
    /\ (forall msg,
          e !! msg
          = if decide (failuresWith msg results = 0) then e0 !! msg
            else Some (Int64.wrap (default 0 (e0 !! msg)
                                   + failuresWith msg results)))
    /\ Int64.wrap (sumOf Success (map_to_list s))
       = Int64.wrap (sumOf Success (map_to_list s0) + successCount results)
    /\ sumOf Requested (map_to_list s) = sumOf Requested (map_to_list s0).
Proof.
  induction results as [|r results IH]; intros s0 e0 Hrange Hreq.
  - exists [], s0, e0. cbn. split; [reflexivity|]. split; [constructor|].
    split; [|split; [reflexivity|split; [f_equal; unfold successCount; cbn; lia
                                        |reflexivity]]].
    intros id. destruct (s0 !! id) as [sm|] eqn:Hlook; [|reflexivity].
    cbn. f_equal. unfold withSuccesses, successesOf. cbn.
    rewrite Z.add_0_r, Int64Facts.wrap_id by exact (Hrange _ _ Hlook).
    destruct sm; reflexivity.
  - apply Forall_cons in Hreq as [Hr Hreq].
    cbn [fmap list_fmap monitorLoop].
    change (list_fmap _ _ Result results) with (Result <$> results).
    destruct (GiftTypes.Success r) eqn:Hok.
    + destruct (Hr eq_refl) as [sm Hlook]. rewrite Hlook.
      destruct (IH (<[GiftTypes.GiftID r := incrementSuccess sm]> s0) e0)
        as (log & s & e & Hrun & Hlog & Hs & He & Hsum & Hrq).
      { apply map_Forall_insert_2; [|exact Hrange].
        cbn. apply Int64Facts.wrap_in_range. }
      { eapply Forall_impl; [exact Hreq|]. intros r' Hr' Hok'.
        apply lookup_insert_is_Some'. right. exact (Hr' Hok'). }
      rewrite Hrun. eexists _, s, e. split; [reflexivity|].
      split; [constructor; [exact I|exact Hlog]|].
      split; [|split; [|split]].
      * intros id. rewrite Hs, successesOf_cons, Hok. cbn [andb].
        destruct (Z.eqb_spec (GiftTypes.GiftID r) id) as [<-|Hne].
        -- rewrite lookup_insert_eq, Hlook. cbn. f_equal.
           unfold withSuccesses, incrementSuccess, Int64.add. cbn.
           rewrite Int64Facts.wrap_wrap_add. do 2 f_equal. lia.
        -- rewrite lookup_insert_ne by exact Hne. reflexivity.
      * intros msg. rewrite He, failuresWith_cons, Hok. reflexivity.
      * rewrite Hsum, (sumOf_insert Success s0 _ sm) by exact Hlook.
        rewrite successCount_cons, Hok. cbn [incrementSuccess Success].
        unfold Int64.add.
        replace (sumOf Success (map_to_list s0) - Success sm
                 + Int64.wrap (Success sm + 1) + successCount results)
          with (Int64.wrap (Success sm + 1)
                + (sumOf Success (map_to_list s0) - Success sm
                   + successCount results)) by lia.
        rewrite Int64Facts.wrap_wrap_add. f_equal. lia.
      * rewrite Hrq, (sumOf_insert Requested s0 _ sm) by exact Hlook.
        cbn. lia.
    + destruct (GiftTypes.Err r) as [err|] eqn:Herr.
      * destruct (IH s0 (incrementError err e0) Hrange Hreq)
          as (log & s & e & Hrun & Hlog & Hs & He & Hsum & Hrq).
        rewrite Hrun. eexists _, s, e. split; [reflexivity|].
        split; [constructor; [exact I|exact Hlog]|].
        split; [|split; [|split]].
        -- intros id. rewrite Hs, successesOf_cons, Hok. reflexivity.
        -- intros msg. rewrite He, failuresWith_cons, Hok, Herr. cbn [negb andb].
           pose proof (failuresWith_nonneg msg results) as Hnn.
           unfold incrementError.
           destruct (decide (err = msg)) as [->|Hne].
           ++ rewrite bool_decide_eq_true_2 by reflexivity.
              rewrite lookup_insert_eq. cbn [default from_option id].
              rewrite (decide_False (P := 1 + failuresWith msg results = 0))
                by lia.
              unfold Int64.add.
              destruct (decide (failuresWith msg results = 0)) as [Hz|Hz].
              ** rewrite Hz. do 2 f_equal; lia.
              ** rewrite Int64Facts.wrap_wrap_add. do 2 f_equal; lia.
           ++ rewrite bool_decide_eq_false_2 by congruence.
              rewrite lookup_insert_ne by exact Hne. reflexivity.
        -- rewrite Hsum, successCount_cons, Hok. reflexivity.
        -- exact Hrq.
      * destruct (IH s0 e0 Hrange Hreq)
          as (log & s & e & Hrun & Hlog & Hs & He & Hsum & Hrq).
        rewrite Hrun. exists log, s, e. split; [reflexivity|].
        split; [exact Hlog|]. split; [|split; [|split]].
        -- intros id. rewrite Hs, successesOf_cons, Hok. reflexivity.
        -- intros msg. rewrite He, failuresWith_cons, Hok, Herr. reflexivity.
        -- rewrite Hsum, successCount_cons, Hok. reflexivity.
        -- exact Hrq.
Qed.

End Ranges.

Lemma newSummaries_snoc gifts require :
  newSummaries (gifts ++ [require])
  = <[Tg.ID (GiftTypes.Gift require) :=
        {| GiftID := Tg.ID (GiftTypes.Gift require);
           Requested := GiftTypes.CountForBuy require;
           Success := 0 |}]> (newSummaries gifts).
Proof. unfold newSummaries. rewrite foldl_app. reflexivity. Qed.

Lemma giftIDs_snoc gifts require :
  giftIDs (gifts ++ [require])
  = giftIDs gifts ++ [Tg.ID (GiftTypes.Gift require)].
Proof. unfold giftIDs. rewrite map_app. reflexivity. Qed.

Lemma newSummaries_lookup_None gifts id :
  id ∉ giftIDs gifts -> newSummaries gifts !! id = None.
Proof.
  induction gifts as [|require gifts IH] using rev_ind; intros Hid.
  - apply lookup_empty.
  - rewrite giftIDs_snoc in Hid. rewrite newSummaries_snoc.
    rewrite lookup_insert_ne.
    + apply IH. intros Hin. apply Hid, elem_of_app. left. exact Hin.
    + intros <-. apply Hid, elem_of_app. right. apply list_elem_of_here.
Qed.

Lemma newSummaries_is_Some gifts id :
  id ∈ giftIDs gifts -> is_Some (newSummaries gifts !! id).
Proof.
  induction gifts as [|require gifts IH] using rev_ind; intros Hid.
  - inversion Hid.
  - rewrite giftIDs_snoc in Hid. rewrite newSummaries_snoc.
    apply lookup_insert_is_Some'.
    apply elem_of_app in Hid as [Hid|Hid]; [right; apply IH, Hid|].
    left. apply list_elem_of_singleton in Hid. congruence.
Qed.

Lemma newSummaries_lookup gifts require :
  NoDup (giftIDs gifts) -> require ∈ gifts ->
  newSummaries gifts !! Tg.ID (GiftTypes.Gift require)
  = Some {| GiftID := Tg.ID (GiftTypes.Gift require);
            Requested := GiftTypes.CountForBuy require;
            Success := 0 |}.
Proof.
  induction gifts as [|last gifts IH] using rev_ind; intros Hnd Hin.
  - inversion Hin.
  - rewrite giftIDs_snoc in Hnd. apply NoDup_app in Hnd as (Hnd & Hfresh & _).
    rewrite newSummaries_snoc.
    apply elem_of_app in Hin as [Hin|Hin].
    + rewrite lookup_insert_ne; [apply IH; assumption|].
      intros Heq. apply (Hfresh (Tg.ID (GiftTypes.Gift require))).
      * unfold giftIDs.
        apply list_elem_of_In,
          (in_map (fun g => Tg.ID (GiftTypes.Gift g))), list_elem_of_In, Hin.
      * rewrite Heq. apply list_elem_of_here.
    + apply list_elem_of_singleton in Hin as ->. apply lookup_insert_eq.
Qed.

Lemma newSummaries_fresh gifts :
  map_Forall (fun _ summary => Success summary = 0) (newSummaries gifts).
Proof.
  induction gifts as [|require gifts IH] using rev_ind.
  - apply map_Forall_empty.
  - rewrite newSummaries_snoc. apply map_Forall_insert_2; [reflexivity|exact IH].
Qed.

Lemma sumOf_zero f (s : gmap Z GiftSummary) :
  map_Forall (fun _ summary => f summary = 0) s ->
  sumOf f (map_to_list s) = 0.
Proof.
  intros Hall. apply map_Forall_to_list in Hall. unfold sumOf.
  induction Hall as [|[id summary] l Hx _ IH]; [reflexivity|].
  cbn in *. lia.
Qed.

Lemma requestedCount_snoc gifts require :
  requestedCount (gifts ++ [require])
  = requestedCount gifts + GiftTypes.CountForBuy require.
Proof.
  unfold requestedCount. induction gifts as [|g gifts IH]; cbn in *; lia.
Qed.

Lemma newSummaries_requested gifts :
  NoDup (giftIDs gifts) ->
  sumOf Requested (map_to_list (newSummaries gifts)) = requestedCount gifts.
Proof.
  induction gifts as [|require gifts IH] using rev_ind; intros Hnd.
  - reflexivity.
  - rewrite giftIDs_snoc in Hnd. apply NoDup_app in Hnd as (Hnd & Hfresh & _).
    rewrite newSummaries_snoc, requestedCount_snoc, sumOf_insert_fresh.
    + rewrite IH by exact Hnd. cbn. lia.
    + apply newSummaries_lookup_None. intros Hin.
      apply (Hfresh _ Hin). apply list_elem_of_here.
Qed.

Section Reports.

Variable rangeErrors : gmap string Z -> list (string * Z).
Variable rangeTotals rangeReport
  : gmap Z GiftSummary -> list (Z * GiftSummary).

Local Abbreviation monitorLoop :=
  (monitorLoop rangeErrors rangeTotals rangeReport).
Local Abbreviation MonitorProcess :=
  (MonitorProcess rangeErrors rangeTotals rangeReport).

Lemma monitorLoop_app setBot sel1 sel2 :
  forall s0 e0 log s e,
  monitorLoop setBot sel1 s0 e0 = (log, Waiting s e) ->
  monitorLoop setBot (sel1 ++ sel2) s0 e0
  = (log ++ (monitorLoop setBot sel2 s e).1, (monitorLoop setBot sel2 s e).2).
Proof.
  induction sel1 as [|x sel1 IH]; intros s0 e0 log s e Hrun.
  - cbn in Hrun. injection Hrun as <- <- <-. cbn.
    destruct (monitorLoop setBot sel2 s0 e0); reflexivity.
  - destruct x as [| |r|]; cbn [app GiftBuyerMonitoring.monitorLoop] in *;
      try discriminate Hrun.
    destruct (GiftTypes.Success r).
    + destruct (s0 !! GiftTypes.GiftID r) as [sm|]; [|discriminate Hrun].
      destruct (monitorLoop setBot sel1 _ e0) as [log1 x1] eqn:Hrest.
      injection Hrun as <- ->.
      rewrite (IH _ _ _ _ _ Hrest). reflexivity.
    + destruct (GiftTypes.Err r) as [err|].
      * destruct (monitorLoop setBot sel1 s0 _) as [log1 x1] eqn:Hrest.
        injection Hrun as <- ->.
        rewrite (IH _ _ _ _ _ Hrest). reflexivity.
      * apply IH. exact Hrun.
Qed.

(** What the aggregator holds after the results of a purchase, and how it
    goes on from there. *)
Lemma monitor_after_results setBot gifts results :
  Forall (fun r => GiftTypes.Success r = true ->
                   GiftTypes.GiftID r ∈ giftIDs gifts) results ->
  exists log s e,
    logsOnly log
    /\ (forall rest,
          MonitorProcess setBot ((Result <$> results) ++ rest) gifts
          = (log ++ (monitorLoop setBot rest s e).1,
             (monitorLoop setBot rest s e).2))
    /\ (forall id,
          s !! id
          = withSuccesses (successesOf id results) <$> newSummaries gifts !! id)
    /\ (forall msg,
          e !! msg
          = if decide (failuresWith msg results = 0) then None
            else Some (Int64.wrap (failuresWith msg results)))
    /\ Int64.wrap (sumOf Success (map_to_list s))
       = Int64.wrap (successCount results)
    /\ sumOf Requested (map_to_list s)
       = sumOf Requested (map_to_list (newSummaries gifts)).
Proof.
  intros Hreq.
  destruct (monitorLoop_results rangeErrors rangeTotals rangeReport setBot
              results (newSummaries gifts) ∅)
    as (log & s & e & Hrun & Hlog & Hs & He & Hsum & Hrq).
  { intros id sm Hlook. rewrite (newSummaries_fresh gifts id sm Hlook).
    unfold Int64.in_range, Int64.min_int, Int64.max_int. lia. }
  { eapply Forall_impl; [exact Hreq|]. intros r Hr Hok.
    apply newSummaries_is_Some, Hr, Hok. }
  exists log, s, e. split; [exact Hlog|]. split; [|split; [exact Hs|split; [|split]]].
  - intros rest. unfold GiftBuyerMonitoring.MonitorProcess.
    apply monitorLoop_app. exact Hrun.
  - intros msg. rewrite He, lookup_empty. cbn.
    destruct (decide _); [reflexivity|]. do 2 f_equal.
  - rewrite Hsum, (sumOf_zero Success) by apply newSummaries_fresh.
    f_equal.
  - exact Hrq.
Qed.

(** X11. The loop of [MonitorProcess] keeps the count of every purchase:
    when each successful result is for a requested gift, then after the
    results it is back at the [select] having handed no status to the
    notification service; the summary of a requested gift holds what was
    asked for and the number of its successful results, and the error
    counts hold, for each error text, the number of failed results that
    carry it (as 64-bit integers) and no other key. A failed result without
    an error is counted nowhere. *)
Theorem results_are_tallied setBot gifts results :
  NoDup (giftIDs gifts) ->
  Forall (fun r => GiftTypes.Success r = true ->
                   GiftTypes.GiftID r ∈ giftIDs gifts) results ->
  exists log summaries errorCounts,
    MonitorProcess setBot (Result <$> results) gifts
    = (log, Waiting summaries errorCounts)
    /\ logsOnly log
    /\ (forall require, require ∈ gifts ->
          summaries !! Tg.ID (GiftTypes.Gift require)
          = Some {| GiftID := Tg.ID (GiftTypes.Gift require);
                    Requested := GiftTypes.CountForBuy require;
                    Success :=
                      Int64.wrap
                        (successesOf (Tg.ID (GiftTypes.Gift require))
                           results) |})
    /\ (forall id, id ∉ giftIDs gifts -> summaries !! id = None)
    /\ (forall msg,
          errorCounts !! msg
          = if decide (failuresWith msg results = 0) then None
            else Some (Int64.wrap (failuresWith msg results))).
Proof.
  intros Hnd Hreq.
  destruct (monitor_after_results setBot gifts results Hreq)
    as (log & s & e & Hlog & Hrun & Hs & He & _ & _).
  exists log, s, e. split; [|split; [exact Hlog|split; [|split; [|exact He]]]].
  - specialize (Hrun []). rewrite !app_nil_r in Hrun. exact Hrun.
  - intros require Hin. rewrite Hs, (newSummaries_lookup gifts require Hnd Hin).
    reflexivity.
  - intros id Hid. rewrite Hs, (newSummaries_lookup_None gifts id Hid).
    reflexivity.
Qed.

(** X12. When the purchase is over ([doneChan] is closed after the results)
    and a bot is set, the aggregator hands the notification service exactly
    one status, after its log lines: full success when the number of
    successful results equals the number of copies requested (both as
    64-bit sums), partial success when they differ and some result
    succeeded, and otherwise the failure status, with the most frequent
    error or, when no failed result carried one, the stand-in error. When
    the context is done instead, it returns after the same log lines
    without any status. *)
Theorem done_sends_one_status gifts results :
  (forall summaries, rangeTotals summaries ≡ₚ map_to_list summaries) ->
  NoDup (giftIDs gifts) ->
  Forall (fun r => GiftTypes.Success r = true ->
                   GiftTypes.GiftID r ∈ giftIDs gifts) results ->
  exists log errorCounts,
    logsOnly log
    /\ (forall msg,
          errorCounts !! msg
          = if decide (failuresWith msg results = 0) then None
            else Some (Int64.wrap (failuresWith msg results)))
    /\ MonitorProcess true ((Result <$> results) ++ [DoneChan]) gifts
       = (log ++ [statusFor (Int64.wrap (successCount results))
                    (Int64.wrap (requestedCount gifts))
                    (getMostFrequentError rangeErrors errorCounts)],
          Returned)
    /\ MonitorProcess true ((Result <$> results) ++ [CtxDone]) gifts
       = (log, Returned).
Proof.
  intros Hrange Hnd Hreq.
  destruct (monitor_after_results true gifts results Hreq)
    as (log & s & e & Hlog & Hrun & _ & He & Hsum & Hrq).
  exists log, e. split; [exact Hlog|]. split; [exact He|]. split.
  - rewrite Hrun. cbn [GiftBuyerMonitoring.monitorLoop fst snd].
    do 2 f_equal. unfold sendNotify.
    rewrite (totals_sum rangeTotals s (Hrange s)). cbn [fst snd].
    rewrite Hsum, Hrq, (newSummaries_requested gifts Hnd).
    unfold statusFor.
    destruct (_ =? _); [reflexivity|]. destruct (0 <? _); [reflexivity|].
    destruct (getMostFrequentError rangeErrors e); reflexivity.
  - rewrite Hrun. cbn. rewrite app_nil_r. reflexivity.
Qed.

(** X13. A successful result for a gift that was not among the requests
    finds no summary: [MonitorProcess] panics on the nil pointer, whatever
    would have followed, and the status of the purchase is never sent. *)
Theorem success_for_unrequested_gift_panics setBot gifts before r after :
  Forall (fun r => GiftTypes.Success r = true ->
                   GiftTypes.GiftID r ∈ giftIDs gifts) before ->
  GiftTypes.Success r = true ->
  GiftTypes.GiftID r ∉ giftIDs gifts ->
  exists log,
    MonitorProcess setBot ((Result <$> before) ++ Result r :: after) gifts
    = (log, Panicked)
    /\ logsOnly log.
Proof.
  intros Hreq Hok Hid.
  destruct (monitor_after_results setBot gifts before Hreq)
    as (log & s & e & Hlog & Hrun & Hs & _).
  exists log. rewrite Hrun. cbn [GiftBuyerMonitoring.monitorLoop].
  rewrite Hok, Hs, (newSummaries_lookup_None gifts _ Hid). cbn.
  rewrite app_nil_r. split; [reflexivity|exact Hlog].
Qed.

End Reports.

Lemma results_are_tallied_witness :
  exists log summaries errorCounts,
    MonitorProcess listedErrors listedSummaries listedSummaries true
      (Result <$> mixed_results) GiftBuyer.two_requests
    = (log, Waiting summaries errorCounts)
    /\ summaries !! 7 = Some {| GiftID := 7; Requested := 2; Success := 1 |}
    /\ summaries !! 1 = Some {| GiftID := 1; Requested := 3; Success := 1 |}
    /\ errorCounts !! "timeout"%string = Some 2
    /\ errorCounts !! "max buy count reached"%string = None.
Proof.
  destruct (results_are_tallied listedErrors listedSummaries listedSummaries
              true GiftBuyer.two_requests mixed_results)
    as (log & s & e & Hrun & _ & Hs & _ & He).
  - apply (bool_decide_unpack _). vm_compute. exact I.
  - apply (bool_decide_unpack _). vm_compute. exact I.
  - exists log, s, e. split; [exact Hrun|].
    split; [exact (Hs GiftBuyer.dear_request
                     (list_elem_of_further _ _ _ (list_elem_of_here _ _)))|].
    split; [exact (Hs GiftBuyer.request (list_elem_of_here _ _))|].
    split; [exact (He "timeout"%string)|
            exact (He "max buy count reached"%string)].
Defined.

Lemma done_sends_one_status_witness :
  exists log,
    MonitorProcess listedErrors listedSummaries listedSummaries true
      ((Result <$> mixed_results) ++ [DoneChan]) GiftBuyer.two_requests
    = (log ++ [SendBuyStatus (boughtSome 2 5) None], Returned).
Proof.
  destruct (done_sends_one_status listedErrors listedSummaries listedSummaries
              GiftBuyer.two_requests mixed_results)
    as (log & e & _ & _ & Hdone & _).
  - intros summaries. reflexivity.
  - apply (bool_decide_unpack _). vm_compute. exact I.
  - apply (bool_decide_unpack _). vm_compute. exact I.
  - exists log. exact Hdone.
Defined.

Lemma success_for_unrequested_gift_panics_witness :
  exists log,
    MonitorProcess listedErrors listedSummaries listedSummaries true
      ((Result <$> mixed_results)
       ++ Result (GiftBuyer.succeeded 9) :: [DoneChan])
      GiftBuyer.two_requests
    = (log, Panicked)
    /\ logsOnly log.
Proof.
  apply (success_for_unrequested_gift_panics listedErrors listedSummaries
           listedSummaries true GiftBuyer.two_requests mixed_results
           (GiftBuyer.succeeded 9) [DoneChan]).
  - apply (bool_decide_unpack _). vm_compute. exact I.
  - reflexivity.
  - apply (bool_decide_unpack _). vm_compute. exact I.
Defined.

(** *** The units and the aggregator *)

Lemma unit_outcomes_carry_gift ctx purchases gift retryCount ac :
  Forall (fun r => GiftTypes.GiftID r = Tg.ID (GiftTypes.Gift gift))
    (GiftBuyer.outcomes
       (GiftBuyer.buyGiftWithRetryOn ctx purchases gift retryCount ac).1).
Proof.
  unfold GiftBuyer.buyGiftWithRetryOn.
  destruct (GiftBuyerFacts.retryLoopOn_refines ctx purchases
              (Tg.ID (GiftTypes.Gift gift)) retryCount (Z.to_nat retryCount)
              0 None ac) as [incs ->].
  destruct (GiftBuyerFacts.retryLoop_outcomes_shape
              (fun i => {| GiftBuyer.ctxDone := ctx i;
                           GiftBuyer.tryIncrement := incs i;
                           GiftBuyer.purchase := purchases i |})
              (Tg.ID (GiftTypes.Gift gift)) retryCount (Z.to_nat retryCount)
              0%nat None) as (fs & l & -> & _ & Hfs & Hl & _).
  apply Forall_app. split.
  - eapply Forall_impl; [exact Hfs|]. intros r [Hr _]. exact Hr.
  - constructor; [exact Hl|constructor].
Qed.

Lemma successCount_app results1 results2 :
  successCount (results1 ++ results2)
  = successCount results1 + successCount results2.
Proof.
  unfold successCount. rewrite List.filter_app, length_app. lia.
Qed.

Lemma runUnits_outcomes gifts units retryCount :
  Forall (fun u => GiftBuyer.unitGift u ∈ gifts) units ->
  forall ac,
  Forall (fun r => GiftTypes.GiftID r ∈ giftIDs gifts)
    (concat (GiftBuyer.outcomes <$> (GiftBuyer.runUnits units retryCount ac).1))
  /\ successCount
       (concat (GiftBuyer.outcomes
                  <$> (GiftBuyer.runUnits units retryCount ac).1))
     = GiftBuyer.totalPurchased (GiftBuyer.runUnits units retryCount ac).1.
Proof.
  induction 1 as [|u units Hu _ IH]; intros ac.
  - cbn. split; [constructor|reflexivity].
  - cbn [GiftBuyer.runUnits].
    pose proof (unit_outcomes_carry_gift (GiftBuyer.unitCtx u)
                  (GiftBuyer.unitPurchases u) (GiftBuyer.unitGift u)
                  retryCount ac) as Hids.
    destruct (GiftBuyer.buyGiftWithRetryOn _ _ _ _ ac) as [trace ac1].
    specialize (IH ac1).
    destruct (GiftBuyer.runUnits units retryCount ac1) as [traces ac2].
    cbn [fst fmap list_fmap concat] in *. destruct IH as [IHids IHcount].
    split.
    + apply Forall_app. split; [|exact IHids].
      eapply Forall_impl; [exact Hids|]. intros r ->. unfold giftIDs.
      apply list_elem_of_In,
        (in_map (fun g => Tg.ID (GiftTypes.Gift g))), list_elem_of_In, Hu.
    + rewrite successCount_app.
      change (list_fmap _ _ GiftBuyer.outcomes traces)
        with (GiftBuyer.outcomes <$> traces) in IHcount.
      rewrite IHcount. reflexivity.
Qed.

Section UnitsReported.

Variable rangeErrors : gmap string Z -> list (string * Z).
Variable rangeTotals rangeReport
  : gmap Z GiftSummary -> list (Z * GiftSummary).

(** X14. The units and the aggregator fit together: when units for
    requested gifts run one after the other on a fresh counter and their
    outcomes reach the aggregator before [doneChan] is closed, the
    aggregator does not panic, and the number of purchases in the status it
    sends is the value the counter ends at. *)
Theorem purchases_of_units_are_reported units retryCount C gifts :
  (forall summaries, rangeTotals summaries ≡ₚ map_to_list summaries) ->
  NoDup (giftIDs gifts) ->
  0 <= C <= Int64.max_int ->
  Forall (fun u => GiftBuyer.unitGift u ∈ gifts) units ->
  exists log errorCounts,
    logsOnly log
    /\ MonitorProcess rangeErrors rangeTotals rangeReport true
         ((Result
             <$> concat
                   (GiftBuyer.outcomes
                      <$> (GiftBuyer.runUnits units retryCount
                             (AtomicCounter.NewAtomicCounter C)).1))
          ++ [DoneChan])
         gifts
       = (log
          ++ [statusFor
                (AtomicCounter.Get
                   (GiftBuyer.runUnits units retryCount
                      (AtomicCounter.NewAtomicCounter C)).2)
                (Int64.wrap (requestedCount gifts))
                (getMostFrequentError rangeErrors errorCounts)],
          Returned).
Proof.
  intros Hrange Hnd HC Hunits.
  destruct (runUnits_outcomes gifts units retryCount Hunits
              (AtomicCounter.NewAtomicCounter C)) as [Hids Hcount].
  destruct (GiftBuyerFacts.sequential_units_respect_budget units retryCount C HC)
    as [Hle Hget].
  pose proof (GiftBuyerFacts.runUnits_purchased_le_length units retryCount
                (AtomicCounter.NewAtomicCounter C)) as [Hnn _].
  set (run := GiftBuyer.runUnits units retryCount
                (AtomicCounter.NewAtomicCounter C)) in *.
  destruct (monitor_after_results rangeErrors rangeTotals rangeReport true gifts
              (concat (GiftBuyer.outcomes <$> run.1)))
    as (log & s & e & Hlog & Hrun & _ & _ & Hsum & Hrq).
  { eapply Forall_impl; [exact Hids|]. intros r Hr _. exact Hr. }
  exists log, e. split; [exact Hlog|].
  rewrite Hrun. cbn [GiftBuyerMonitoring.monitorLoop fst snd].
  do 2 f_equal. unfold sendNotify.
  rewrite (totals_sum rangeTotals s (Hrange s)). cbn [fst snd].
  rewrite Hsum, Hrq, (newSummaries_requested gifts Hnd), Hcount, Hget.
  rewrite (Int64Facts.wrap_id (GiftBuyer.totalPurchased run.1))
    by (unfold Int64.in_range, Int64.min_int, Int64.max_int in *; lia).
  unfold statusFor.
  destruct (_ =? _); [reflexivity|]. destruct (0 <? _); [reflexivity|].
  destruct (getMostFrequentError rangeErrors e); reflexivity.
Qed.

End UnitsReported.

Lemma purchases_of_units_are_reported_witness :
  exists log,
    MonitorProcess listedErrors listedSummaries listedSummaries true
      ((Result
          <$> concat
                (GiftBuyer.outcomes
                   <$> (GiftBuyer.runUnits three_units 3
                          (AtomicCounter.NewAtomicCounter 2)).1))
       ++ [DoneChan])
      GiftBuyer.two_requests
    = (log ++ [SendBuyStatus (boughtSome 2 5) None], Returned).
Proof.
  destruct (purchases_of_units_are_reported listedErrors listedSummaries
              listedSummaries three_units 3 2 GiftBuyer.two_requests)
    as (log & e & _ & Hdone).
  - intros summaries. reflexivity.
  - apply (bool_decide_unpack _). vm_compute. exact I.
  - unfold Int64.max_int. lia.
  - unfold three_units, GiftBuyer.two_requests. repeat constructor.
  - exists log. exact Hdone.
Defined.

End GiftBuyerMonitoringFacts.

(** ** Properties: Invoices *)

Module InvoiceCreatorFacts.
Import InvoiceCreator.
Local Open Scope Z_scope.

Lemma SelectRandomElementFast_drawn {A : Type} (zero : A) slice rand :
  SelectRandomElementFast zero slice rand ∈ slice
  \/ (slice = [] /\ SelectRandomElementFast zero slice rand = zero).
Proof.
  destruct slice as [|x slice]; [right; split; reflexivity|]. left.
  unfold SelectRandomElementFast.
  destruct ((x :: slice) !! (rand mod length (x :: slice))%nat) as [y|] eqn:E.
  - cbn. eapply list_elem_of_lookup_2. exact E.
  - apply lookup_ge_None in E.
    pose proof (Nat.mod_upper_bound rand (length (x :: slice))) as Hlt.
    cbn [length] in *. lia.
Qed.

(** X28. An invoice goes where the request allows. When [CreateInvoice]
    returns an invoice it is for the requested gift, with the requested
    hide flag, and its peer is of a receiver type the request lists (the
    account itself also when the request lists none); a user or channel
    peer carries the identifier and access hash the id cache holds for one
    of the configured receivers, the channel identifier without its
    [-100...] marking. *)
Theorem invoice_goes_to_a_configured_receiver ic gift d invoice :
  CreateInvoice ic gift d = inr invoice ->
  GiftID invoice = Tg.ID (GiftTypes.Gift gift)
  /\ HideName invoice = GiftTypes.Hide gift
  /\ match Peer invoice with
     | InputPeerSelf =>
         0 ∈ GiftTypes.ReceiverType gift \/ GiftTypes.ReceiverType gift = []
     | InputPeerUser userID accessHash =>
         1 ∈ GiftTypes.ReceiverType gift
         /\ exists key user,
              drawable (userReceiver ic) key
              /\ users (idCache ic) !! key = Some user
              /\ userID = UserID user /\ accessHash = UserAccessHash user
     | InputPeerChannel channelID accessHash =>
         2 ∈ GiftTypes.ReceiverType gift
         /\ exists key channel,
              drawable (channelReceiver ic) key
              /\ channels (idCache ic) !! key = Some channel
              /\ channelID = convertChannelID (ChannelID channel)
              /\ accessHash = ChannelAccessHash channel
     end.
Proof.
  unfold CreateInvoice. intros Hinv.
  pose proof (SelectRandomElementFast_drawn 0 (GiftTypes.ReceiverType gift)
                (typeDraw d)) as Htype.
  destruct (Z.eqb_spec
              (SelectRandomElementFast 0 (GiftTypes.ReceiverType gift)
                 (typeDraw d)) 0) as [H0|H0].
  { unfold selfPurchase in Hinv. injection Hinv as <-. cbn.
    repeat split. rewrite H0 in Htype. tauto. }
  destruct (Z.eqb_spec
              (SelectRandomElementFast 0 (GiftTypes.ReceiverType gift)
                 (typeDraw d)) 1) as [H1|H1].
  { unfold userPurchase, getUserInfo, GetUser in Hinv.
    pose proof (SelectRandomElementFast_drawn EmptyString (userReceiver ic)
                  (receiverDraw d)) as Hkey.
    destruct (users (idCache ic)
                !! SelectRandomElementFast EmptyString (userReceiver ic)
                     (receiverDraw d)) as [user|] eqn:Hlook;
      [|discriminate Hinv].
    injection Hinv as <-. cbn. repeat split.
    - rewrite H1 in Htype. destruct Htype as [Hin|[_ Habs]]; [exact Hin|lia].
    - eexists _, user. split; [exact Hkey|].
      split; [exact Hlook|split; reflexivity]. }
  destruct (Z.eqb_spec
              (SelectRandomElementFast 0 (GiftTypes.ReceiverType gift)
                 (typeDraw d)) 2) as [H2|H2]; [|discriminate Hinv].
  unfold channelPurchase, getChannelInfo, GetChannel in Hinv.
  pose proof (SelectRandomElementFast_drawn EmptyString (channelReceiver ic)
                (receiverDraw d)) as Hkey.
  destruct (channels (idCache ic)
              !! SelectRandomElementFast EmptyString (channelReceiver ic)
                   (receiverDraw d)) as [channel|] eqn:Hlook;
    [|discriminate Hinv].
  injection Hinv as <-. cbn. repeat split.
  - rewrite H2 in Htype. destruct Htype as [Hin|[_ Habs]]; [exact Hin|lia].
  - eexists _, channel. split; [exact Hkey|].
    split; [exact Hlook|split; reflexivity].
Qed.

Lemma invoice_goes_to_a_configured_receiver_witness :
  CreateInvoice known_receivers
    {| GiftTypes.Gift := GiftValidator.scenario_gift;
       GiftTypes.ReceiverType := [2]; GiftTypes.CountForBuy := 1;
       GiftTypes.Hide := true |}
    {| typeDraw := 5; receiverDraw := 3; messageText := "By @earnfame x" |}
  = inr {| Peer := InputPeerChannel 1234567890 9; GiftID := 1;
           HideName := true; Message := "By @earnfame x" |}
  /\ 2 ∈ [2].
Proof.
  split; [vm_compute; reflexivity|].
  exact (proj1 (proj2 (proj2
    (invoice_goes_to_a_configured_receiver known_receivers
       {| GiftTypes.Gift := GiftValidator.scenario_gift;
          GiftTypes.ReceiverType := [2]; GiftTypes.CountForBuy := 1;
          GiftTypes.Hide := true |}
       {| typeDraw := 5; receiverDraw := 3; messageText := "By @earnfame x" |}
       {| Peer := InputPeerChannel 1234567890 9; GiftID := 1;
          HideName := true; Message := "By @earnfame x" |}
       ltac:(vm_compute; reflexivity))))).
Defined.

(** X29. [convertChannelID] strips the [-100...] marking and nothing else:
    an identifier below [-10^12] becomes the positive identifier behind the
    marking, any other identifier is returned as it is, and converting
    twice is converting once. *)
Theorem convertChannelID_strips_marking channelID :
  Int64.min_int < channelID <= Int64.max_int ->
  (channelID < -1000000000000 ->
   convertChannelID channelID = - channelID - 1000000000000
   /\ 0 < convertChannelID channelID)
  /\ (-1000000000000 <= channelID -> convertChannelID channelID = channelID)
  /\ convertChannelID (convertChannelID channelID) = convertChannelID channelID.
Proof.
  intros Hrange. unfold Int64.min_int, Int64.max_int in Hrange.
  assert (Hmarked : channelID < -1000000000000 ->
                    convertChannelID channelID = - channelID - 1000000000000).
  { intros Hlt. unfold convertChannelID.
    destruct (Z.ltb_spec channelID (-1000000000000)); [|lia].
    rewrite (Int64Facts.wrap_id (- channelID))
      by (unfold Int64.in_range, Int64.min_int, Int64.max_int; lia).
    apply Int64Facts.wrap_id.
    unfold Int64.in_range, Int64.min_int, Int64.max_int. lia. }
  assert (Hplain : forall id, -1000000000000 <= id -> convertChannelID id = id).
  { intros id Hge. unfold convertChannelID.
    destruct (Z.ltb_spec id (-1000000000000)); [lia|reflexivity]. }
  split; [|split].
  - intros Hlt. rewrite (Hmarked Hlt). split; [reflexivity|lia].
  - apply Hplain.
  - destruct (Z_lt_ge_dec channelID (-1000000000000)) as [Hlt|Hge].
    + rewrite (Hmarked Hlt). apply Hplain. lia.
    + rewrite (Hplain channelID) by lia. apply Hplain. lia.
Qed.

Lemma convertChannelID_strips_marking_witness :
  convertChannelID (-1001234567890) = 1234567890.
Proof.
  refine (proj1 (proj1 (convertChannelID_strips_marking (-1001234567890) _) _)).
  - unfold Int64.min_int, Int64.max_int. lia.
  - lia.
Defined.

End InvoiceCreatorFacts.

(** ** Properties: Rate limiter *)

Module RateLimiterFacts.
Import RateLimiter.
Local Open Scope Z_scope.

Lemma fillTokens_fills fuel i rps held :
  (Z.to_nat (rps - i) <= fuel)%nat ->
  fillTokens fuel i rps held = held + Z.max 0 (rps - i).
Proof.
  revert i held. induction fuel as [|fuel IH]; intros i held Hfuel.
  - cbn [fillTokens]. lia.
  - cbn [fillTokens]. destruct (Z.ltb_spec i rps) as [Hlt|Hge]; [|lia].
    rewrite IH by lia. lia.
Qed.

Lemma NewRateLimiter_negative rps :
  rps < 0 -> NewRateLimiter rps = Panics "makechan: size out of range".
Proof.
  intros Hneg. unfold NewRateLimiter.
  destruct (Z.gtb_spec rps 0) as [Hpos|_]; [lia|].
  cbn. unfold makeChan. destruct (Z.ltb_spec rps 0) as [_|Hge]; [reflexivity|lia].
Qed.

Lemma NewRateLimiter_positive rps :
  0 < rps <= Second ->
  NewRateLimiter rps
  = Returns {| tokens := rps; capacity := rps; period := Second ÷ rps;
               maxTokens := rps; closed := false; refilling := true |}.
Proof.
  intros [Hpos Hle]. unfold NewRateLimiter.
  destruct (Z.gtb_spec rps 0) as [_|Hn]; [|lia].
  unfold NewTicker.
  assert (Hq : 1 <= Second ÷ rps).
  { rewrite Z.quot_div_nonneg by (unfold Second in *; lia).
    apply Z.div_le_lower_bound; lia. }
  destruct (Z.leb_spec (Second ÷ rps) 0) as [Hbad|_]; [lia|].
  cbn. unfold makeChan. destruct (Z.ltb_spec rps 0) as [Hbad|_]; [lia|].
  cbn. rewrite fillTokens_fills by lia. do 2 f_equal. lia.
Qed.

(** Without the refill goroutine an empty limiter stays empty. *)
Lemma elapse_stays_empty rl steps :
  tokens rl = 0 -> refilling rl = false ->
  tokens (elapse rl steps) = 0 /\ refilling (elapse rl steps) = false.
Proof.
  revert rl. induction steps as [|[|] steps IH]; intros rl Ht Hr.
  - split; assumption.
  - cbn [elapse]. apply IH; unfold refillTick; rewrite Hr; assumption.
  - cbn [elapse]. apply IH; unfold Close; destruct (closed rl); assumption.
Qed.

(** C9, on the code. A negative rate makes the constructor panic in
    [make(chan struct{}, rps)]. A zero rate builds a limiter with an empty
    pool and no refill goroutine: whatever time passes, [Acquire] blocks
    while the context is live and returns the context's error once it is
    done. *)
Theorem C9_negative_rate_panics_zero_rate_blocks :
  (forall rps, rps < 0 ->
     NewRateLimiter rps = Panics "makechan: size out of range")
  /\ NewRateLimiter (-1) = Panics "makechan: size out of range"
  /\ exists rl,
      NewRateLimiter 0 = Returns rl
      /\ tokens rl = 0
      /\ refilling rl = false
      /\ forall steps ctx out,
           Acquire (elapse rl steps) ctx out ->
           match ctx with
           | None => out = Blocked
           | Some err => out = ContextError err
           end.
Proof.
  split; [exact NewRateLimiter_negative|].
  split; [apply NewRateLimiter_negative; lia|].
  eexists. split; [reflexivity|]. cbn [tokens refilling].
  split; [reflexivity|]. split; [reflexivity|].
  intros steps ctx out Hacq.
  match type of Hacq with Acquire (elapse ?rl0 _) _ _ =>
    destruct (elapse_stays_empty rl0 steps eq_refl eq_refl) as [Ht _]
  end.
  inversion Hacq as [Hpos|err Hctx|Hempty Hctx]; subst.
  - lia.
  - reflexivity.
  - reflexivity.
Qed.

Lemma C9_negative_rate_panics_zero_rate_blocks_witness :
  NewRateLimiter (-5) = Panics "makechan: size out of range"
  /\ forall out,
       Acquire
         (elapse {| tokens := 0; capacity := 0; period := Hour; maxTokens := 0;
                    closed := false; refilling := false |}
            [true; true; false; true])
         (Some "context deadline exceeded"%string) out ->
       out = ContextError "context deadline exceeded"%string.
Proof.
  destruct C9_negative_rate_panics_zero_rate_blocks
    as (Hneg & _ & rl & Hnew & _ & _ & Hacq).
  split.
  - apply Hneg. lia.
  - injection Hnew as <-. intros out Hout.
    exact (Hacq [true; true; false; true]
             (Some "context deadline exceeded"%string) out Hout).
Defined.

(** X25. The constructor at its bounds: a rate between 1 and [10^9] builds
    a limiter whose pool is full, with [rps] permits, and starts the
    refill; a rate above [10^9] makes the ticker period
    [time.Second / rps] zero, and [time.NewTicker] panics. *)
Theorem rate_above_a_billion_panics rps :
  (0 < rps <= Second ->
   NewRateLimiter rps
   = Returns {| tokens := rps; capacity := rps; period := Second ÷ rps;
                maxTokens := rps; closed := false; refilling := true |})
  /\ (Second < rps ->
      NewRateLimiter rps = Panics "non-positive interval for NewTicker").
Proof.
  split; [apply NewRateLimiter_positive|].
  intros Hbig. unfold NewRateLimiter, Second in *.
  replace (rps >? 0) with true by (symmetry; apply Z.gtb_lt; lia).
  rewrite Z.quot_small by lia. reflexivity.
Qed.

Lemma runs_tokens rl events rl' :
  runs rl events rl' ->
  0 <= tokens rl <= capacity rl ->
  tokens rl' + permits events <= tokens rl + ticks events
  /\ 0 <= tokens rl' <= capacity rl'
  /\ capacity rl' = capacity rl.
Proof.
  induction 1 as [rl|rl events rl' _ IH|rl events rl' _ IH
                  |rl ctx out events rl' Hacq _ IH]; intros Hinv.
  - cbn. lia.
  - cbn [permits ticks].
    assert (Hstep : 0 <= tokens (refillTick rl) <= capacity (refillTick rl)
                    /\ tokens (refillTick rl) <= tokens rl + 1
                    /\ capacity (refillTick rl) = capacity rl).
    { unfold refillTick. destruct (refilling rl); cbn [negb]; [|lia].
      destruct (closed rl); cbn; [lia|].
      destruct (Z.ltb_spec (tokens rl) (capacity rl)); cbn; lia. }
    destruct (IH ltac:(lia)) as (H1 & H2 & H3). lia.
  - cbn [permits ticks].
    assert (Hstep : tokens (Close rl) = tokens rl
                    /\ capacity (Close rl) = capacity rl).
    { unfold Close. destruct (closed rl); cbn; lia. }
    destruct (IH ltac:(lia)) as (H1 & H2 & H3). lia.
  - destruct Hacq as [Hpos|err Hctx|Hempty Hctx]; cbn [permits ticks afterAcquire]
      in *.
    + destruct (IH ltac:(cbn; lia)) as (H1 & H2 & H3). cbn in *. lia.
    + destruct (IH Hinv) as (H1 & H2 & H3). lia.
    + destruct (IH Hinv) as (H1 & H2 & H3). lia.
Qed.

(** X26. The limiter limits: however ticks, calls of [Close] and calls of
    [Acquire] interleave on a limiter built for [rps] requests per second,
    the permits granted never exceed the [rps] of the initial burst plus
    one for each tick received, and the pool never holds more than [rps]
    permits. *)
Theorem permits_within_burst_and_ticks rps rl events rl' :
  NewRateLimiter rps = Returns rl ->
  runs rl events rl' ->
  permits events <= rps + ticks events
  /\ 0 <= tokens rl' <= rps.
Proof.
  intros Hnew Hrun.
  assert (Hfull : tokens rl = rps /\ capacity rl = rps /\ 0 <= rps).
  { destruct (Z.lt_trichotomy rps 0) as [Hneg|[->|Hpos]].
    - rewrite (NewRateLimiter_negative rps Hneg) in Hnew. discriminate Hnew.
    - vm_compute in Hnew. injection Hnew as <-. cbn. lia.
    - destruct (Z_le_gt_dec rps Second) as [Hle|Hgt].
      + rewrite (NewRateLimiter_positive rps (conj Hpos Hle)) in Hnew.
        injection Hnew as <-. cbn. lia.
      + unfold NewRateLimiter, Second in *.
        replace (rps >? 0) with true in Hnew by (symmetry; apply Z.gtb_lt; lia).
        rewrite Z.quot_small in Hnew by lia. discriminate Hnew. }
  destruct Hfull as (Ht & Hc & Hnn).
  destruct (runs_tokens rl events rl' Hrun ltac:(lia)) as (H1 & H2 & H3). lia.
Qed.

Lemma permits_within_burst_and_ticks_witness :
  permits [Acquired None (Permit (takeToken two_per_second));
           Ticked;
           Acquired None (Permit (takeToken (refillTick
                                               (takeToken two_per_second))));
           Closed]
  <= 2 + ticks [Acquired None (Permit (takeToken two_per_second));
                Ticked;
                Acquired None
                  (Permit (takeToken (refillTick (takeToken two_per_second))));
                Closed].
Proof.
  refine (proj1 (permits_within_burst_and_ticks 2 two_per_second _ _ _ _)).
  - vm_compute. reflexivity.
  - apply runs_acquire; [apply Acquire_token; vm_compute; reflexivity|].
    apply runs_tick.
    apply runs_acquire; [apply Acquire_token; vm_compute; reflexivity|].
    apply runs_close. apply runs_nil.
Defined.

Lemma runs_closed rl events rl' :
  runs rl events rl' ->
  closed rl = true ->
  tokens rl' + permits events <= tokens rl.
Proof.
  induction 1 as [rl|rl events rl' _ IH|rl events rl' _ IH
                  |rl ctx out events rl' Hacq _ IH]; intros Hclosed.
  - cbn. lia.
  - cbn [permits].
    assert (Hstep : tokens (refillTick rl) = tokens rl
                    /\ closed (refillTick rl) = true).
    { unfold refillTick. destruct (refilling rl); cbn [negb];
        [rewrite Hclosed; cbn; auto|auto]. }
    destruct Hstep as [Ht Hc]. specialize (IH Hc). lia.
  - cbn [permits].
    assert (Hstep : Close rl = rl).
    { unfold Close. rewrite Hclosed. reflexivity. }
    rewrite Hstep in IH. exact (IH Hclosed).
  - destruct Hacq as [Hpos|err Hctx|Hempty Hctx];
      cbn [permits afterAcquire] in *.
    + specialize (IH Hclosed). cbn in IH. lia.
    + exact (IH Hclosed).
    + exact (IH Hclosed).
Qed.

Lemma runs_nonneg rl events rl' :
  runs rl events rl' -> 0 <= tokens rl -> 0 <= tokens rl'.
Proof.
  induction 1 as [rl|rl events rl' _ IH|rl events rl' _ IH
                  |rl ctx out events rl' Hacq _ IH]; intros Hnn.
  - exact Hnn.
  - apply IH. unfold refillTick. destruct (refilling rl); cbn [negb]; [|lia].
    destruct (closed rl); cbn; [lia|].
    destruct (Z.ltb_spec (tokens rl) (capacity rl)); cbn; lia.
  - apply IH. unfold Close. destruct (closed rl); cbn; lia.
  - apply IH. destruct Hacq; cbn; lia.
Qed.

(** X27. After [Close] the pool is never refilled: whatever ticks still
    arrive, the calls of [Acquire] that follow are granted at most the
    permits that were buffered when [Close] was called; once those are
    gone, [Acquire] returns only when its context is done. *)
Theorem closed_limiter_grants_only_buffered_permits rl events rl' :
  0 <= tokens rl ->
  runs (Close rl) events rl' ->
  permits events <= tokens rl
  /\ (tokens rl = 0 ->
      forall ctx out, Acquire rl' ctx out ->
        match ctx with
        | None => out = Blocked
        | Some err => out = ContextError err
        end).
Proof.
  intros Hnn Hrun.
  assert (Hc : closed (Close rl) = true /\ tokens (Close rl) = tokens rl).
  { unfold Close. destruct (closed rl) eqn:E; cbn; auto. }
  destruct Hc as [Hc Ht].
  pose proof (runs_closed _ _ _ Hrun Hc) as Hle. rewrite Ht in Hle.
  pose proof (runs_nonneg _ _ _ Hrun ltac:(lia)) as Hge.
  split; [lia|].
  intros Hzero ctx out Hacq.
  assert (Hp : 0 <= permits events).
  { clear. induction events as [|[| |ctx [rl0|err|]] events IH]; cbn; lia. }
  destruct Hacq as [Hpos|err Hctx|Hempty Hctx]; subst; try reflexivity.
  lia.
Qed.

Lemma closed_limiter_grants_only_buffered_permits_witness :
  permits [Ticked; Acquired None (Permit (takeToken (refillTick
                                                      (Close two_per_second))));
           Ticked]
  <= 2.
Proof.
  refine (proj1 (closed_limiter_grants_only_buffered_permits two_per_second
                   _ _ _ _)).
  - cbn. lia.
  - apply runs_tick.
    apply runs_acquire; [apply Acquire_token; vm_compute; reflexivity|].
    apply runs_tick. apply runs_nil.
Defined.

End RateLimiterFacts.
